(** * ScyllaDB backfill service: a shallow embedding of
      [proto_backfill_main.py] and the properties of its table copier,
      checkpoint store, parallel batch executor and run orchestrator.

    The Python methods of [ScyllaBackfillService] are written as functions
    of a small state-exception-writer monad: the state holds what the
    service mutates ([self.stats], the checkpoint directory, [self.running]),
    an exception is an outcome, and every observable effect (a statement
    sent to the target, a checkpoint written or removed, a log line) is an
    event of the returned trace.  Everything the service only observes (the
    two database sessions, the file system faults, the clock, the thread
    pool) is an oracle of the environment [Env].

    The code around the service ([verify_data_integrity],
    [load_tables_from_config] and the end of [main], the connections of
    [initialize_services] and [cleanup], and [ScyllaDBService.write_data] of
    [scylla_service.py]) touches none of that state and is written as plain
    functions that return what they log and do. *)

From Stdlib Require Import ZArith QArith List Permutation Lia.
From stdpp Require Import base option list gmap strings.
Import ListNotations.
Local Close Scope Q_scope.
Local Open Scope string_scope.
Local Open Scope Z_scope.
Local Open Scope list_scope.

(** ** Values *)

(** A cell of a database row.  The copier passes cells through unchanged and
    the validator compares them for equality. *)
Inductive Value : Type :=
| VNull
| VBool (b : bool)
| VInt (z : Z)
| VText (s : string).

#[global] Instance Value_eq_dec : EqDecision Value.
Proof. solve_decision. Defined.

(** A driver row is a named tuple: field names with their cells, in column
    order. *)
Definition Row : Type := list (string * Value).

Definition _fields (r : Row) : list string := map fst r.

(** What [json.load] can return. Floats are carried as rationals; nothing
    below computes with them. *)
#[warnings="-register-all"]
Inductive jsonv : Type :=
| JNull
| JBool (b : bool)
| JInt (z : Z)
| JFloat (q : Q)
| JStr (s : string)
| JArr (l : list jsonv)
| JObj (kvs : list (string * jsonv)).

(** Python exceptions, all of them subclasses of [Exception]. *)
Inductive Exn : Type :=
| TypeError
| ValueError
| AttributeError
| JSONDecodeError
| OSError
| DriverError
| RuntimeError.

(** ** Records of the source *)

(** [@dataclass PerformanceMetrics]. *)
Record PerformanceMetrics : Type := mkMetrics {
  records_per_second : Q;
  memory_usage_percent : Q;
  cpu_usage_percent : Q;
  duration_seconds : Q;
  total_records : Z
}.

Definition default_metrics : PerformanceMetrics :=
  mkMetrics 0%Q 0%Q 0%Q 0%Q 0.

(** [@dataclass Checkpoint].  A dataclass does not check its annotations, so
    a field holds whatever the caller (or the JSON file) supplied. *)
Record Checkpoint : Type := mkCheckpoint {
  table_name : jsonv;
  processed_count : jsonv;
  total_count : jsonv;
  timestamp : jsonv;
  batch_size : jsonv
}.

(** [checkpoint.__dict__], as [json.dump] writes it and [json.load] reads it
    back. *)
Definition checkpoint_dict (c : Checkpoint) : jsonv :=
  JObj [("table_name", table_name c);
        ("processed_count", processed_count c);
        ("total_count", total_count c);
        ("timestamp", timestamp c);
        ("batch_size", batch_size c)].

Definition checkpoint_fields : list string :=
  ["table_name"; "processed_count"; "total_count"; "timestamp"; "batch_size"].

(** [self.stats]; the wall-clock entries ([start_time], [end_time],
    [duration]) are left out. *)
Record Stats : Type := mkStats {
  tables_processed : Z;
  records_processed : Z;
  errors : Z;
  performance_metrics : gmap string PerformanceMetrics
}.

(** [self.config], as far as the service reads it. [cfg_batch_size] is
    [None] when the key is absent ([config.get('batch_size', 5000)]). *)
Record Config : Type := mkConfig {
  cfg_batch_size : option Z;
  max_workers : Z;
  enable_resume : bool;
  enable_parallel : bool
}.

(** ** The checkpoint directory *)

(** A file of the checkpoint directory: one that cannot be opened or read,
    or a text with the value [json.load] parses from it ([None]: not JSON). *)
Inductive FileData : Type :=
| Unreadable
| Text (parsed : option jsonv).

(** What one attempt to write a checkpoint file does. *)
Inductive WriteOutcome : Type :=
| WriteOk
| WriteRefused   (* [os.makedirs] or [open] raised: nothing written *)
| WriteTorn.     (* [open] truncated the file, [json.dump] raised *)

(** ** Events *)

Inductive Level : Type := Debug | Info | Warning | Error.

Inductive Msg : Type :=
| MsgProcessing (t : string)
| MsgResumeFound (t : string)
| MsgResumeProgress (p total : jsonv)
| MsgResumeTime (ts : jsonv)
| MsgNoData (t : string)
| MsgTotal (t : string) (n : Z)
| MsgNoSample (t : string)
| MsgStreaming (t : string) (b : Z)
| MsgProgress (t : string) (p total : Z)
| MsgMetrics (t : string) (m : PerformanceMetrics)
| MsgMetricsFailed
| MsgCopied (t : string) (n : Z)
| MsgCopyError (t : string)
| MsgCheckpointSaved (t : string) (p total : Z)
| MsgSaveFailed
| MsgLoadFailed
| MsgCheckpointCleared (t : string)
| MsgClearFailed
| MsgCountMismatch (s g : Z)
| MsgSampleMismatch (i : nat)
| MsgIntegrityOk (n : Z)
| MsgIntegrityError
| MsgBatchCompleted (i : nat) (k : nat) (n : Z)
| MsgBatchFailed
| MsgParallelFailed
| MsgStart
| MsgInitOk
| MsgInitError
| MsgInitFailed
| MsgBatchSize (b : Z)
| MsgSignal
| MsgShutdown
| MsgFatal
| MsgFailedProcess (t : string)
| MsgCompleted
| MsgClosed
| MsgCleanupError.

(** Which code path of the executor runs a batch. *)
Inductive Path : Type := Concurrent | Sequential.

Inductive Event : Type :=
| EvSrcCount (t : string) (n : Z)
    (* the source answered the copier's [SELECT COUNT( * )] with [n] *)
| EvInsert (q : string) (vals : list Value)
    (* the target executed the statement *)
| EvInsertFailed (q : string) (vals : list Value)
    (* the target raised on the statement *)
| EvSave (file : string) (c : Checkpoint)
    (* the checkpoint file was written *)
| EvSaveFailed (file : string)
| EvClear (file : string)
    (* the checkpoint file was removed *)
| EvBatchStart (p : Path) (i : nat)
    (* the executor starts applying batch [i] on path [p] *)
| EvLog (l : Level) (m : Msg).

(** ** State and environment *)

Record State : Type := mkState {
  stats : Stats;
  files : gmap string FileData;   (* the checkpoint directory *)
  tgt_attempts : nat;             (* statements sent to the target so far *)
  fs_ops : nat;                   (* checkpoint writes and removals so far *)
  running : bool                  (* [self.running] *)
}.

(** The thread pool of one executor call. *)
Inductive PoolBehaviour : Type :=
| PoolCompletes (order : list nat)
    (* every batch is submitted; [as_completed] yields the futures of the
       batches in this order *)
| PoolBreaks (ran : list nat).
    (* a submission raises; the workers ran the batches [ran] before the
       exception left the [with] block *)

Record Env : Type := mkEnv {
  connect_src : bool;
  connect_tgt : bool;
  src_count : string -> option Z;
    (* [SELECT COUNT( * ) FROM t] on the source; [None]: it raises *)
  src_sample : string -> option (option Row);
    (* [SELECT * FROM t LIMIT 1] then [.one()] *)
  src_stream : string -> option (list Row * bool);
    (* [SELECT * FROM t]: the rows the cursor yields and whether the
       iteration then raises instead of ending *)
  tgt_accepts : nat -> string -> list Value -> bool;
    (* does the target execute the [n]-th statement sent to it *)
  fs_write : nat -> WriteOutcome;
  fs_remove_ok : nat -> bool;
  clock : nat -> string;
    (* [datetime.now().isoformat()] *)
  elapsed : string -> Q;
    (* [time.time() - table_start_time] *)
  psutil_sample : string -> option (Q * Q);
    (* memory and cpu percent; [None]: psutil raises *)
  signal_before : nat -> bool;
    (* a termination signal is delivered before the [k]-th check of
       [self.running] *)
  close_src_ok : bool;
  close_tgt_ok : bool;
    (* does [close()] of the source and of the target service return;
       [false]: [cluster.shutdown()] raises *)
  float_div : Q -> Q -> Q
    (* [x / y] on floats, as the machine rounds it *)
}.

(** What the integrity validator sees of the two stores after a copy. *)
Record ValidatorView : Type := mkView {
  val_src_count : string -> option Z;
  val_tgt_count : string -> option Z;
  val_src_sample : string -> Z -> option (list Row);
  val_tgt_sample : string -> Z -> option (list Row)
}.

(** ** The monad *)

Inductive Outcome (A : Type) : Type :=
| Ok (a : A)
| Raise (e : Exn).
Arguments Ok {A} a.
Arguments Raise {A} e.

Definition M (A : Type) : Type := State -> Outcome A * State * list Event.

Definition ret {A} (a : A) : M A := fun s => (Ok a, s, []).

Definition bind {A B} (m : M A) (k : A -> M B) : M B := fun s =>
  match m s with
  | (Ok a, s1, e1) =>
      match k a s1 with
      | (r, s2, e2) => (r, s2, e1 ++ e2)
      end
  | (Raise e, s1, e1) => (Raise e, s1, e1)
  end.

Definition raise {A} (e : Exn) : M A := fun s => (Raise e, s, []).

(** [try: m except Exception as e: h e]. *)
Definition try_except {A} (m : M A) (h : Exn -> M A) : M A := fun s =>
  match m s with
  | (Ok a, s1, e1) => (Ok a, s1, e1)
  | (Raise e, s1, e1) =>
      match h e s1 with
      | (r, s2, e2) => (r, s2, e1 ++ e2)
      end
  end.

Definition emit (e : Event) : M unit := fun s => (Ok tt, s, [e]).

Definition log (l : Level) (m : Msg) : M unit := emit (EvLog l m).

Definition get : M State := fun s => (Ok s, s, []).

Definition modify (f : State -> State) : M unit := fun s => (Ok tt, f s, []).

(** An oracle answer: [None] is the call raising. *)
Definition answer {A} (e : Exn) (o : option A) : M A :=
  match o with
  | Some a => ret a
  | None => raise e
  end.

Declare Scope py_scope.
Delimit Scope py_scope with py.
Notation "x <- m ;; k" := (bind m (fun x => k))
  (at level 100, m at next level, right associativity) : py_scope.
Notation "m ;;; k" := (bind m (fun _ => k))
  (at level 100, right associativity) : py_scope.
Local Open Scope py_scope.

Definition when (b : bool) (m : M unit) : M unit :=
  if b then m else ret tt.

(** State updates. *)
Definition set_stats (f : Stats -> Stats) (s : State) : State :=
  mkState (f (stats s)) (files s) (tgt_attempts s) (fs_ops s) (running s).

Definition set_files (f : gmap string FileData -> gmap string FileData)
    (s : State) : State :=
  mkState (stats s) (f (files s)) (tgt_attempts s) (fs_ops s) (running s).

Definition tick_tgt (s : State) : State :=
  mkState (stats s) (files s) (S (tgt_attempts s)) (fs_ops s) (running s).

Definition tick_fs (s : State) : State :=
  mkState (stats s) (files s) (tgt_attempts s) (S (fs_ops s)) (running s).

Definition set_running (b : bool) (s : State) : State :=
  mkState (stats s) (files s) (tgt_attempts s) (fs_ops s) b.

(** ** The database sessions *)

(** [getattr(row, col)]. *)
Fixpoint getattr (r : Row) (col : string) : option Value :=
  match r with
  | [] => None
  | (f, v) :: r' => if String.eqb f col then Some v else getattr r' col
  end.

(** [[getattr(row, col) for col in columns]]; [None] is [AttributeError]. *)
Fixpoint row_values (r : Row) (columns : list string) : option (list Value) :=
  match columns with
  | [] => Some []
  | col :: columns' =>
      match getattr r col with
      | None => None
      | Some v =>
          match row_values r columns' with
          | None => None
          | Some vs => Some (v :: vs)
          end
      end
  end.

(** [self.tgt_service.session.execute(insert_query, values)]. *)
Definition tgt_execute (env : Env) (q : string) (vals : list Value) : M unit :=
  fun s =>
    if tgt_accepts env (tgt_attempts s) q vals
    then (Ok tt, tick_tgt s, [EvInsert q vals])
    else (Raise DriverError, tick_tgt s, [EvInsertFailed q vals]).

(** The statement the copier builds from the sampled columns. *)
Definition make_insert_query (t : string) (columns : list string) : string :=
  "INSERT INTO " +:+ t +:+ " (" +:+ String.concat ", " columns
  +:+ ") VALUES (" +:+ String.concat ", " (map (fun _ => "%s") columns)
  +:+ ")".

(** The inner loop of a flush:
    [for batch_row in current_batch: values = ...; execute(insert_query, values)]. *)
Fixpoint insert_rows (env : Env) (columns : list string) (q : string)
    (batch : list Row) : M unit :=
  match batch with
  | [] => ret tt
  | batch_row :: rest =>
      values <- answer AttributeError (row_values batch_row columns) ;;
      tgt_execute env q values ;;;
      insert_rows env columns q rest
  end.

(** ** Checkpoint store *)

(** [os.path.join(self.checkpoint_dir, f'{table_name}.json')], for a table
    name that is a plain file name: the join is then the file of that name
    under the directory. The store below is keyed by this path; what the
    file system does with a name that holds a separator is not modelled. *)
Definition checkpoint_file (t : string) : string :=
  "checkpoints/" +:+ t +:+ ".json".

Definition save_checkpoint (env : Env) (t : string)
    (processed total bsize : Z) : M unit :=
  fun s =>
    let checkpoint :=
      mkCheckpoint (JStr t) (JInt processed) (JInt total)
                   (JStr (clock env (fs_ops s))) (JInt bsize) in
    let file := checkpoint_file t in
    match fs_write env (fs_ops s) with
    | WriteOk =>
        (Ok tt,
         tick_fs (set_files <[file := Text (Some (checkpoint_dict checkpoint))]> s),
         [EvSave file checkpoint;
          EvLog Debug (MsgCheckpointSaved t processed total)])
    | WriteRefused =>
        (Ok tt, tick_fs s, [EvSaveFailed file; EvLog Warning MsgSaveFailed])
    | WriteTorn =>
        (Ok tt, tick_fs (set_files <[file := Text None]> s),
         [EvSaveFailed file; EvLog Warning MsgSaveFailed])
    end.

(** [data[k]] of a parsed JSON object. *)
Fixpoint dict_get (kvs : list (string * jsonv)) (k : string) : option jsonv :=
  match kvs with
  | [] => None
  | (k', v) :: kvs' => if String.eqb k' k then Some v else dict_get kvs' k
  end.

(** [Checkpoint( **data )]: the call raises [TypeError] unless [data] is a
    mapping whose keys are exactly the five fields. *)
Definition Checkpoint_of (data : jsonv) : Outcome Checkpoint :=
  match data with
  | JObj kvs =>
      match dict_get kvs "table_name", dict_get kvs "processed_count",
            dict_get kvs "total_count", dict_get kvs "timestamp",
            dict_get kvs "batch_size" with
      | Some a, Some b, Some c, Some d, Some e =>
          if (length kvs =? 5)%nat
          then Ok (mkCheckpoint a b c d e)
          else Raise TypeError
      | _, _, _, _, _ => Raise TypeError
      end
  | _ => Raise TypeError
  end.

(** The body of the [try] of [load_checkpoint]; [Ok None] is falling out of
    the [if os.path.exists(...)]. *)
Definition read_checkpoint (fs : gmap string FileData) (t : string)
    : Outcome (option Checkpoint) :=
  match fs !! checkpoint_file t with
  | None => Ok None
  | Some Unreadable => Raise OSError
  | Some (Text None) => Raise JSONDecodeError
  | Some (Text (Some data)) =>
      match Checkpoint_of data with
      | Ok c => Ok (Some c)
      | Raise e => Raise e
      end
  end.

Definition load_checkpoint (t : string) : M (option Checkpoint) :=
  try_except
    (s <- get ;;
     match read_checkpoint (files s) t with
     | Ok (Some c) => ret (Some c)
     | Ok None => ret None
     | Raise e => raise e
     end)
    (fun _ => log Warning MsgLoadFailed ;;; ret None).

Definition clear_checkpoint (env : Env) (t : string) : M unit :=
  fun s =>
    let file := checkpoint_file t in
    match files s !! file with
    | None => (Ok tt, s, [])
    | Some _ =>
        if fs_remove_ok env (fs_ops s)
        then (Ok tt, tick_fs (set_files (delete file) s),
              [EvClear file; EvLog Debug (MsgCheckpointCleared t)])
        else (Ok tt, tick_fs s, [EvLog Warning MsgClearFailed])
    end.

(** ** Metrics collector *)

(** [record_count / duration] is a division of floats: the quotient is the
    one the environment computes, [float_div], rounding included. *)
Definition get_performance_metrics (env : Env) (t : string) (duration : Q)
    (record_count : Z) : M PerformanceMetrics :=
  let rps :=
    if Qlt_le_dec 0%Q duration
    then float_div env (inject_Z record_count) duration else 0%Q in
  match psutil_sample env t with
  | Some (memory_usage, cpu_usage) =>
      ret (mkMetrics rps memory_usage cpu_usage duration record_count)
  | None =>
      log Warning MsgMetricsFailed ;;; ret default_metrics
  end.

Definition log_performance_metrics (t : string) (m : PerformanceMetrics)
    : M unit :=
  log Info (MsgMetrics t m).

(** ** Table copier *)

(** The format specification [{x:,}] of an f-string: numbers print, a
    string raises [ValueError], anything else [TypeError]. *)
Definition format_comma (v : jsonv) : M unit :=
  match v with
  | JInt _ | JFloat _ | JBool _ => ret tt
  | JStr _ => raise ValueError
  | _ => raise TypeError
  end.

(** Lines 102-109: the report of an earlier checkpoint. *)
Definition report_resume (cfg : Config) (t : string) : M unit :=
  if enable_resume cfg then
    checkpoint <- load_checkpoint t ;;
    match checkpoint with
    | Some c =>
        log Info (MsgResumeFound t) ;;;
        format_comma (processed_count c) ;;;
        format_comma (total_count c) ;;;
        log Info (MsgResumeProgress (processed_count c) (total_count c)) ;;;
        log Info (MsgResumeTime (timestamp c))
    | None => ret tt
    end
  else ret tt.

(** Lines 143-165: [for row in all_rows]. The result is the state of the
    locals [current_batch], [processed_count] and [batch_num] when the
    cursor is exhausted. *)
Fixpoint stream_batches (env : Env) (cfg : Config) (t : string)
    (bsize total : Z) (columns : list string) (q : string)
    (all_rows current_batch : list Row) (processed batch_num : Z)
    : M (list Row * Z * Z) :=
  match all_rows with
  | [] => ret (current_batch, processed, batch_num)
  | row :: rest =>
      let current_batch := current_batch ++ [row] in
      if bsize <=? Z.of_nat (length current_batch) then
        insert_rows env columns q current_batch ;;;
        let processed := processed + Z.of_nat (length current_batch) in
        let batch_num := batch_num + 1 in
        when (enable_resume cfg && (batch_num mod 10 =? 0))
             (save_checkpoint env t processed total bsize) ;;;
        log Info (MsgProgress t processed total) ;;;
        stream_batches env cfg t bsize total columns q rest [] processed batch_num
      else
        stream_batches env cfg t bsize total columns q rest current_batch
                       processed batch_num
  end.

(** Lines 167-183: the last, partial batch. *)
Definition flush_remaining (env : Env) (cfg : Config) (t : string)
    (bsize total : Z) (columns : list string) (q : string)
    (current_batch : list Row) (processed batch_num : Z) : M (Z * Z) :=
  match current_batch with
  | [] => ret (processed, batch_num)
  | _ :: _ =>
      insert_rows env columns q current_batch ;;;
      let processed := processed + Z.of_nat (length current_batch) in
      let batch_num := batch_num + 1 in
      when (enable_resume cfg) (save_checkpoint env t processed total bsize) ;;;
      log Info (MsgProgress t processed total) ;;;
      ret (processed, batch_num)
  end.

Definition record_metrics (t : string) (m : PerformanceMetrics) (st : Stats)
    : Stats :=
  mkStats (tables_processed st) (records_processed st) (errors st)
          (<[t := m]> (performance_metrics st)).

Definition count_table (n : Z) (st : Stats) : Stats :=
  mkStats (tables_processed st + 1) (records_processed st + n) (errors st)
          (performance_metrics st).

Definition count_error (st : Stats) : Stats :=
  mkStats (tables_processed st) (records_processed st) (errors st + 1)
          (performance_metrics st).

(** [if not sample_row]: there is no row, or the row is an empty tuple. *)
Definition no_sample (sample_row : option Row) : bool :=
  match sample_row with
  | Some (_ :: _) => false
  | _ => true
  end.

(** [list(sample_row._fields)]. *)
Definition sampled_columns (sample_row : option Row) : list string :=
  match sample_row with
  | Some r => _fields r
  | None => []
  end.

(** The [try] block of [copy_table_data]. *)
Definition copy_body (env : Env) (cfg : Config) (t : string) (bsize : Z)
    : M bool :=
  log Info (MsgProcessing t) ;;;
  report_resume cfg t ;;;
  total <- answer DriverError (src_count env t) ;;
  emit (EvSrcCount t total) ;;;
  if total =? 0 then
    log Warning (MsgNoData t) ;;; ret true
  else
    log Info (MsgTotal t total) ;;;
    sample_row <- answer DriverError (src_sample env t) ;;
    if no_sample sample_row then
      log Warning (MsgNoSample t) ;;; ret true
    else
      let columns := sampled_columns sample_row in
      let insert_query := make_insert_query t columns in
      log Info (MsgStreaming t bsize) ;;;
      all_rows <- answer DriverError (src_stream env t) ;;
      locals <- stream_batches env cfg t bsize total columns insert_query
                  (fst all_rows) [] 0 0 ;;
      when (snd all_rows) (raise DriverError) ;;;
      counts <- flush_remaining env cfg t bsize total columns insert_query
                  (fst (fst locals)) (snd (fst locals)) (snd locals) ;;
      let processed := fst counts in
      metrics <- get_performance_metrics env t (elapsed env t) processed ;;
      log_performance_metrics t metrics ;;;
      modify (set_stats (record_metrics t metrics)) ;;;
      log Info (MsgCopied t processed) ;;;
      when (enable_resume cfg) (clear_checkpoint env t) ;;;
      modify (set_stats (count_table processed)) ;;;
      ret true.

Definition copy_table_data (env : Env) (cfg : Config) (t : string) (bsize : Z)
    : M bool :=
  try_except (copy_body env cfg t bsize)
    (fun _ =>
       log Error (MsgCopyError t) ;;;
       modify (set_stats count_error) ;;;
       ret false).

(** ** Integrity validator *)

(** [==] on two cells. Python compares a [bool] with an [int] as numbers
    ([True == 1], [False == 0]); [None] equals only [None], and a string
    only the same string. *)
Definition cell_eqb (a b : Value) : bool :=
  match a, b with
  | VNull, VNull => true
  | VBool x, VBool y => Bool.eqb x y
  | VInt x, VInt y => x =? y
  | VBool x, VInt y => Z.b2z x =? y
  | VInt x, VBool y => x =? Z.b2z y
  | VText x, VText y => String.eqb x y
  | _, _ => false
  end.

(** [==] on two tuples: the same length and equal cells, position by
    position. *)
Fixpoint cells_eqb (a b : list Value) : bool :=
  match a, b with
  | [], [] => true
  | x :: a', y :: b' => cell_eqb x y && cells_eqb a' b'
  | _, _ => false
  end.

(** [src_row != tgt_row] is false: a named tuple compares as the tuple of
    its cells. *)
Definition row_eqb (a b : Row) : bool :=
  cells_eqb (map snd a) (map snd b).

(** [for i, (src_row, tgt_row) in enumerate(zip(...))]: the index of the
    first pair that differs. *)
Fixpoint first_mismatch (i : nat) (pairs : list (Row * Row)) : option nat :=
  match pairs with
  | [] => None
  | (src_row, tgt_row) :: rest =>
      if row_eqb src_row tgt_row then first_mismatch (S i) rest else Some i
  end.

Definition validate_data_integrity_detailed (v : ValidatorView) (t : string)
    : M bool :=
  try_except
    (src_c <- answer DriverError (val_src_count v t) ;;
     tgt_c <- answer DriverError (val_tgt_count v t) ;;
     if negb (src_c =? tgt_c) then
       log Error (MsgCountMismatch src_c tgt_c) ;;; ret false
     else
       let sample_size := Z.min 100 src_c in
       mismatch <-
         (if 0 <? sample_size then
            src_s <- answer DriverError (val_src_sample v t sample_size) ;;
            tgt_s <- answer DriverError (val_tgt_sample v t sample_size) ;;
            ret (first_mismatch 0 (combine src_s tgt_s))
          else ret None) ;;
       match mismatch with
       | Some i => log Error (MsgSampleMismatch i) ;;; ret false
       | None => log Info (MsgIntegrityOk src_c) ;;; ret true
       end)
    (fun _ => log Error MsgIntegrityError ;;; ret false).

(** ** Parallel batch executor *)

(** The closure [process_single_batch]. *)
Fixpoint process_single_batch (env : Env) (columns : list string) (q : string)
    (batch_data : list Row) (batch_processed : Z) : M Z :=
  match batch_data with
  | [] => ret batch_processed
  | row :: rest =>
      values <- answer AttributeError (row_values row columns) ;;
      tgt_execute env q values ;;;
      process_single_batch env columns q rest (batch_processed + 1)
  end.

(** A worker thread running the future of batch [i]. The workers' statements
    are serialised in the order the pool reports; how they interleave in
    time is not modelled. *)
Definition worker (env : Env) (columns : list string) (q : string)
    (i : nat) (batch : list Row) : M Z :=
  emit (EvBatchStart Concurrent i) ;;;
  process_single_batch env columns q batch 0.

(** [for future in as_completed(future_to_batch)], with its inner [try]. *)
Fixpoint collect_completed (env : Env) (columns : list string) (q : string)
    (batches : list (list Row)) (order : list nat) (processed : Z) : M Z :=
  match order with
  | [] => ret processed
  | i :: order' =>
      match batches !! i with
      | None => collect_completed env columns q batches order' processed
      | Some batch =>
          processed <-
            try_except
              (batch_processed <- worker env columns q i batch ;;
               log Debug (MsgBatchCompleted (S i) (length batches)
                                            batch_processed) ;;;
               ret (processed + batch_processed))
              (fun _ => log Error MsgBatchFailed ;;; ret processed) ;;
          collect_completed env columns q batches order' processed
      end
  end.

(** The batches a breaking pool has run: their futures are never read. *)
Fixpoint run_workers (env : Env) (columns : list string) (q : string)
    (batches : list (list Row)) (ran : list nat) : M unit :=
  match ran with
  | [] => ret tt
  | i :: ran' =>
      match batches !! i with
      | None => ret tt
      | Some batch =>
          try_except (worker env columns q i batch ;;; ret tt)
                     (fun _ => ret tt)
      end ;;;
      run_workers env columns q batches ran'
  end.

(** Lines 334-338, the inner [for row in batch]. *)
Fixpoint fallback_rows (env : Env) (columns : list string) (q : string)
    (batch : list Row) (processed : Z) : M Z :=
  match batch with
  | [] => ret processed
  | row :: rest =>
      values <- answer AttributeError (row_values row columns) ;;
      tgt_execute env q values ;;;
      fallback_rows env columns q rest (processed + 1)
  end.

(** Lines 334-338, [for batch in batches]. *)
Fixpoint fallback_batches (env : Env) (columns : list string) (q : string)
    (i : nat) (batches : list (list Row)) (processed : Z) : M Z :=
  match batches with
  | [] => ret processed
  | batch :: rest =>
      emit (EvBatchStart Sequential i) ;;;
      processed <- fallback_rows env columns q batch processed ;;
      fallback_batches env columns q (S i) rest processed
  end.

(** [ThreadPoolExecutor(max_workers=...)] raises [ValueError] unless
    [max_workers] is positive. A pool-level exception can only come from the
    constructor or from a submission, that is before the first completion is
    counted; so the fallback starts from [processed_count = 0]. *)
Definition process_batch_parallel (env : Env) (cfg : Config)
    (pool : PoolBehaviour) (batches : list (list Row)) (t : string)
    (columns : list string) (q : string) : M Z :=
  try_except
    (if max_workers cfg <=? 0 then raise ValueError
     else
       match pool with
       | PoolCompletes order => collect_completed env columns q batches order 0
       | PoolBreaks ran =>
           run_workers env columns q batches ran ;;; raise RuntimeError
       end)
    (fun _ =>
       log Error MsgParallelFailed ;;;
       fallback_batches env columns q 0 batches 0).

(** ** Run orchestrator *)

Definition initialize_services (env : Env) : M bool :=
  if connect_src env && connect_tgt env
  then log Info MsgInitOk ;;; ret true
  else log Error MsgInitError ;;; ret false.

(** [self.src_service.close()] and [self.tgt_service.close()]. *)
Definition close_service (ok : bool) : M unit :=
  if ok then ret tt else raise DriverError.

(** [cleanup] (lines 399-407). The attribute [src_service] is set when the
    source connected, [tgt_service] when both did: the second constructor
    is not reached otherwise. *)
Definition cleanup (env : Env) : M unit :=
  try_except
    (when (connect_src env) (close_service (close_src_ok env)) ;;;
     when (connect_src env && connect_tgt env)
          (close_service (close_tgt_ok env)) ;;;
     log Info MsgClosed)
    (fun _ => log Error MsgCleanupError).

(** [_signal_handler], run when a signal is delivered. *)
Definition _signal_handler : M unit :=
  log Info MsgSignal ;;; modify (set_running false).

(** Lines 370-383: [for table_name in tables]; [k] counts the iterations. *)
Fixpoint table_loop (env : Env) (v : ValidatorView) (cfg : Config)
    (bsize : Z) (k : nat) (tables : list string) : M unit :=
  match tables with
  | [] => ret tt
  | t :: rest =>
      when (signal_before env k) _signal_handler ;;;
      s <- get ;;
      if negb (running s) then log Info MsgShutdown
      else
        success <- copy_table_data env cfg t bsize ;;
        if negb success then
          log Error (MsgFailedProcess t) ;;;
          table_loop env v cfg bsize (S k) rest
        else
          validate_data_integrity_detailed v t ;;;
          table_loop env v cfg bsize (S k) rest
  end.

Definition run_backfill (env : Env) (v : ValidatorView) (cfg : Config)
    (tables : list string) : M bool :=
  log Info MsgStart ;;;
  result <-
    try_except
      (ok <- initialize_services env ;;
       if negb ok then log Error MsgInitFailed ;;; ret false
       else
         let bsize := default 5000 (cfg_batch_size cfg) in
         log Info (MsgBatchSize bsize) ;;;
         table_loop env v cfg bsize 0 tables ;;;
         log Info MsgCompleted ;;;
         ret true)
      (fun _ => log Error MsgFatal ;;; ret false) ;;
  cleanup env ;;;
  ret result.

(** * The rest of the repository *)

(** ** Lines logged through the [logging] module *)

Inductive Note : Type :=
| NoteVerify (t : string) (matched : bool) (s g : Z)
| NoteVerifyError (t : string)
| NoteNoRows (t : string)
| NoteNoColumns (t : string)
| NoteInserted (t : string) (n : Z)
| NoteInsertedAll (t : string) (n : Z)
| NoteWriteError (t : string)
| NoteTablesFailed
| NoteConnected (keyspace : string)
| NoteConnectError
| NoteConnectionClosed
| NoteInitOk
| NoteInitError
| NoteClosed
| NoteCleanupError.

(** ** The count check *)

(** [verify_data_integrity] (lines 342-355): the two counts, compared. *)
Definition verify_data_integrity (v : ValidatorView) (t : string)
    : bool * list (Level * Note) :=
  match val_src_count v t with
  | None => (false, [(Error, NoteVerifyError t)])
  | Some src_c =>
      match val_tgt_count v t with
      | None => (false, [(Error, NoteVerifyError t)])
      | Some tgt_c =>
          let matched := src_c =? tgt_c in
          (matched, [(Info, NoteVerify t matched src_c tgt_c)])
      end
  end.

(** Lines 495-503 of [main]: the exit status of the process. *)
Definition exit_status (success : Outcome bool) : Z :=
  match success with
  | Ok true => 0
  | _ => 1
  end.

(** ** [ScyllaDBService.write_data] *)

(** The session of a [ScyllaDBService], as [write_data] drives it. *)
Record Session : Type := mkSession {
  prepare_ok : string -> bool;
    (* does [session.prepare(query)] return *)
  add_ok : nat -> bool;
    (* does [batch.add] accept a statement when the batch holds [n] *)
  execute_ok : nat -> list (list Value) -> bool
    (* does the [k]-th [session.execute(batch)] of the call succeed *)
}.

(** What escapes to the handler of [write_data]. *)
Inductive WriteError : Type :=
| KeyError            (* [row[col]]: the row has no such column *)
| AddError            (* [batch.add] raised *)
| ZeroDivisionError   (* [(i + 1) % batch_size] with [batch_size = 0] *)
| ExecuteError.       (* [session.execute(batch)] raised *)

Inductive SessionEvent : Type :=
| SePrepare (q : string)
| SeExecute (batch : list (list Value))
| SeExecuteFailed (batch : list (list Value))
| SeLog (l : Level) (n : Note).

(** Lines 65-73: [for i, row in enumerate(rows)], from index [i] on, with
    the statements of the open [batch] and the number of batches [executed]
    so far. The loop ends with an error or with the open batch. *)
Fixpoint write_rows (ses : Session) (t : string) (columns : list string)
    (batch_size : Z) (rows : list Row) (i : nat) (batch : list (list Value))
    (executed : nat)
    : list SessionEvent * (WriteError + list (list Value) * nat) :=
  match rows with
  | [] => ([], inr (batch, executed))
  | row :: rest =>
      match row_values row columns with
      | None => ([], inl KeyError)
      | Some values =>
          if negb (add_ok ses (length batch)) then ([], inl AddError)
          else
            let batch := batch ++ [values] in
            if batch_size =? 0 then ([], inl ZeroDivisionError)
            else if (Z.of_nat i + 1) mod batch_size =? 0 then
              if execute_ok ses executed batch then
                let rest_run :=
                  write_rows ses t columns batch_size rest (S i) []
                             (S executed) in
                (SeExecute batch
                   :: SeLog Info (NoteInserted t (Z.of_nat i + 1))
                   :: rest_run.1,
                 rest_run.2)
              else ([SeExecuteFailed batch], inl ExecuteError)
            else
              write_rows ses t columns batch_size rest (S i) batch executed
      end
  end.

(** [write_data] (lines 50-80). The statement is prepared outside the
    [try]; everything after it is inside. *)
Definition write_data (ses : Session) (t : string) (rows : list Row)
    (columns : list string) (batch_size : Z)
    : list SessionEvent * Outcome unit :=
  match rows, columns with
  | [], _ => ([SeLog Warning (NoteNoRows t)], Ok tt)
  | _ :: _, [] => ([SeLog Warning (NoteNoColumns t)], Ok tt)
  | _ :: _, _ :: _ =>
      let insert_query := make_insert_query t columns in
      if negb (prepare_ok ses insert_query) then ([], Raise DriverError)
      else
        let loop := write_rows ses t columns batch_size rows 0 [] 0 in
        match loop.2 with
        | inl _ =>
            (SePrepare insert_query
               :: loop.1 ++ [SeLog Error (NoteWriteError t)],
             Ok tt)
        | inr ([], _) => (SePrepare insert_query :: loop.1, Ok tt)
        | inr (batch, executed) =>
            if execute_ok ses executed batch then
              (SePrepare insert_query
                 :: loop.1
                 ++ [SeExecute batch;
                     SeLog Info (NoteInsertedAll t (Z.of_nat (length rows)))],
               Ok tt)
            else
              (SePrepare insert_query
                 :: loop.1
                 ++ [SeExecuteFailed batch; SeLog Error (NoteWriteError t)],
               Ok tt)
        end
  end.

(** The batches the session executed, in order. *)
Definition executed_batches (evs : list SessionEvent)
    : list (list (list Value)) :=
  omap (fun e => match e with SeExecute b => Some b | _ => None end) evs.

(** The error lines of [write_data]. *)
Definition write_errors (evs : list SessionEvent) : list string :=
  omap (fun e => match e with
                 | SeLog Error (NoteWriteError t) => Some t
                 | _ => None
                 end) evs.

(** A session without faults. *)
Definition session_ok (ses : Session) : Prop :=
  (forall q, prepare_ok ses q = true) /\ (forall n, add_ok ses n = true) /\
  (forall k b, execute_ok ses k b = true).

(** ** The table list *)

(** ['tables' == x] for an element [x] of a JSON list. *)
Definition is_tables (x : jsonv) : bool :=
  match x with
  | JStr s => String.eqb s "tables"
  | _ => false
  end.

(** ['tables' in s] for a string [s]: the substring test. *)
Definition has_substring (sub s : string) : bool :=
  match String.index 0 sub s with
  | Some _ => true
  | None => false
  end.

(** [load_tables_from_config] (lines 434-446), given what [tables.json]
    holds ([None]: there is no such file). The result is whatever the file
    gives: the annotation [List[str]] is not checked. *)
Definition load_tables_from_config (file : option FileData)
    : jsonv * list (Level * Note) :=
  let failed := (JArr [], [(Warning, NoteTablesFailed)]) in
  match file with
  | None => (JArr [], [])
  | Some Unreadable => failed
  | Some (Text None) => failed
  | Some (Text (Some config)) =>
      match config with
      | JObj kvs =>
          match dict_get kvs "tables" with
          | Some tables => (tables, [])
          | None => (JArr [], [])
          end
      | JArr l =>
          (* a list that holds the string: [config['tables']] raises *)
          if existsb is_tables l then failed else (config, [])
      | JStr s =>
          if has_substring "tables" s then failed else (JArr [], [])
      | _ => failed   (* ['tables' in config] raises [TypeError] *)
      end
  end.

(** [if not tables]: the truth value of a JSON value. *)
Definition truthy (v : jsonv) : bool :=
  match v with
  | JNull => false
  | JBool b => b
  | JInt z => negb (z =? 0)
  | JFloat q => negb (Qeq_bool q 0)
  | JStr s => negb (String.eqb s "")
  | JArr l => match l with [] => false | _ => true end
  | JObj kvs => match kvs with [] => false | _ => true end
  end.

Definition default_tables : list string :=
  ["logistic_unbundling_details"; "product_details"; "shipment_details";
   "sscat_details"; "supplier_details"; "supplier_sscat_details"].

(** Lines 477-491 of [main]: the tables of the run, from [--tables], from
    [tables.json], or the defaults. *)
Definition main_tables (args_tables : option (list string))
    (file : option FileData) : jsonv :=
  match args_tables with
  | Some (table :: more) => JArr (map JStr (table :: more))
  | _ =>
      let tables := (load_tables_from_config file).1 in
      if truthy tables then tables else JArr (map JStr default_tables)
  end.

(** ** Connections *)

Inductive Side : Type := Source | Target.

(** What constructing a [ScyllaDBService] meets in [_connect]. *)
Inductive ConnectOutcome : Type :=
| Connects
| NoCluster    (* [Cluster(...)] raises *)
| NoSession.   (* [cluster.connect] raises or gives no session *)

Inductive ConnEvent : Type :=
| CeCluster (side : Side)     (* a [Cluster] object was created *)
| CeShutdown (side : Side)    (* [cluster.shutdown()] returned *)
| CeLog (l : Level) (n : Note).

(** [ScyllaDBService(...)]: [__init__] with [_connect] (scylla_service.py,
    lines 9-33); [false] is the constructor raising. *)
Definition ScyllaDBService (side : Side) (keyspace : string)
    (o : ConnectOutcome) : list ConnEvent * bool :=
  match o with
  | Connects => ([CeCluster side; CeLog Info (NoteConnected keyspace)], true)
  | NoCluster => ([CeLog Error NoteConnectError], false)
  | NoSession => ([CeCluster side; CeLog Error NoteConnectError], false)
  end.

(** The attributes [src_service] and [tgt_service], when they are set. *)
Record Services : Type := mkServices {
  src_service : bool;
  tgt_service : bool
}.

(** [initialize_services] (lines 71-94), with the connections tracked. *)
Definition initialize_sessions (src_keyspace tgt_keyspace : string)
    (src tgt : ConnectOutcome) : list ConnEvent * Services * bool :=
  let source := ScyllaDBService Source src_keyspace src in
  if negb source.2 then
    (source.1 ++ [CeLog Error NoteInitError], mkServices false false, false)
  else
    let target := ScyllaDBService Target tgt_keyspace tgt in
    if negb target.2 then
      (source.1 ++ target.1 ++ [CeLog Error NoteInitError],
       mkServices true false, false)
    else
      (source.1 ++ target.1 ++ [CeLog Info NoteInitOk],
       mkServices true true, true).

(** [ScyllaDBService.close] (lines 35-38); [false] is [shutdown] raising. *)
Definition close (side : Side) (shutdown_ok : bool) : list ConnEvent * bool :=
  if shutdown_ok
  then ([CeShutdown side; CeLog Info NoteConnectionClosed], true)
  else ([], false).

(** [cleanup] (lines 399-407): one [try] around both closes. *)
Definition cleanup_sessions (sv : Services) (shutdown_ok : Side -> bool)
    : list ConnEvent :=
  let source :=
    if src_service sv then close Source (shutdown_ok Source) else ([], true) in
  if negb source.2 then source.1 ++ [CeLog Error NoteCleanupError]
  else
    let target :=
      if tgt_service sv then close Target (shutdown_ok Target)
      else ([], true) in
    if negb target.2 then
      source.1 ++ target.1 ++ [CeLog Error NoteCleanupError]
    else source.1 ++ target.1 ++ [CeLog Info NoteClosed].

(** The connections of a run: [initialize_services], then, whatever
    happened, [cleanup]. *)
Definition session_lifecycle (src_keyspace tgt_keyspace : string)
    (src tgt : ConnectOutcome) (shutdown_ok : Side -> bool)
    : list ConnEvent :=
  let init := initialize_sessions src_keyspace tgt_keyspace src tgt in
  init.1.1 ++ cleanup_sessions init.1.2 shutdown_ok.

Definition side_eqb (a b : Side) : bool :=
  match a, b with
  | Source, Source | Target, Target => true
  | _, _ => false
  end.

(** The clusters created for [side]. *)
Definition created (side : Side) (evs : list ConnEvent) : list unit :=
  omap (fun e => match e with
                 | CeCluster s => if side_eqb s side then Some tt else None
                 | _ => None
                 end) evs.

(** The clusters of [side] that were shut down. *)
Definition shut_down (side : Side) (evs : list ConnEvent) : list unit :=
  omap (fun e => match e with
                 | CeShutdown s => if side_eqb s side then Some tt else None
                 | _ => None
                 end) evs.

(** ** The run on what [main] passes *)

(** [run_backfill] is annotated [List[str]], and [main] passes on what
    [tables.json] holds. Here [tables] is [Some l] for a value that iterates
    over the table names [l], and [None] for a value that cannot be
    iterated (a number, a Boolean): [for table_name in tables] then raises
    [TypeError], inside the [try] of lines 361-395. *)
Definition run_backfill_any (env : Env) (v : ValidatorView) (cfg : Config)
    (tables : option (list string)) : M bool :=
  log Info MsgStart ;;;
  result <-
    try_except
      (ok <- initialize_services env ;;
       if negb ok then log Error MsgInitFailed ;;; ret false
       else
         let bsize := default 5000 (cfg_batch_size cfg) in
         log Info (MsgBatchSize bsize) ;;;
         match tables with
         | Some l => table_loop env v cfg bsize 0 l
         | None => raise TypeError
         end ;;;
         log Info MsgCompleted ;;;
         ret true)
      (fun _ => log Error MsgFatal ;;; ret false) ;;
  cleanup env ;;;
  ret result.

(** Whether [for ... in tables] can iterate a JSON value: a list gives its
    elements, a string its characters, an object its keys. *)
Definition iterable (tables : jsonv) : bool :=
  match tables with
  | JArr _ | JStr _ | JObj _ => true
  | _ => false
  end.

(** * Vocabulary of the properties *)

(** ** Runs and traces *)

(** The three components of a run: what it returned or raised, the state it
    left, and the events it produced. *)
Definition result {A} (x : Outcome A * State * list Event) : Outcome A := x.1.1.
Definition final {A} (x : Outcome A * State * list Event) : State := x.1.2.
Definition events {A} (x : Outcome A * State * list Event) : list Event := x.2.

(** The statements the target executed, by their cells. *)
Definition inserted (evs : list Event) : list (list Value) :=
  omap (fun e => match e with EvInsert _ v => Some v | _ => None end) evs.

(** The statements the target refused. *)
Definition failed (evs : list Event) : list (list Value) :=
  omap (fun e => match e with EvInsertFailed _ v => Some v | _ => None end) evs.

(** The checkpoints written. *)
Definition saved (evs : list Event) : list Checkpoint :=
  omap (fun e => match e with EvSave _ c => Some c | _ => None end) evs.

(** The checkpoint files removed. *)
Definition cleared (evs : list Event) : list string :=
  omap (fun e => match e with EvClear f => Some f | _ => None end) evs.

(** The answers to the copier's [COUNT( * )]. *)
Definition counted (evs : list Event) : list Z :=
  omap (fun e => match e with EvSrcCount _ n => Some n | _ => None end) evs.

(** The flushes: one progress line is logged per flush, with the processed
    count after it. *)
Definition flushes (evs : list Event) : list Z :=
  omap (fun e => match e with
                 | EvLog Info (MsgProgress _ p _) => Some p
                 | _ => None
                 end) evs.

(** The completion lines, one per copy that reaches its end, with the
    number of records it reports. *)
Definition copied (evs : list Event) : list Z :=
  omap (fun e => match e with
                 | EvLog Info (MsgCopied _ n) => Some n
                 | _ => None
                 end) evs.

Definition on_path (p p' : Path) : bool :=
  match p, p' with
  | Concurrent, Concurrent | Sequential, Sequential => true
  | _, _ => false
  end.

(** The batches whose application was started on path [p], in order. *)
Definition started (p : Path) (evs : list Event) : list nat :=
  omap (fun e => match e with
                 | EvBatchStart p' i => if on_path p p' then Some i else None
                 | _ => None
                 end) evs.

(** The batches started by the executor, on either path. *)
Definition executor_events (evs : list Event) : list nat :=
  omap (fun e => match e with EvBatchStart _ i => Some i | _ => None end) evs.

(** The failure lines of the executor's completion loop. *)
Definition batch_failures (evs : list Event) : list unit :=
  omap (fun e => match e with
                 | EvLog Error MsgBatchFailed => Some tt
                 | _ => None
                 end) evs.

(** A trace that shows nothing but log lines other than progress and
    completion. *)
Definition quiet (evs : list Event) : Prop :=
  inserted evs = [] /\ failed evs = [] /\ saved evs = [] /\
  cleared evs = [] /\ counted evs = [] /\ flushes evs = [] /\
  copied evs = [] /\ executor_events evs = [].

(** The events of a flush are statements only. *)
Definition statements_only (evs : list Event) : Prop :=
  Forall (fun e => match e with
                   | EvInsert _ _ | EvInsertFailed _ _ => True
                   | _ => False
                   end) evs.

(** A trace in which a refused statement, if there is one, is the last
    event. *)
Definition fails_last (evs : list Event) : Prop :=
  failed evs = [] \/
  exists pre q v, evs = pre ++ [EvInsertFailed q v] /\ failed pre = [].

Fixpoint sum_list (l : list Z) : Z :=
  match l with
  | [] => 0
  | x :: l' => x + sum_list l'
  end.

(** ** Checkpoints *)

(** The record shape: a JSON object whose keys are the five fields. *)
Definition checkpoint_shaped (data : jsonv) : Prop :=
  exists kvs, data = JObj kvs /\ Permutation (map fst kvs) checkpoint_fields.

(** A stored record that [load_checkpoint] cannot turn into a checkpoint. *)
Definition malformed (d : FileData) : Prop :=
  match d with
  | Unreadable => True
  | Text None => True
  | Text (Some data) => ~ checkpoint_shaped data
  end.

(** A stored value that the format specification [,] prints. *)
Definition prints (v : jsonv) : bool :=
  match v with
  | JInt _ | JFloat _ | JBool _ => true
  | _ => false
  end.

(** The report of an earlier checkpoint does not raise: resume is disabled,
    or the stored checkpoint, if one loads, has counts that print. *)
Definition resume_report_ok (cfg : Config) (s : State) (t : string) : Prop :=
  enable_resume cfg = true ->
  forall c, read_checkpoint (files s) t = Ok (Some c) ->
            prints (processed_count c) = true /\ prints (total_count c) = true.

(** A checkpoint of table [t] with the count estimate [total] and a
    processed count between [lo] and [hi]. *)
Definition within (t : string) (total lo hi : Z) (c : Checkpoint) : Prop :=
  exists p, table_name c = JStr t /\ processed_count c = JInt p /\
            total_count c = JInt total /\ lo <= p <= hi.

(** A checkpoint of this copy: it carries the count estimate the source
    gave and a processed count no larger than the number of rows streamed. *)
Definition checkpoint_of_copy (env : Env) (t : string) (c : Checkpoint) : Prop :=
  exists total rows fl,
    src_count env t = Some total /\ src_stream env t = Some (rows, fl) /\
    within t total 0 (Z.of_nat (length rows)) c.

(** The invariant of the checkpoint record. *)
Definition count_bounded (c : Checkpoint) : Prop :=
  exists p total,
    processed_count c = JInt p /\ total_count c = JInt total /\
    0 <= p <= total.

(** A checkpoint written with a 10th batch: batch number [b], a multiple
    of 10 among the first [batches], each batch holding [bsize] rows. *)
Definition tenth_batch (bsize batches : Z) (c : Checkpoint) : Prop :=
  exists b, 0 < b <= batches /\ b mod 10 = 0 /\
            processed_count c = JInt (bsize * b).

(** ** The copier *)

(** A flush touches the target only. *)
Definition target_only (s s' : State) : Prop :=
  stats s' = stats s /\ files s' = files s /\ fs_ops s' = fs_ops s /\
  running s' = running s.

(** What the copier may do to the state before it finishes: statistics and
    the running flag stay, no checkpoint file disappears. *)
Definition copying (s s' : State) : Prop :=
  stats s' = stats s /\ running s' = running s /\
  dom (files s) ⊆ dom (files s').

(** A copy that returns before it streams: nothing changed, nothing written. *)
Definition skipped (s s' : State) (evs : list Event) : Prop :=
  s' = s /\ inserted evs = [] /\ saved evs = [] /\ cleared evs = [] /\
  copied evs = [] /\ flushes evs = [].

(** A copy that reaches its end: the statistics count the table and the
    rows it wrote, and the completion line reports them. *)
Definition completed (t : string) (s s' : State) (evs : list Event) : Prop :=
  let n := Z.of_nat (length (inserted evs)) in
  copied evs = [n] /\
  exists m, stats s' = count_table n (record_metrics t m (stats s)).

(** What a failed copy leaves: the error is counted once, no checkpoint file
    is removed, and the trace ends with the error line. *)
Definition aborted (t : string) (s s' : State) (evs : list Event) : Prop :=
  stats s' = count_error (stats s) /\ copying (set_stats count_error s) s' /\
  cleared evs = [] /\ copied evs = [] /\
  (saved evs <> [] -> checkpoint_file t ∈ dom (files s')) /\
  ~ In 0 (counted evs) /\
  exists body, evs = body ++ [EvLog Error (MsgCopyError t)] /\ fails_last body.

(** The source answers consistently: the cursor yields no more rows than
    the count announced. *)
Definition stream_within_count (env : Env) (t : string) : Prop :=
  forall total rows fl,
    src_count env t = Some total -> src_stream env t = Some (rows, fl) ->
    Z.of_nat (length rows) <= total.

(** The row has every column of the statement. *)
Definition has_columns (columns : list string) (r : Row) : Prop :=
  is_Some (row_values r columns).

(** The cells the copier sends for a row. *)
Definition values_of (columns : list string) (r : Row) : list Value :=
  default [] (row_values r columns).

(** The target executes every statement. *)
Definition target_accepts_all (env : Env) : Prop :=
  forall n q vals, tgt_accepts env n q vals = true.

(** [ceil(n / b)]. *)
Definition ceil_div (n b : Z) : Z := (n + b - 1) / b.

(** Fault-free conditions for the copy of a table whose stream yields
    [rows]: the target executes every statement, the three source queries
    answer, the cursor ends normally, a source that announces no rows or
    gives no usable sample row streams none, every streamed row has the
    sampled columns, and the report of an earlier checkpoint does not
    raise. *)
Definition fault_free (env : Env) (cfg : Config) (s : State) (t : string)
    (rows : list Row) : Prop :=
  target_accepts_all env /\
  src_stream env t = Some (rows, false) /\
  (exists c, src_count env t = Some c /\ (c = 0 -> rows = [])) /\
  (exists o, src_sample env t = Some o /\
             (no_sample o = true -> rows = []) /\
             Forall (has_columns (sampled_columns o)) rows) /\
  resume_report_ok cfg s t.

(** The configuration with [enable_parallel] set to [b]. *)
Definition set_parallel (b : bool) (cfg : Config) : Config :=
  mkConfig (cfg_batch_size cfg) (max_workers cfg) (enable_resume cfg) b.

(** ** The executor *)

(** The rows of the batches [order] names. *)
Definition rows_in (batches : list (list Row)) (order : list nat) : Z :=
  sum_list (map (fun i => Z.of_nat (length (default [] (batches !! i)))) order).

(** All rows of all batches. *)
Definition total_rows (batches : list (list Row)) : Z :=
  sum_list (map (fun b => Z.of_nat (length b)) batches).

(** ** Worked inputs *)

Definition row_a : Row := [("id", VInt 1); ("name", VText "a")].
Definition row_b : Row := [("id", VInt 2); ("name", VText "b")].
Definition row_c : Row := [("id", VInt 3); ("name", VText "c")].

(** A source that announces [count] rows and streams [rows], a target that
    refuses the statements [refused] names (by their position among all
    statements sent), and a file system without faults. Every copy takes one
    second, so the rate is a division by 1, which no rounding changes. *)
Definition world (count : Z) (rows : list Row) (refused : list nat) : Env :=
  mkEnv true true
        (fun _ => Some count)
        (fun _ => Some (head rows))
        (fun _ => Some (rows, false))
        (fun n _ _ => negb (bool_decide (n ∈ refused)))
        (fun _ => WriteOk)
        (fun _ => true)
        (fun _ => "2024-05-01T12:00:00")
        (fun _ => 1%Q)
        (fun _ => Some (0%Q, 0%Q))
        (fun _ => false)
        true true
        Qdiv.

(** The defaults of [load_configuration]. *)
Definition default_config : Config := mkConfig (Some 5000) 4 true true.

(** The service after [__init__]: nothing counted, no checkpoint file. *)
Definition fresh : State := mkState (mkStats 0 0 0 ∅) ∅ 0 0 true.

(** A validator that finds both stores unreachable. *)
Definition blind : ValidatorView :=
  mkView (fun _ => None) (fun _ => None) (fun _ _ => None) (fun _ _ => None).

(** A service whose checkpoint directory holds, for table [t], a record with
    the five fields and a string where the processed count should be. *)
Definition ill_typed : State :=
  mkState (mkStats 0 0 0 ∅)
          {[checkpoint_file "t" :=
              Text (Some (JObj [("table_name", JStr "t");
                                ("processed_count", JStr "twenty");
                                ("total_count", JInt 25);
                                ("timestamp", JStr "2024-05-01T12:00:00");
                                ("batch_size", JInt 2)]))]}
          0 0 true.

(** ** The validator *)

(** What [==] makes of a cell: a Boolean counts as the number 1 or 0, so
    [True] and [1] are the same cell, as are [False] and [0]; apart from
    that two cells are the same when they are the same value. *)
Definition as_number (c : Value) : Value :=
  match c with
  | VBool b => VInt (Z.b2z b)
  | _ => c
  end.

Definition same_cell (a b : Value) : Prop := as_number a = as_number b.

(** Two rows are the same for the validator when they have as many cells
    and the cells are the same, position by position; field names are not
    compared. *)
Definition same_row (a b : Row) : Prop :=
  Forall2 same_cell (map snd a) (map snd b).

(** The two samples agree row by row as far as both reach: rows that only
    one sample has are not looked at. *)
Definition samples_agree (src_s tgt_s : list Row) : Prop :=
  forall i a b, src_s !! i = Some a -> tgt_s !! i = Some b -> same_row a b.

(** ** Properties of every run *)

(** [keeps R m]: however [m] ends, the state it started in, the state it
    leaves and the events it produced are related by [R]. *)
Definition keeps {A} (R : State -> State -> list Event -> Prop) (m : M A)
    : Prop :=
  forall s r s' evs, m s = (r, s', evs) -> R s s' evs.

(** A relation that holds of doing nothing and of doing one thing after
    another. *)
Class Chained (R : State -> State -> list Event -> Prop) : Prop := {
  chain_nil : forall s, R s s [];
  chain_app : forall s1 s2 s3 e1 e2,
    R s1 s2 e1 -> R s2 s3 e2 -> R s1 s3 (e1 ++ e2)
}.

(** Events and log lines of the checkpoint store. *)
Definition store_event (e : Event) : bool :=
  match e with
  | EvSave _ _ | EvSaveFailed _ | EvClear _ => true
  | EvLog _ m =>
      match m with
      | MsgResumeFound _ | MsgResumeProgress _ _ | MsgResumeTime _
      | MsgCheckpointSaved _ _ _ | MsgSaveFailed | MsgLoadFailed
      | MsgCheckpointCleared _ | MsgClearFailed => true
      | _ => false
      end
  | _ => false
  end.

(** The checkpoint directory is as it was, no write or removal was tried,
    and nothing about checkpoints was logged. *)
Definition store_untouched (s s' : State) (evs : list Event) : Prop :=
  files s' = files s /\ fs_ops s' = fs_ops s /\
  Forall (fun e => store_event e = false) evs.

(** The configuration with [enable_resume] set to [b]. *)
Definition set_resume (b : bool) (cfg : Config) : Config :=
  mkConfig (cfg_batch_size cfg) (max_workers cfg) b (enable_parallel cfg).

(** ** Lines of the run *)

(** The tables whose copy was started, in order: each copy logs its table
    once, before anything else. *)
Definition attempted (evs : list Event) : list string :=
  omap (fun e => match e with
                 | EvLog Info (MsgProcessing t) => Some t
                 | _ => None
                 end) evs.

(** The tables whose copy ended in the error handler. *)
Definition copy_errors (evs : list Event) : list string :=
  omap (fun e => match e with
                 | EvLog Error (MsgCopyError t) => Some t
                 | _ => None
                 end) evs.

(** No copy is started, completed or failed. *)
Definition no_copy_lines (s s' : State) (evs : list Event) : Prop :=
  attempted evs = [] /\ copy_errors evs = [] /\ copied evs = [].

(** Inside a copy: no other copy is started and none fails. *)
Definition inside_copy (s s' : State) (evs : list Event) : Prop :=
  attempted evs = [] /\ copy_errors evs = [].

(** No signal is delivered during the run. *)
Definition undisturbed (env : Env) : Prop :=
  forall k, signal_before env k = false.

(** ** Lines of the executor *)

(** The batches whose completion the executor logged, in the order of the
    lines. *)
Definition completions (evs : list Event) : list nat :=
  omap (fun e => match e with
                 | EvLog Debug (MsgBatchCompleted (S i) _ _) => Some i
                 | _ => None
                 end) evs.

(** ** Two runs side by side *)

(** Two service states that differ at most in the checkpoint directory. *)
Definition same_but_files (s1 s2 : State) : Prop :=
  stats s1 = stats s2 /\ tgt_attempts s1 = tgt_attempts s2 /\
  fs_ops s1 = fs_ops s2 /\ running s1 = running s2.

(** Two service states that differ at most in the checkpoint directory and
    in the number of file operations. *)
Definition same_service (s1 s2 : State) : Prop :=
  stats s1 = stats s2 /\ tgt_attempts s1 = tgt_attempts s2 /\
  running s1 = running s2.

(** Two traces that show the same work: the same statements executed and
    refused, the same checkpoints written, the same counts, flushes and
    completions. *)
Definition same_work (e1 e2 : list Event) : Prop :=
  inserted e1 = inserted e2 /\ failed e1 = failed e2 /\
  saved e1 = saved e2 /\ counted e1 = counted e2 /\
  flushes e1 = flushes e2 /\ copied e1 = copied e2.

(** [m] does the same from any two states related by [Pre], and leaves
    states related by [Post]. *)
Definition alike {A} (Pre Post : State -> State -> Prop) (m : M A) : Prop :=
  forall s1 s2, Pre s1 s2 ->
    (m s1).1.1 = (m s2).1.1 /\ same_work (m s1).2 (m s2).2 /\
    Post (m s1).1.2 (m s2).1.2.

(** The service state with the checkpoint directory replaced. *)
Definition with_files (fs : gmap string FileData) (s : State) : State :=
  set_files (fun _ => fs) s.

(** ** Further worked inputs *)

(** A validator that obtains the counts [a] and [b] and no sample. *)
Definition counts_only (a b : Z) : ValidatorView :=
  mkView (fun _ => Some a) (fun _ => Some b) (fun _ _ => None)
         (fun _ _ => None).

(** A validator that obtains equal counts and the two samples given. *)
Definition sampling (n : Z) (src_s tgt_s : list Row) : ValidatorView :=
  mkView (fun _ => Some n) (fun _ => Some n) (fun _ _ => Some src_s)
         (fun _ _ => Some tgt_s).

(** The environment [env] with a termination signal delivered before the
    [i]-th check of the running flag, and at no other time. *)
Definition interrupted (i : nat) (env : Env) : Env :=
  mkEnv (connect_src env) (connect_tgt env) (src_count env) (src_sample env)
        (src_stream env) (tgt_accepts env) (fs_write env) (fs_remove_ok env)
        (clock env) (elapsed env) (psutil_sample env)
        (fun k => Nat.eqb k i)
        (close_src_ok env) (close_tgt_ok env) (float_div env).

(** A service whose checkpoint directory holds the checkpoint of an earlier,
    interrupted copy of table [t]: 20 of 25 records. *)
Definition stored : State :=
  final (save_checkpoint (world 25 [] []) "t" 20 25 2 fresh).

(** A configuration whose [max_workers] makes the pool constructor raise. *)
Definition no_pool : Config := mkConfig (Some 5000) 0 true true.

(** A session that accepts everything. *)
Definition willing : Session :=
  mkSession (fun _ => true) (fun _ => true) (fun _ _ => true).

(** ** The checkpoint directory *)

(** A table name that is a plain file name: it holds no path separator, so
    its checkpoint is the file of that name directly under the checkpoint
    directory, and two such names are two files of a directory that keeps
    different names apart. *)
Definition plain (t : string) : bool := negb (has_substring "/" t).

(** * Properties *)

(** ** Traces *)

Lemma inserted_app a b : inserted (a ++ b) = inserted a ++ inserted b.
Proof. apply omap_app. Qed.
Lemma failed_app a b : failed (a ++ b) = failed a ++ failed b.
Proof. apply omap_app. Qed.
Lemma saved_app a b : saved (a ++ b) = saved a ++ saved b.
Proof. apply omap_app. Qed.
Lemma cleared_app a b : cleared (a ++ b) = cleared a ++ cleared b.
Proof. apply omap_app. Qed.
Lemma counted_app a b : counted (a ++ b) = counted a ++ counted b.
Proof. apply omap_app. Qed.
Lemma flushes_app a b : flushes (a ++ b) = flushes a ++ flushes b.
Proof. apply omap_app. Qed.
Lemma copied_app a b : copied (a ++ b) = copied a ++ copied b.
Proof. apply omap_app. Qed.
Lemma started_app p a b : started p (a ++ b) = started p a ++ started p b.
Proof. apply omap_app. Qed.
Lemma executor_events_app a b :
  executor_events (a ++ b) = executor_events a ++ executor_events b.
Proof. apply omap_app. Qed.

Lemma inserted_cons e l :
  inserted (e :: l)
  = match e with EvInsert _ v => [v] | _ => [] end ++ inserted l.
Proof. destruct e; reflexivity. Qed.
Lemma failed_cons e l :
  failed (e :: l)
  = match e with EvInsertFailed _ v => [v] | _ => [] end ++ failed l.
Proof. destruct e; reflexivity. Qed.
Lemma saved_cons e l :
  saved (e :: l) = match e with EvSave _ c => [c] | _ => [] end ++ saved l.
Proof. destruct e; reflexivity. Qed.
Lemma cleared_cons e l :
  cleared (e :: l) = match e with EvClear f => [f] | _ => [] end ++ cleared l.
Proof. destruct e; reflexivity. Qed.
Lemma counted_cons e l :
  counted (e :: l)
  = match e with EvSrcCount _ n => [n] | _ => [] end ++ counted l.
Proof. destruct e; reflexivity. Qed.
Lemma flushes_cons e l :
  flushes (e :: l)
  = match e with EvLog Info (MsgProgress _ p _) => [p] | _ => [] end
    ++ flushes l.
Proof. destruct e as [| | | | | | |[] []]; reflexivity. Qed.
Lemma copied_cons e l :
  copied (e :: l)
  = match e with EvLog Info (MsgCopied _ n) => [n] | _ => [] end ++ copied l.
Proof. destruct e as [| | | | | | |[] []]; reflexivity. Qed.
Lemma started_cons p e l :
  started p (e :: l)
  = match e with
    | EvBatchStart p' i => if on_path p p' then [i] else []
    | _ => []
    end ++ started p l.
Proof.
  destruct e as [| | | | | |p' i|]; try reflexivity.
  unfold started. simpl. destruct (on_path p p'); reflexivity.
Qed.
Lemma executor_events_cons e l :
  executor_events (e :: l)
  = match e with EvBatchStart _ i => [i] | _ => [] end ++ executor_events l.
Proof. destruct e; reflexivity. Qed.

Create Rewrite HintDb trace.
#[local] Hint Rewrite inserted_cons failed_cons saved_cons cleared_cons
  counted_cons flushes_cons copied_cons started_cons executor_events_cons
  : trace.
#[local] Hint Rewrite inserted_app failed_app saved_app cleared_app
  counted_app flushes_app copied_app started_app executor_events_app : trace.

(** ** Inversion of the monad's operations *)

Lemma bind_inv {A B} (m : M A) (k : A -> M B) s r s' evs :
  bind m k s = (r, s', evs) ->
  (exists a s1 e1 e2,
      m s = (Ok a, s1, e1) /\ k a s1 = (r, s', e2) /\ evs = e1 ++ e2)
  \/ (exists e, m s = (Raise e, s', evs) /\ r = Raise e).
Proof.
  unfold bind. destruct (m s) as [[[a|e] s1] e1].
  - destruct (k a s1) as [[r2 s2] e2] eqn:Hk. intros [= <- <- <-].
    left. exists a, s1, e1, e2. auto.
  - intros [= <- <- <-]. right. eauto.
Qed.

Lemma try_except_inv {A} (m : M A) (h : Exn -> M A) s r s' evs :
  try_except m h s = (r, s', evs) ->
  (exists a, m s = (Ok a, s', evs) /\ r = Ok a)
  \/ (exists e s1 e1 e2,
        m s = (Raise e, s1, e1) /\ h e s1 = (r, s', e2) /\ evs = e1 ++ e2).
Proof.
  unfold try_except. destruct (m s) as [[[a|e] s1] e1].
  - intros [= <- <- <-]. left. eauto.
  - destruct (h e s1) as [[r2 s2] e2] eqn:Hh. intros [= <- <- <-].
    right. exists e, s1, e1, e2. auto.
Qed.

Lemma answer_inv {A} (e : Exn) (o : option A) s r s' evs :
  answer e o s = (r, s', evs) ->
  s' = s /\ evs = [] /\
  ((exists a, o = Some a /\ r = Ok a) \/ (o = None /\ r = Raise e)).
Proof.
  destruct o as [a|]; intros [= <- <- <-]; repeat split; eauto.
Qed.

Lemma when_inv (b : bool) (m : M unit) s r s' evs :
  when b m s = (r, s', evs) ->
  (b = true /\ m s = (r, s', evs))
  \/ (b = false /\ r = Ok tt /\ s' = s /\ evs = []).
Proof.
  destruct b; simpl; [auto|]. intros [= <- <- <-]. auto.
Qed.

Lemma triple_inv {A B C} (a a' : A) (b b' : B) (c c' : C) :
  (a, b, c) = (a', b', c') -> a = a' /\ b = b' /\ c = c'.
Proof. intros [= -> -> ->]. auto. Qed.

(** Uses an equation by replacing the variable on its right, or else the one
    on its left. *)
Ltac subst_eq H :=
  match type of H with
  | ?x = ?y => first [ is_var y; subst y | is_var x; subst x | idtac ]
  end.

(** Uses an equation between outcomes: it closes the goal when the two
    sides are different outcomes. *)
Ltac use_result Hr :=
  first [ discriminate Hr
        | match type of Hr with
          | ?x = ?y => first [ is_var x; subst x | is_var y; subst y ]
          end
        | injection Hr as Hr; subst_eq Hr
        | idtac ].

(** Splits the hypothesis [H : bind m k s = _] into the run of [m] and, when
    [m] returns, the run of [k]. *)
Ltac inv_bind H :=
  let a := fresh "a" in
  let s1 := fresh "s" in
  let e1 := fresh "ev" in
  let e2 := fresh "ev" in
  let H1 := fresh "Hm" in
  let x := fresh "exn" in
  let He := fresh "He" in
  let Hr := fresh "Hr" in
  apply bind_inv in H as
      [(a & s1 & e1 & e2 & H1 & H & He) | (x & H & Hr)];
  [ subst_eq He | use_result Hr ].

Ltac inv_try H :=
  let a := fresh "a" in
  let s1 := fresh "s" in
  let e1 := fresh "ev" in
  let e2 := fresh "ev" in
  let H1 := fresh "Hm" in
  let x := fresh "exn" in
  let He := fresh "He" in
  let Hr := fresh "Hr" in
  apply try_except_inv in H as
      [(a & H & Hr) | (x & s1 & e1 & e2 & H1 & H & He)];
  [ use_result Hr | subst_eq He ].

Tactic Notation "inv_bind_as" hyp(H) "as"
    simple_intropattern(a) ident(s1) ident(e1) ident(e2) ident(Hm) :=
  let x := fresh "exn" in
  let He := fresh "He" in
  let Hr := fresh "Hr" in
  apply bind_inv in H as
      [(a & s1 & e1 & e2 & Hm & H & He) | (x & H & Hr)];
  [ subst_eq He | use_result Hr ].

(** Primitive steps compute. *)
Ltac inv_prim H :=
  let Hr := fresh "Hr" in
  let Hs := fresh "Hs" in
  let He := fresh "He" in
  unfold log, emit, modify, ret, raise, get in H; simpl in H;
  apply triple_inv in H as (Hr & Hs & He);
  first [ discriminate Hr
        | use_result Hr; subst_eq Hs; subst_eq He ].

(** A primitive step that cannot raise, followed by the rest. *)
Ltac step_prim H :=
  let a := fresh "a" in
  let s1 := fresh "s" in
  let e1 := fresh "ev" in
  let e2 := fresh "ev" in
  let H1 := fresh "Hm" in
  let x := fresh "exn" in
  let He := fresh "He" in
  let Hr := fresh "Hr" in
  apply bind_inv in H as
      [(a & s1 & e1 & e2 & H1 & H & He) | (x & H & Hr)];
  [ subst_eq He; inv_prim H1 | try use_result Hr; inv_prim H ].

(** ** Checkpoint store *)

Lemma dict_get_In kvs k v : dict_get kvs k = Some v -> In k (map fst kvs).
Proof.
  induction kvs as [|[k' v'] kvs IH]; simpl; [discriminate|].
  destruct (String.eqb_spec k' k); [auto|]. intros H. right. auto.
Qed.

Lemma Checkpoint_of_shaped data c :
  Checkpoint_of data = Ok c -> checkpoint_shaped data.
Proof.
  destruct data as [| | | | | |kvs]; try discriminate. simpl.
  destruct (dict_get kvs "table_name") eqn:H1; [|discriminate].
  destruct (dict_get kvs "processed_count") eqn:H2; [|discriminate].
  destruct (dict_get kvs "total_count") eqn:H3; [|discriminate].
  destruct (dict_get kvs "timestamp") eqn:H4; [|discriminate].
  destruct (dict_get kvs "batch_size") eqn:H5; [|discriminate].
  destruct (Nat.eqb_spec (length kvs) 5) as [Hlen|]; [|discriminate].
  intros _. exists kvs. split; [reflexivity|].
  symmetry. apply NoDup_Permutation_bis.
  - unfold checkpoint_fields.
    repeat constructor; simpl; intuition discriminate.
  - rewrite length_map, Hlen. reflexivity.
  - intros k Hk. unfold checkpoint_fields in Hk. simpl in Hk.
    destruct Hk as [<-|[<-|[<-|[<-|[<-|[]]]]]];
      eauto using dict_get_In.
Qed.

Lemma Checkpoint_of_dict c : Checkpoint_of (checkpoint_dict c) = Ok c.
Proof. destruct c. reflexivity. Qed.

Lemma read_checkpoint_malformed fs t d :
  fs !! checkpoint_file t = Some d -> malformed d ->
  exists e, read_checkpoint fs t = Raise e.
Proof.
  intros Hd Hm. unfold read_checkpoint. rewrite Hd.
  destruct d as [|[data|]]; eauto.
  destruct (Checkpoint_of data) as [c|e] eqn:Hc; eauto.
  exfalso. apply Hm. eauto using Checkpoint_of_shaped.
Qed.

(** [load_checkpoint] never raises and never changes the state. *)
Lemma load_checkpoint_run t s :
  load_checkpoint t s =
    match read_checkpoint (files s) t with
    | Ok o => (Ok o, s, [])
    | Raise _ => (Ok None, s, [EvLog Warning MsgLoadFailed])
    end.
Proof.
  unfold load_checkpoint, try_except, bind, get; simpl.
  destruct (read_checkpoint (files s) t) as [[c|]|e]; reflexivity.
Qed.

(** [load_checkpoint] returns [None] without raising, both when the table
    has no checkpoint file and when the file is unreadable, is not JSON, or
    holds a value that is not an object with exactly the five checkpoint
    fields; in every case it returns (it never raises) and leaves the
    service state as it was. *)
Theorem load_checkpoint_none_on_absent_or_malformed (t : string) (s : State) :
  let out := load_checkpoint t s in
  (exists o, result out = Ok o) /\ final out = s /\
  (files s !! checkpoint_file t = None ->
     result out = Ok None /\ events out = []) /\
  (forall d, files s !! checkpoint_file t = Some d -> malformed d ->
     result out = Ok None /\ events out = [EvLog Warning MsgLoadFailed]).
Proof.
  cbv zeta. rewrite load_checkpoint_run. unfold result, final, events.
  split; [|split; [|split]].
  - destruct (read_checkpoint (files s) t); simpl; eauto.
  - destruct (read_checkpoint (files s) t); reflexivity.
  - intros Hnone. unfold read_checkpoint. rewrite Hnone. split; reflexivity.
  - intros d Hd Hm.
    destruct (read_checkpoint_malformed _ _ _ Hd Hm) as [e ->].
    split; reflexivity.
Qed.

Lemma In_dict_get kvs k :
  In k (map fst kvs) -> exists v, dict_get kvs k = Some v.
Proof.
  induction kvs as [|[k' v'] kvs IH]; simpl; [tauto|].
  intros [->|Hin].
  - rewrite String.eqb_refl. eauto.
  - destruct (String.eqb k' k); eauto.
Qed.

(** A record with the five field names is accepted by the constructor, with
    the stored value of every field. *)
Lemma Checkpoint_of_five_fields kvs :
  Permutation (map fst kvs) checkpoint_fields ->
  exists a b c d e,
    dict_get kvs "table_name" = Some a /\
    dict_get kvs "processed_count" = Some b /\
    dict_get kvs "total_count" = Some c /\
    dict_get kvs "timestamp" = Some d /\
    dict_get kvs "batch_size" = Some e /\
    Checkpoint_of (JObj kvs) = Ok (mkCheckpoint a b c d e).
Proof.
  intros Hp.
  assert (Hlen : length kvs = 5%nat)
    by (apply Permutation_length in Hp; rewrite length_map in Hp; exact Hp).
  assert (Hin : forall k, In k checkpoint_fields ->
                          exists v, dict_get kvs k = Some v).
  { intros k Hk. apply In_dict_get.
    eapply Permutation_in; [symmetry; exact Hp|exact Hk]. }
  destruct (Hin "table_name") as [a Ha]; [simpl; tauto|].
  destruct (Hin "processed_count") as [b Hb]; [simpl; tauto|].
  destruct (Hin "total_count") as [c Hc]; [simpl; tauto|].
  destruct (Hin "timestamp") as [d Hd]; [simpl; tauto|].
  destruct (Hin "batch_size") as [e He]; [simpl; tauto|].
  exists a, b, c, d, e. unfold Checkpoint_of.
  rewrite Ha, Hb, Hc, Hd, He, Hlen. simpl. auto 10.
Qed.

(** The report of the earlier progress raises on a count that does not
    print, before anything but the log has been touched. *)
Lemma report_resume_raises cfg t s ck :
  enable_resume cfg = true ->
  load_checkpoint t s = (Ok (Some ck), s, []) ->
  prints (processed_count ck) && prints (total_count ck) = false ->
  exists e,
    report_resume cfg t s = (Raise e, s, [EvLog Info (MsgResumeFound t)]).
Proof.
  intros Hres Hload Hpr. unfold report_resume. rewrite Hres.
  unfold bind at 1. rewrite Hload.
  destruct (processed_count ck), (total_count ck); simpl in Hpr;
    try discriminate; eexists; reflexivity.
Qed.

(** A copy whose report of the earlier progress raises stops there. *)
Lemma copy_body_stops_at_report env cfg t bsize s e evs :
  report_resume cfg t s = (Raise e, s, evs) ->
  copy_body env cfg t bsize s
  = (Raise e, s, EvLog Info (MsgProcessing t) :: evs).
Proof.
  intros H. unfold copy_body. unfold bind at 1.
  unfold log at 1. unfold emit at 1. cbv beta iota.
  unfold bind at 1. rewrite H. reflexivity.
Qed.

(** C7. The values of a stored record are not checked. A JSON object stored
    for table [t] under the five field names loads as a checkpoint that
    carries the stored values as they are, whatever they are, and without a
    warning: [Checkpoint( **data)] accepts any value for a field annotated
    [int] or [str], so [load_checkpoint] does not return [None] for a record
    whose fields do not have the types of the record. With resume enabled, a
    stored count that the report of the earlier progress cannot format then
    raises inside the copy: the copy of the table returns [False] and counts
    an error before the source is asked for anything. *)
Theorem ill_typed_checkpoint_is_loaded t s data :
  files s !! checkpoint_file t = Some (Text (Some data)) ->
  checkpoint_shaped data ->
  exists kvs ck,
    data = JObj kvs /\
    load_checkpoint t s = (Ok (Some ck), s, []) /\
    dict_get kvs "table_name" = Some (table_name ck) /\
    dict_get kvs "processed_count" = Some (processed_count ck) /\
    dict_get kvs "total_count" = Some (total_count ck) /\
    dict_get kvs "timestamp" = Some (timestamp ck) /\
    dict_get kvs "batch_size" = Some (batch_size ck) /\
    (forall env cfg bsize,
       enable_resume cfg = true ->
       prints (processed_count ck) && prints (total_count ck) = false ->
       let out := copy_table_data env cfg t bsize s in
       result out = Ok false /\
       errors (stats (final out)) = errors (stats s) + 1 /\
       counted (events out) = [] /\ inserted (events out) = []).
Proof.
  intros Hfile (kvs & -> & Hp).
  destruct (Checkpoint_of_five_fields kvs Hp)
    as (a & b & c & d & e & Ha & Hb & Hc & Hd & He & Hck).
  assert (Hload : load_checkpoint t s
                  = (Ok (Some (mkCheckpoint a b c d e)), s, [])).
  { rewrite load_checkpoint_run. unfold read_checkpoint.
    rewrite Hfile, Hck. reflexivity. }
  exists kvs, (mkCheckpoint a b c d e).
  repeat (split; [first [reflexivity | assumption]|]).
  intros env cfg bsize Hres Hpr. cbv zeta.
  destruct (report_resume_raises cfg t s _ Hres Hload Hpr) as [exn Hrep].
  unfold copy_table_data, try_except.
  rewrite (copy_body_stops_at_report env cfg t bsize s exn _ Hrep).
  unfold result, final, events. simpl. auto.
Qed.

(** ** Target writes *)

Lemma tgt_execute_inv env q vals s r s' evs :
  tgt_execute env q vals s = (r, s', evs) ->
  s' = tick_tgt s /\
  ((tgt_accepts env (tgt_attempts s) q vals = true /\ r = Ok tt /\
    evs = [EvInsert q vals])
   \/ (tgt_accepts env (tgt_attempts s) q vals = false /\
       r = Raise DriverError /\ evs = [EvInsertFailed q vals])).
Proof.
  unfold tgt_execute.
  destruct (tgt_accepts env (tgt_attempts s) q vals);
    intros [= <- <- <-]; auto.
Qed.

Lemma fails_last_app e1 e2 :
  failed e1 = [] -> fails_last e2 -> fails_last (e1 ++ e2).
Proof.
  intros H1 [H2|(pre & q & v & -> & Hpre)].
  - left. rewrite failed_app, H1, H2. reflexivity.
  - right. exists (e1 ++ pre), q, v. split.
    + rewrite app_assoc. reflexivity.
    + rewrite failed_app, H1, Hpre. reflexivity.
Qed.

Lemma failed_In q v evs : In (EvInsertFailed q v) evs -> failed evs <> [].
Proof.
  induction evs as [|e evs IH]; simpl; [tauto|].
  intros [->|H]; [discriminate|].
  unfold failed in *. simpl. destruct e; simpl; auto; discriminate.
Qed.

Lemma fails_last_In q v evs :
  fails_last evs -> In (EvInsertFailed q v) evs ->
  exists pre, evs = pre ++ [EvInsertFailed q v] /\ failed pre = [].
Proof.
  intros [H|(pre & q' & v' & -> & Hpre)] Hin.
  - exfalso. eapply failed_In; eauto.
  - apply in_app_iff in Hin as [Hin|[[= -> ->]|[]]]; [|eauto].
    exfalso. eapply failed_In; eauto.
Qed.

Lemma target_only_refl s : target_only s s.
Proof. repeat split. Qed.

Lemma target_only_trans s1 s2 s3 :
  target_only s1 s2 -> target_only s2 s3 -> target_only s1 s3.
Proof. unfold target_only. intuition congruence. Qed.

Lemma target_only_tick s : target_only s (tick_tgt s).
Proof. repeat split. Qed.

Lemma statements_only_quiet evs :
  statements_only evs ->
  saved evs = [] /\ cleared evs = [] /\ counted evs = [] /\
  flushes evs = [] /\ copied evs = [] /\ executor_events evs = [].
Proof.
  induction 1 as [|e evs He _ IH]; [repeat split|].
  destruct e; try contradiction; exact IH.
Qed.

(** A flush sends statements and nothing else; when it returns every row was
    executed, when it raises the refused statement, if any, is the last
    event. *)
Lemma insert_rows_spec env columns q batch :
  forall s r s' evs,
  insert_rows env columns q batch s = (r, s', evs) ->
  target_only s s' /\ statements_only evs /\
  match r with
  | Ok _ => failed evs = [] /\ length (inserted evs) = length batch
  | Raise _ => fails_last evs
  end.
Proof.
  induction batch as [|row rest IH]; simpl; intros s r s' evs H.
  - inv_prim H. split; [apply target_only_refl|]. split; [constructor|auto].
  - inv_bind H.
    + apply answer_inv in Hm as (-> & -> & [(vals & Hv & [= ->])|[_ [=]]]).
      inv_bind H.
      * apply tgt_execute_inv in Hm as (-> & [(_ & _ & ->)|(_ & [=] & _)]).
        apply IH in H as (Hs & Hev & Hr). split; [|split].
        -- eapply target_only_trans; [apply target_only_tick|exact Hs].
        -- simpl. constructor; [exact I|exact Hev].
        -- destruct r; simpl.
           ++ destruct Hr as [Hf Hl]. split; [exact Hf|].
              unfold inserted in *. simpl. rewrite Hl. reflexivity.
           ++ apply (fails_last_app [EvInsert q vals]); [reflexivity|exact Hr].
      * apply tgt_execute_inv in H as (-> & [(_ & [=] & _)|(_ & _ & ->)]).
        split; [apply target_only_tick|]. split.
        -- repeat constructor.
        -- right. exists [], q, vals. auto.
    + apply answer_inv in H as (-> & -> & [(vals & _ & [=])|[_ _]]).
      split; [apply target_only_refl|]. split; [constructor|].
      left. reflexivity.
Qed.

(** ** The copier's loop *)

Lemma copying_refl s : copying s s.
Proof. repeat split; set_solver. Qed.

Lemma copying_trans s1 s2 s3 : copying s1 s2 -> copying s2 s3 -> copying s1 s3.
Proof.
  intros (? & ? & ?) (? & ? & ?). repeat split; [congruence..|set_solver].
Qed.

Lemma target_only_copying s s' : target_only s s' -> copying s s'.
Proof. intros (? & Hf & _ & ?). repeat split; auto. rewrite Hf. set_solver. Qed.

Lemma within_weaken t total lo hi lo' hi' c :
  lo' <= lo -> hi <= hi' -> within t total lo hi c -> within t total lo' hi' c.
Proof. intros ? ? (p & ? & ? & ? & ?). exists p. repeat split; auto; lia. Qed.

Lemma save_checkpoint_spec env t p total b s r s' evs :
  save_checkpoint env t p total b s = (r, s', evs) ->
  r = Ok tt /\ copying s s' /\
  inserted evs = [] /\ failed evs = [] /\ cleared evs = [] /\
  counted evs = [] /\ flushes evs = [] /\ copied evs = [] /\
  executor_events evs = [] /\
  Forall (within t total p p) (saved evs) /\
  (saved evs <> [] -> checkpoint_file t ∈ dom (files s')).
Proof.
  unfold save_checkpoint.
  destruct (fs_write env (fs_ops s)); intros [= <- <- <-];
    (split; [reflexivity|]); (split; [repeat split; simpl; set_solver|]);
    repeat (split; [reflexivity|]); simpl.
  - split.
    + repeat constructor. exists p. repeat split; lia.
    + intros _. simpl. set_solver.
  - split; [constructor|congruence].
  - split; [constructor|congruence].
Qed.

Lemma when_save_spec (c : bool) env t p total b s r s' evs :
  when c (save_checkpoint env t p total b) s = (r, s', evs) ->
  r = Ok tt /\ copying s s' /\
  inserted evs = [] /\ failed evs = [] /\ cleared evs = [] /\
  counted evs = [] /\ flushes evs = [] /\ copied evs = [] /\
  executor_events evs = [] /\
  Forall (within t total p p) (saved evs) /\
  (saved evs <> [] -> checkpoint_file t ∈ dom (files s')).
Proof.
  intros H. apply when_inv in H as [[_ H]|(_ & -> & -> & ->)].
  - eapply save_checkpoint_spec; eauto.
  - split; [reflexivity|]. split; [apply copying_refl|].
    repeat (split; [reflexivity|]). simpl. split; [constructor|congruence].
Qed.

Lemma dom_kept (s s' : State) f :
  copying s s' -> f ∈ dom (files s) -> f ∈ dom (files s').
Proof. intros (_ & _ & H). set_solver. Qed.

(** The loop, whatever the environment does: it keeps the statistics and
    the checkpoint files, removes and counts nothing, every checkpoint it
    writes has a processed count between the count at entry and the rows
    seen, and at exit every row seen is either flushed or in the current
    batch. *)
Lemma stream_batches_spec env cfg t bsize total columns q all_rows :
  forall current_batch processed batch_num s r s' evs,
  stream_batches env cfg t bsize total columns q all_rows current_batch
                 processed batch_num s = (r, s', evs) ->
  copying s s' /\
  cleared evs = [] /\ counted evs = [] /\ copied evs = [] /\
  executor_events evs = [] /\
  Forall (within t total processed
            (processed + Z.of_nat (length current_batch)
                       + Z.of_nat (length all_rows))) (saved evs) /\
  (saved evs <> [] -> checkpoint_file t ∈ dom (files s')) /\
  match r with
  | Ok (current_batch', processed', _) =>
      failed evs = [] /\
      processed' + Z.of_nat (length current_batch')
        = processed + Z.of_nat (length current_batch)
                    + Z.of_nat (length all_rows) /\
      Z.of_nat (length (inserted evs)) = processed' - processed
  | Raise _ => fails_last evs
  end.
Proof.
  induction all_rows as [|row rest IH]; simpl;
    intros cb pc bn s r s' evs H.
  - inv_prim H. split; [apply copying_refl|].
    repeat (split; [reflexivity|]). simpl. split; [constructor|].
    split; [congruence|]. repeat split; lia.
  - assert (Hlen : Z.of_nat (length (cb ++ [row])) = Z.of_nat (length cb) + 1)
      by (rewrite length_app; simpl; lia).
    destruct (bsize <=? Z.of_nat (length (cb ++ [row]))).
    + inv_bind H.
      * apply insert_rows_spec in Hm as (Hs1 & Hq1 & Hf1 & Hl1).
        apply statements_only_quiet in Hq1 as (Q1 & Q2 & Q3 & Q4 & Q5 & Q6).
        apply target_only_copying in Hs1.
        inv_bind H.
        -- apply when_save_spec in Hm
             as (_ & Hs2 & S1 & S2 & S3 & S4 & S5 & S6 & S7 & S8 & S9).
           step_prim H.
           apply IH in H as (Hs3 & R1 & R2 & R3 & R4 & R5 & R6 & Hr).
           split; [eauto using copying_trans|].
           autorewrite with trace. simpl.
           rewrite Q1, Q2, Q3, Q5, Q6, S3, S4, S6, S7, R1, R2, R3, R4.
           simpl. repeat (split; [reflexivity|]). split; [|split].
           ++ apply Forall_app. split.
              ** eapply Forall_impl; [exact S8|]. intros c.
                 apply within_weaken; lia.
              ** eapply Forall_impl; [exact R5|]. intros c.
                 apply within_weaken; simpl; lia.
           ++ intros Hne. destruct (saved ev3) eqn:E2.
              ** destruct (saved ev1) eqn:E1; [simpl in Hne; congruence|].
                 eapply dom_kept; [exact Hs3|]. apply S9. congruence.
              ** apply R6. congruence.
           ++ destruct r as [[[cb' pc'] bn']|e].
              ** destruct Hr as (F & E & L). rewrite Hf1, S2, F.
                 split; [reflexivity|]. split; [simpl in E; lia|].
                 rewrite S1. simpl. rewrite length_app. lia.
              ** apply fails_last_app; [exact Hf1|].
                 apply fails_last_app; [exact S2|].
                 apply (fails_last_app [_]); [reflexivity|exact Hr].
        -- apply when_save_spec in H as ([=] & _).
      * apply insert_rows_spec in H as (Hs1 & Hq1 & Hr).
        apply statements_only_quiet in Hq1 as (Q1 & Q2 & Q3 & Q4 & Q5 & Q6).
        split; [auto using target_only_copying|].
        rewrite Q1, Q2, Q3, Q5, Q6.
        repeat (split; [reflexivity|]). split; [constructor|].
        split; [congruence|exact Hr].
    + apply IH in H as (Hs3 & R1 & R2 & R3 & R4 & R5 & R6 & Hr).
      split; [exact Hs3|]. repeat (split; [assumption|]). split; [|split].
      * eapply Forall_impl; [exact R5|]. intros c. apply within_weaken; lia.
      * exact R6.
      * destruct r as [[[cb' pc'] bn']|e]; [|exact Hr].
        destruct Hr as (F & E & L). repeat split; [exact F|lia|exact L].
Qed.

(** The same for the trailing batch. *)
Lemma flush_remaining_spec env cfg t bsize total columns q
    current_batch processed batch_num s r s' evs :
  flush_remaining env cfg t bsize total columns q current_batch
                  processed batch_num s = (r, s', evs) ->
  copying s s' /\
  cleared evs = [] /\ counted evs = [] /\ copied evs = [] /\
  executor_events evs = [] /\
  Forall (within t total processed
            (processed + Z.of_nat (length current_batch))) (saved evs) /\
  (saved evs <> [] -> checkpoint_file t ∈ dom (files s')) /\
  match r with
  | Ok (processed', _) =>
      failed evs = [] /\
      processed' = processed + Z.of_nat (length current_batch) /\
      Z.of_nat (length (inserted evs)) = processed' - processed
  | Raise _ => fails_last evs
  end.
Proof.
  unfold flush_remaining. destruct current_batch as [|row0 cb0] eqn:Ecb.
  - intros H. inv_prim H. split; [apply copying_refl|].
    repeat (split; [reflexivity|]). simpl. split; [constructor|].
    split; [congruence|]. repeat split; lia.
  - rewrite <- Ecb. clear Ecb. intros H. inv_bind H.
    + apply insert_rows_spec in Hm as (Hs1 & Hq1 & Hf1 & Hl1).
      apply statements_only_quiet in Hq1 as (Q1 & Q2 & Q3 & Q4 & Q5 & Q6).
      apply target_only_copying in Hs1.
      inv_bind H.
      * apply when_save_spec in Hm
          as (_ & Hs2 & S1 & S2 & S3 & S4 & S5 & S6 & S7 & S8 & S9).
        step_prim H. inv_prim H.
        split; [eauto using copying_trans|].
        autorewrite with trace. simpl.
        rewrite Q1, Q2, Q3, Q5, Q6, S1, S2, S3, S4, S6, S7, Hf1.
        simpl. rewrite !app_nil_r.
        repeat (split; [reflexivity|]). split; [|split; [exact S9|]].
        -- eapply Forall_impl; [exact S8|]. intros c.
           apply within_weaken; lia.
        -- repeat split. lia.
      * apply when_save_spec in H as ([=] & _).
    + apply insert_rows_spec in H as (Hs1 & Hq1 & Hr).
      apply statements_only_quiet in Hq1 as (Q1 & Q2 & Q3 & Q4 & Q5 & Q6).
      split; [auto using target_only_copying|].
      rewrite Q1, Q2, Q3, Q5, Q6.
      repeat (split; [reflexivity|]). split; [constructor|].
      split; [congruence|exact Hr].
Qed.

Lemma report_resume_spec cfg t s r s' evs :
  report_resume cfg t s = (r, s', evs) -> s' = s /\ quiet evs.
Proof.
  unfold report_resume. destruct (enable_resume cfg).
  - unfold bind. rewrite load_checkpoint_run.
    destruct (read_checkpoint (files s) t) as [[c|]|e]; simpl.
    + destruct (processed_count c), (total_count c); simpl;
        intros [= <- <- <-]; split; try reflexivity; repeat split.
    + intros [= <- <- <-]. repeat split.
    + intros [= <- <- <-]. repeat split.
  - intros [= <- <- <-]. repeat split.
Qed.

Lemma get_performance_metrics_spec env t d n s r s' evs :
  get_performance_metrics env t d n s = (r, s', evs) ->
  (exists m, r = Ok m) /\ s' = s /\ quiet evs.
Proof.
  unfold get_performance_metrics.
  destruct (psutil_sample env t) as [[mem cpu]|]; intros [= <- <- <-];
    (split; [eauto|]); repeat split.
Qed.

Lemma clear_checkpoint_spec env t s r s' evs :
  clear_checkpoint env t s = (r, s', evs) ->
  r = Ok tt /\ stats s' = stats s /\ running s' = running s /\
  inserted evs = [] /\ failed evs = [] /\ saved evs = [] /\
  counted evs = [] /\ flushes evs = [] /\ copied evs = [] /\
  executor_events evs = [].
Proof.
  unfold clear_checkpoint. destruct (files s !! checkpoint_file t).
  - destruct (fs_remove_ok env (fs_ops s)); intros [= <- <- <-];
      repeat split.
  - intros [= <- <- <-]. repeat split.
Qed.

(** ** The copier *)

Ltac use_quiet :=
  repeat match goal with
         | H : ?f ?e = [] |- context [?f ?e] => rewrite H
         end.

Ltac trace_simpl := autorewrite with trace; simpl; use_quiet; simpl.

Lemma fails_last_quiet evs : failed evs = [] -> fails_last evs.
Proof. left. assumption. Qed.

Ltac open_quiet :=
  repeat match goal with
         | H : quiet _ |- _ =>
             let a := fresh "Q" in
             destruct H as (a & ? & ? & ? & ? & ? & ? & ?)
         end.

Lemma when_clear_spec (b : bool) env t s r s' evs :
  when b (clear_checkpoint env t) s = (r, s', evs) ->
  r = Ok tt /\ stats s' = stats s /\ running s' = running s /\
  inserted evs = [] /\ failed evs = [] /\ saved evs = [] /\
  counted evs = [] /\ flushes evs = [] /\ copied evs = [] /\
  executor_events evs = [].
Proof.
  intros H. apply when_inv in H as [[_ H]|(_ & -> & -> & ->)].
  - eapply clear_checkpoint_spec; eauto.
  - repeat split.
Qed.

Lemma copying_running s s' : copying s s' -> running s' = running s.
Proof. intros (_ & H & _). exact H. Qed.

(** The [try] block, whatever the environment does. It returns [True] only,
    either early (nothing changed) or at its end (table and rows counted);
    when it raises, the statistics are untouched, no checkpoint file is
    removed and a refused statement is the last event. *)
Lemma copy_body_spec env cfg t bsize s r s' evs :
  copy_body env cfg t bsize s = (r, s', evs) ->
  running s' = running s /\ executor_events evs = [] /\
  Forall (checkpoint_of_copy env t) (saved evs) /\
  match r with
  | Ok b =>
      b = true /\ failed evs = [] /\
      exists c, counted evs = [c] /\ src_count env t = Some c /\
        ((skipped s s' evs /\
        (c = 0 \/ exists o, src_sample env t = Some o /\ no_sample o = true))
         \/ (c <> 0 /\ completed t s s' evs))
  | Raise _ =>
      copying s s' /\ cleared evs = [] /\ copied evs = [] /\
      fails_last evs /\
      (saved evs <> [] -> checkpoint_file t ∈ dom (files s')) /\
      ~ In 0 (counted evs)
  end.
Proof.
  unfold copy_body. intros H.
  step_prim H. inv_bind H.
  2:{ apply report_resume_spec in H as (-> & HQ). open_quiet.
      split; [reflexivity|]. trace_simpl.
      split; [reflexivity|]. split; [constructor|].
      split; [apply copying_refl|]. repeat (split; [reflexivity|]).
      split; [apply fails_last_quiet; trace_simpl; reflexivity|].
      split; [congruence|]. tauto. }
  apply report_resume_spec in Hm as (-> & HQ). open_quiet.
  inv_bind H.
  2:{ apply answer_inv in H as (-> & -> & _).
      split; [reflexivity|]. trace_simpl.
      split; [reflexivity|]. split; [constructor|].
      split; [apply copying_refl|]. repeat (split; [reflexivity|]).
      split; [apply fails_last_quiet; trace_simpl; reflexivity|].
      split; [congruence|]. tauto. }
  apply answer_inv in Hm as (-> & -> & [(total & Hcount & [= ->])|[_ [=]]]).
  step_prim H.
  destruct (Z.eqb_spec total 0) as [->|Hnz].
  { step_prim H. inv_prim H.
    split; [reflexivity|]. trace_simpl.
    split; [reflexivity|]. split; [constructor|].
    split; [reflexivity|]. split; [reflexivity|].
    exists 0. split; [reflexivity|]. split; [assumption|]. left.
    split; [|auto]. repeat split; trace_simpl; reflexivity. }
  step_prim H. inv_bind H.
  2:{ apply answer_inv in H as (-> & -> & _).
      split; [reflexivity|]. trace_simpl.
      split; [reflexivity|]. split; [constructor|].
      split; [apply copying_refl|]. repeat (split; [reflexivity|]).
      split; [apply fails_last_quiet; trace_simpl; reflexivity|].
      split; [congruence|]. intros [?|[]]. congruence. }
  apply answer_inv in Hm as (-> & -> & [(sample & Hsample & [= ->])|[_ [=]]]).
  destruct (no_sample sample) eqn:Hns.
  { step_prim H. inv_prim H.
    split; [reflexivity|]. trace_simpl.
    split; [reflexivity|]. split; [constructor|].
    split; [reflexivity|]. split; [reflexivity|].
    exists total. split; [reflexivity|]. split; [assumption|]. left.
    split; [|eauto]. repeat split; trace_simpl; reflexivity. }
  step_prim H. inv_bind H.
  2:{ apply answer_inv in H as (-> & -> & _).
      split; [reflexivity|]. trace_simpl.
      split; [reflexivity|]. split; [constructor|].
      split; [apply copying_refl|]. repeat (split; [reflexivity|]).
      split; [apply fails_last_quiet; trace_simpl; reflexivity|].
      split; [congruence|]. intros [?|[]]. congruence. }
  apply answer_inv in Hm
    as (-> & -> & [([rows fl] & Hstream & [= ->])|[_ [=]]]).
  simpl in H.
  assert (Hckpt : forall lo hi c, 0 <= lo -> hi <= Z.of_nat (length rows) ->
            within t total lo hi c -> checkpoint_of_copy env t c).
  { intros lo hi c ? ? Hw. exists total, rows, fl.
    split; [assumption|]. split; [assumption|].
    eapply within_weaken; [| |exact Hw]; lia. }
  inv_bind_as H as [[cb pc] bn] sa eva evb Hloop.
  2:{ apply stream_batches_spec in H
        as (Hs1 & R1 & R2 & R3 & R4 & R5 & R6 & Hr).
      split; [apply copying_running; assumption|]. trace_simpl.
      split; [reflexivity|]. split.
      { eapply Forall_impl; [exact R5|]. intros c. apply Hckpt; simpl; lia. }
      split; [exact Hs1|]. repeat (split; [reflexivity|]).
      split.
      { apply (fails_last_app [_]); [reflexivity|].
        apply fails_last_app; [assumption|].
        repeat (apply (fails_last_app [_]); [reflexivity|]). exact Hr. }
      split; [exact R6|]. intros [?|[]]. congruence. }
  simpl in H.
  apply stream_batches_spec in Hloop
    as (Hs1 & R1 & R2 & R3 & R4 & R5 & R6 & F1 & E1 & L1).
  simpl in E1.
  inv_bind_as H as u sb evc evd Hwhen.
  2:{ apply when_inv in H as [[-> H]|(_ & [=] & _)]. inv_prim H.
      split; [apply copying_running; assumption|]. trace_simpl.
      rewrite !app_nil_r.
      split; [reflexivity|]. split.
      { eapply Forall_impl; [exact R5|]. intros c. apply Hckpt; simpl; lia. }
      split; [assumption|]. repeat (split; [reflexivity|]).
      split; [apply fails_last_quiet; trace_simpl; reflexivity|].
      split; [exact R6|]. intros [?|[]]. congruence. }
  assert (sb = sa /\ evc = []) as [-> ->].
  { apply when_inv in Hwhen as [[_ Hw]|(_ & _ & -> & ->)]; [inv_prim Hw|auto]. }
  clear Hwhen.
  inv_bind_as H as [pc' bn'] sc eve evf Hflush.
  2:{ apply flush_remaining_spec in H
        as (Hs2 & T1 & T2 & T3 & T4 & T5 & T6 & Hr).
      split; [apply copying_running; eauto using copying_trans|].
      trace_simpl. split; [reflexivity|]. split.
      { apply Forall_app. split.
        - eapply Forall_impl; [exact R5|]. intros c.
          apply Hckpt; simpl; lia.
        - eapply Forall_impl; [exact T5|]. intros c.
          apply Hckpt; simpl; lia. }
      split; [eauto using copying_trans|]. repeat (split; [reflexivity|]).
      split.
      { apply (fails_last_app [_]); [reflexivity|].
        apply fails_last_app; [assumption|].
        repeat (apply (fails_last_app [_]); [reflexivity|]).
        apply fails_last_app; [assumption|]. exact Hr. }
      split.
      { intros Hne. destruct (saved evd) eqn:E.
        - eapply dom_kept; [exact Hs2|]. apply R6.
          rewrite app_nil_r in Hne. exact Hne.
        - apply T6. congruence. }
      intros [?|[]]. congruence. }
  apply flush_remaining_spec in Hflush
    as (Hs2 & T1 & T2 & T3 & T4 & T5 & T6 & F2 & E2 & L2).
  simpl in H.
  inv_bind_as H as m sd evg evh Hmet;
    [|apply get_performance_metrics_spec in H as ([? [=]] & _)].
  apply get_performance_metrics_spec in Hmet as (_ & -> & HQ). open_quiet.
  unfold log_performance_metrics in H.
  step_prim H. step_prim H. step_prim H.
  inv_bind_as H as u2 se evi evj Hclear.
  2:{ apply when_inv in H as [[_ H]|(_ & [=] & _)].
      apply clear_checkpoint_spec in H as ([=] & _). }
  step_prim H. inv_prim H.
  apply when_clear_spec in Hclear
    as (_ & C1 & C2 & C3 & C4 & C5 & C6 & C7 & C8 & C9).
  subst pc'.
  assert (Hrun : running sc = running s)
    by (apply copying_running; eauto using copying_trans).
  assert (Hst : stats sc = stats s)
    by (destruct Hs1 as (Hst1 & _), Hs2 as (Hst2 & _); congruence).
  split; [simpl in *; congruence|]. trace_simpl. rewrite !app_nil_r.
  split; [reflexivity|]. split.
  { apply Forall_app. split.
    - eapply Forall_impl; [exact R5|]. intros c. apply Hckpt; simpl; lia.
    - eapply Forall_impl; [exact T5|]. intros c. apply Hckpt; simpl; lia. }
  split; [reflexivity|]. split; [reflexivity|].
  exists total. split; [reflexivity|]. split; [assumption|]. right.
  split; [assumption|]. unfold completed. trace_simpl. rewrite !app_nil_r.
  rewrite length_app.
  replace (Z.of_nat (length (inserted eva) + length (inserted eve)))
    with (pc + Z.of_nat (length cb)) by lia.
  split; [reflexivity|]. exists m. simpl in *. congruence.
Qed.

Lemma counted_In t n evs : In (EvSrcCount t n) evs -> In n (counted evs).
Proof.
  induction evs as [|e evs IH]; [simpl; tauto|].
  rewrite counted_cons. intros H. destruct H as [->|H]; [left; reflexivity|].
  apply in_or_app. right. auto.
Qed.

(** [copy_table_data] always returns: [True] after an early return or a
    complete copy, [False] after an exception. *)
Lemma copy_table_data_spec env cfg t bsize s r s' evs :
  copy_table_data env cfg t bsize s = (r, s', evs) ->
  running s' = running s /\ executor_events evs = [] /\
  Forall (checkpoint_of_copy env t) (saved evs) /\
  ((r = Ok true /\ failed evs = [] /\
    exists c, counted evs = [c] /\ src_count env t = Some c /\
      ((skipped s s' evs /\
        (c = 0 \/ exists o, src_sample env t = Some o /\ no_sample o = true))
       \/ (c <> 0 /\ completed t s s' evs)))
   \/ (r = Ok false /\ aborted t s s' evs)).
Proof.
  unfold copy_table_data. intros H. inv_try H.
  - apply copy_body_spec in H as (Hrun & Hex & Hsv & -> & Hrest).
    repeat (split; [assumption|]). left. auto.
  - apply copy_body_spec in Hm
      as (Hrun & Hex & Hsv & Hcp & Hcl & Hco & Hfl & Hdom & Hz).
    step_prim H. step_prim H. inv_prim H.
    split; [exact Hrun|]. trace_simpl. rewrite !app_nil_r.
    split; [reflexivity|]. split; [assumption|]. right.
    split; [reflexivity|]. unfold aborted. trace_simpl. rewrite !app_nil_r.
    destruct Hcp as (Hst & Hr & Hd).
    split; [simpl; congruence|].
    split; [repeat split; simpl; [congruence|assumption|assumption]|].
    repeat (split; [reflexivity|]). split; [exact Hdom|].
    split; [exact Hz|]. eauto.
Qed.

(** ** Checkpoints of a copy *)

(** C5 (amended). Every checkpoint persisted during a table copy carries the
    count estimate obtained at the start of that copy and a processed count
    that is non-negative and at most the number of rows the stream yields; so
    it satisfies [0 <= processed_count <= total_count] whenever the stream
    yields no more rows than the estimate. *)
Theorem persisted_checkpoints_bounded env cfg t bsize s :
  let cks := saved (events (copy_table_data env cfg t bsize s)) in
  Forall (checkpoint_of_copy env t) cks /\
  (stream_within_count env t -> Forall count_bounded cks).
Proof.
  cbv zeta.
  destruct (copy_table_data env cfg t bsize s) as [[r s'] evs] eqn:E.
  apply copy_table_data_spec in E as (_ & _ & Hsv & _). simpl.
  split; [exact Hsv|]. intros Hsrc.
  eapply Forall_impl; [exact Hsv|]. intros c Hc.
  destruct Hc as (total & rows & fl & Hcount & Hstream & p & _ & Hp & Ht & Hle).
  exists p, total. specialize (Hsrc _ _ _ Hcount Hstream).
  repeat split; auto; lia.
Qed.

(** ** Write failures *)

(** C6. When the target refuses a statement during a table copy,
    [copy_table_data] returns [False] at once (the refused statement is
    followed by the error line only), no checkpoint file is removed and a
    checkpoint saved by this copy is still there, the error counter grows by
    exactly one while the other counters stay, and the orchestrator's
    iteration for this table is the copy, the failure line and then the rest
    of the table list, without a validation. *)
Theorem write_failure_aborts_table env v cfg t bsize rest k s q vals :
  let out := copy_table_data env cfg t bsize s in
  In (EvInsertFailed q vals) (events out) ->
  result out = Ok false /\
  (exists pre,
      events out = pre ++ [EvInsertFailed q vals; EvLog Error (MsgCopyError t)]
      /\ failed pre = []) /\
  cleared (events out) = [] /\
  dom (files s) ⊆ dom (files (final out)) /\
  (saved (events out) <> [] -> checkpoint_file t ∈ dom (files (final out))) /\
  errors (stats (final out)) = errors (stats s) + 1 /\
  tables_processed (stats (final out)) = tables_processed (stats s) /\
  records_processed (stats (final out)) = records_processed (stats s) /\
  (signal_before env k = false -> running s = true ->
   table_loop env v cfg bsize k (t :: rest) s
   = (copy_table_data env cfg t bsize ;;;
      log Error (MsgFailedProcess t) ;;;
      table_loop env v cfg bsize (S k) rest) s).
Proof.
  simpl.
  destruct (copy_table_data env cfg t bsize s) as [[r s'] evs] eqn:E.
  unfold result, final, events; simpl. intros Hin.
  pose proof E as Hspec.
  apply copy_table_data_spec in Hspec as (_ & _ & _ & [(_ & Hf & _)|(-> & Hab)]).
  { exfalso. eapply failed_In; eauto. }
  destruct Hab as (Hst & Hcp & Hcl & Hco & Hdom & _ & body & -> & Hfl).
  apply in_app_iff in Hin as [Hin|[[=]|[]]].
  destruct (fails_last_In _ _ _ Hfl Hin) as (pre & -> & Hpre).
  split; [reflexivity|]. split.
  { exists pre. rewrite <- app_assoc. auto. }
  split; [exact Hcl|]. split; [destruct Hcp as (_ & _ & Hd); exact Hd|].
  split; [exact Hdom|]. rewrite Hst. simpl.
  repeat (split; [reflexivity|]).
  intros Hsig Hrun. cbn [table_loop].
  unfold bind, when, get, ret, log, emit. rewrite Hsig.
  cbn -[copy_table_data table_loop]. rewrite Hrun.
  cbn -[copy_table_data table_loop]. rewrite E.
  cbn -[copy_table_data table_loop].
  destruct (table_loop env v cfg bsize (S k) rest s') as [[r2 s2] e2].
  reflexivity.
Qed.

(** ** Empty tables *)

(** C8. When the copier's [COUNT( * )] on the source returns 0,
    [copy_table_data] returns [True] and leaves the whole service state as
    it was: no counter of the run statistics moves, no per-table metrics are
    recorded, the checkpoint directory is untouched, and no checkpoint is
    written and no statement is sent to the target. *)
Theorem empty_table_changes_nothing env cfg t bsize s :
  let out := copy_table_data env cfg t bsize s in
  In (EvSrcCount t 0) (events out) ->
  result out = Ok true /\ final out = s /\
  saved (events out) = [] /\ cleared (events out) = [] /\
  inserted (events out) = [] /\ failed (events out) = [].
Proof.
  simpl.
  destruct (copy_table_data env cfg t bsize s) as [[r s'] evs] eqn:E.
  unfold result, final, events; simpl. intros Hin.
  apply counted_In in Hin.
  apply copy_table_data_spec in E
    as (_ & _ & _ & [(-> & Hf & c & Hc & _ & Hcase)|(_ & Hab)]).
  - rewrite Hc in Hin. destruct Hin as [->|[]].
    destruct Hcase as [[(-> & Hi & Hs & Hcl & _) _]|[Hnz _]]; [|congruence].
    repeat split; assumption.
  - destruct Hab as (_ & _ & _ & _ & _ & Hz & _). contradiction.
Qed.

(** ** The run *)

Lemma sum_list_app a b : sum_list (a ++ b) = sum_list a + sum_list b.
Proof. induction a as [|x a IH]; simpl; lia. Qed.

(** The validator only reads and logs. *)
Lemma validate_spec v t s r s' evs :
  validate_data_integrity_detailed v t s = (r, s', evs) ->
  (exists b, r = Ok b) /\ s' = s /\ quiet evs.
Proof.
  unfold validate_data_integrity_detailed, try_except, bind, answer.
  destruct (val_src_count v t) as [sc|]; simpl;
    [|intros [= <- <- <-]; split; [eauto|]; repeat split].
  destruct (val_tgt_count v t) as [tc|]; simpl;
    [|intros [= <- <- <-]; split; [eauto|]; repeat split].
  destruct (sc =? tc); simpl;
    [|intros [= <- <- <-]; split; [eauto|]; repeat split].
  destruct (0 <? Z.min 100 sc); simpl.
  - destruct (val_src_sample v t (Z.min 100 sc)) as [ss|]; simpl;
      [|intros [= <- <- <-]; split; [eauto|]; repeat split].
    destruct (val_tgt_sample v t (Z.min 100 sc)) as [ts|]; simpl;
      [|intros [= <- <- <-]; split; [eauto|]; repeat split].
    destruct (first_mismatch 0 (combine ss ts)); simpl;
      intros [= <- <- <-]; (split; [eauto|]); repeat split.
  - intros [= <- <- <-]. split; [eauto|]. repeat split.
Qed.

(** What one copy adds to the counters. *)
Lemma copy_table_data_counts env cfg t bsize s r s' evs :
  copy_table_data env cfg t bsize s = (r, s', evs) ->
  records_processed (stats s')
    = records_processed (stats s) + sum_list (copied evs) /\
  tables_processed (stats s')
    = tables_processed (stats s) + Z.of_nat (length (copied evs)) /\
  ((r = Ok true /\
    records_processed (stats s')
      = records_processed (stats s) + Z.of_nat (length (inserted evs)))
   \/ (r = Ok false /\ copied evs = [])).
Proof.
  intros H. apply copy_table_data_spec in H
    as (_ & _ & _ & [(-> & _ & c & _ & _ & Hcase)|(-> & Hab)]).
  - destruct Hcase as [[(-> & Hi & _ & _ & Hco & _) _]|[_ [Hco [m Hst]]]].
    + rewrite Hco, Hi. simpl. repeat split; try lia. left. split; [auto|lia].
    + rewrite Hco, Hst. simpl. repeat split; try lia. left. split; [auto|lia].
  - destruct Hab as (Hst & _ & _ & Hco & _). rewrite Hco, Hst. simpl.
    repeat split; try lia. right. auto.
Qed.

Lemma table_loop_counts env v cfg bsize tables :
  forall k s r s' evs,
  table_loop env v cfg bsize k tables s = (r, s', evs) ->
  r = Ok tt /\
  records_processed (stats s')
    = records_processed (stats s) + sum_list (copied evs) /\
  tables_processed (stats s')
    = tables_processed (stats s) + Z.of_nat (length (copied evs)).
Proof.
  induction tables as [|t rest IH]; intros k s r s' evs H.
  - inv_prim H. simpl. repeat split; lia.
  - cbn [table_loop] in H.
    inv_bind_as H as u sa eva evb Hsig.
    2:{ apply when_inv in H as [[_ H]|(_ & [=] & _)].
        unfold _signal_handler in H. step_prim H; inv_prim H. }
    assert (stats sa = stats s /\ copied eva = []) as [Hsa Heva].
    { apply when_inv in Hsig as [[_ Hsig]|(_ & _ & -> & ->)]; [|auto].
      unfold _signal_handler in Hsig. step_prim Hsig. inv_prim Hsig. auto. }
    clear Hsig. step_prim H.
    match type of H with
    | context [running ?x] => destruct (running x); cbn [negb] in H
    end.
    + inv_bind_as H as b sb evc evd Hcopy.
      2:{ apply copy_table_data_spec in H
            as (_ & _ & _ & [([=] & _)|([=] & _)]). }
      apply copy_table_data_counts in Hcopy as (Hrp & Htp & _).
      assert (exists sc eve evf,
                 table_loop env v cfg bsize (S k) rest sc = (r, s', evf)
                 /\ stats sc = stats sb /\ copied eve = []
                 /\ evd = eve ++ evf) as (sc & eve & evf & Hrest & Hsc & He & ->).
      { destruct b; cbn [negb] in H.
        - inv_bind_as H as b2 sc eve evf Hval.
          + apply validate_spec in Hval as (_ & ? & HQ). subst. open_quiet.
            eexists _, _, _. split; [eassumption|]. split; [reflexivity|].
            split; [|reflexivity]. assumption.
          + apply validate_spec in H as ([? [=]] & _).
        - step_prim H.
          eexists _, _, _. split; [eassumption|]. split; [reflexivity|].
          split; [|reflexivity]. reflexivity. }
      apply IH in Hrest as (-> & Hrp2 & Htp2).
      autorewrite with trace. rewrite !sum_list_app, !length_app.
      rewrite Heva, He. simpl. rewrite Hsc, Hsa in *.
      repeat split; lia.
    + inv_prim H. autorewrite with trace. simpl. rewrite Heva. simpl.
      rewrite Hsa. repeat split; lia.
Qed.

(** [cleanup] never raises, leaves the service state alone and logs one
    line. *)
Lemma cleanup_run env s :
  cleanup env s = (Ok tt, s, [EvLog Info MsgClosed]) \/
  cleanup env s = (Ok tt, s, [EvLog Error MsgCleanupError]).
Proof.
  unfold cleanup, try_except, bind, when, close_service, log, emit, ret,
    raise.
  destruct (connect_src env), (connect_tgt env), (close_src_ok env),
    (close_tgt_ok env); simpl; auto.
Qed.

Lemma run_backfill_counts env v cfg tables s r s' evs :
  run_backfill env v cfg tables s = (r, s', evs) ->
  records_processed (stats s')
    = records_processed (stats s) + sum_list (copied evs) /\
  tables_processed (stats s')
    = tables_processed (stats s) + Z.of_nat (length (copied evs)).
Proof.
  unfold run_backfill, initialize_services. intros H.
  step_prim H. inv_bind_as H as b sa eva evb Htry.
  - assert (Hcl : exists evz, cleanup env sa = (Ok tt, sa, evz) /\
                               copied evz = [])
      by (destruct (cleanup_run env sa) as [-> | ->]; eauto).
    destruct Hcl as (evz & Hcl & Hq).
    unfold bind at 1 in H. rewrite Hcl in H. inv_prim H.
    inv_try Htry.
    + destruct (connect_src env && connect_tgt env).
      * step_prim Htry. cbn [negb] in Htry. step_prim Htry.
        inv_bind_as Htry as u sb evc evd Hloop.
        apply table_loop_counts in Hloop as (_ & Hrp & Htp).
        step_prim Htry. inv_prim Htry.
        autorewrite with trace. rewrite Hq. simpl. rewrite !app_nil_r.
        rewrite Hrp, Htp. split; lia.
      * step_prim Htry. cbn [negb] in Htry. step_prim Htry. inv_prim Htry.
        autorewrite with trace. rewrite Hq. simpl. split; lia.
    + exfalso. destruct (connect_src env && connect_tgt env).
      * step_prim Hm. cbn [negb] in Hm. step_prim Hm.
        inv_bind_as Hm as u sb evc evd Hloop.
        -- step_prim Hm; try inv_prim Hm.
        -- apply table_loop_counts in Hm as ([=] & _).
      * step_prim Hm. cbn [negb] in Hm. step_prim Hm; try inv_prim Hm.
  - exfalso. inv_try H. step_prim H; try inv_prim H.
Qed.

(** ** Statistics *)

(** C10. The counters [tables_processed] and [records_processed] move on
    the success path only. A copy that returns [False] leaves both as they
    were, whatever it had already written to the target; a copy that returns
    [True] adds to [records_processed] exactly the number of rows it wrote.
    Over a run, [records_processed] grows by the sum of the row counts
    reported by the completed copies and [tables_processed] by their
    number. *)
Theorem counters_move_on_success_only env v cfg :
  (forall t bsize s,
     let out := copy_table_data env cfg t bsize s in
     (result out = Ok true /\
      records_processed (stats (final out))
        = records_processed (stats s)
          + Z.of_nat (length (inserted (events out))))
     \/ (result out = Ok false /\
         copied (events out) = [] /\
         records_processed (stats (final out)) = records_processed (stats s) /\
         tables_processed (stats (final out)) = tables_processed (stats s)))
  /\
  (forall tables s,
     let out := run_backfill env v cfg tables s in
     records_processed (stats (final out))
       = records_processed (stats s) + sum_list (copied (events out)) /\
     tables_processed (stats (final out))
       = tables_processed (stats s)
         + Z.of_nat (length (copied (events out)))).
Proof.
  split.
  - intros t bsize s. simpl.
    destruct (copy_table_data env cfg t bsize s) as [[r s'] evs] eqn:E.
    unfold result, final, events; simpl.
    apply copy_table_data_counts in E
      as (Hrp & Htp & [(-> & Hi)|(-> & Hco)]); [left; auto|].
    right. rewrite Hco in *. simpl in *. repeat split; lia.
  - intros tables s. simpl.
    destruct (run_backfill env v cfg tables s) as [[r s'] evs] eqn:E.
    unfold final, events; simpl. eapply run_backfill_counts; eauto.
Qed.

(** ** The validator's result *)

(** Two computations that agree on result and state, whatever they log. *)
Lemma bind_agree {A B} (m m' : M A) (k k' : A -> M B) s :
  (m s).1 = (m' s).1 ->
  (forall a s1, (k a s1).1 = (k' a s1).1) ->
  (bind m k s).1 = (bind m' k' s).1.
Proof.
  unfold bind. intros Hm Hk.
  destruct (m s) as [[[a|e] s1] e1], (m' s) as [[[a'|e'] s1'] e1'];
    simpl in Hm; try discriminate; injection Hm as <- <-; [|reflexivity].
  specialize (Hk a s1).
  destruct (k a s1) as [[r2 s2] e2], (k' a s1) as [[r2' s2'] e2'].
  simpl in *. congruence.
Qed.

(** The same, when the continuations do not look at the value returned. *)
Lemma bind_agree_state {A B} (m m' : M A) (k k' : M B) s s1 :
  (exists a e, m s = (Ok a, s1, e)) ->
  (exists a e, m' s = (Ok a, s1, e)) ->
  (k s1).1 = (k' s1).1 ->
  (bind m (fun _ => k) s).1 = (bind m' (fun _ => k') s).1.
Proof.
  unfold bind. intros (a & e & ->) (a' & e' & ->) Hk.
  destruct (k s1) as [[r2 s2] e2], (k' s1) as [[r2' s2'] e2'].
  simpl in *. congruence.
Qed.

Lemma try_except_agree {A} (m m' : M A) (h : Exn -> M A) s :
  (m s).1 = (m' s).1 -> (try_except m h s).1 = (try_except m' h s).1.
Proof.
  unfold try_except. intros Hm.
  destruct (m s) as [[[a|e] s1] e1], (m' s) as [[[a'|e'] s1'] e1'];
    simpl in Hm; try discriminate; injection Hm as <- <-; [reflexivity|].
  destruct (h e s1) as [[r2 s2] e2]. reflexivity.
Qed.

Lemma table_loop_ignores_validator env v v' cfg bsize tables :
  forall k s,
  (table_loop env v cfg bsize k tables s).1
  = (table_loop env v' cfg bsize k tables s).1.
Proof.
  induction tables as [|t rest IH]; intros k s; [reflexivity|].
  cbn [table_loop].
  apply bind_agree; [reflexivity|]. intros _ s1.
  apply bind_agree; [reflexivity|]. intros st s2.
  destruct (negb (running st)); [reflexivity|].
  apply bind_agree; [reflexivity|]. intros success s3.
  destruct (negb success).
  - apply bind_agree; [reflexivity|]. intros _ s4. apply IH.
  - destruct (validate_data_integrity_detailed v t s3)
      as [[r1 sx] e1] eqn:E1.
    destruct (validate_data_integrity_detailed v' t s3)
      as [[r2 sy] e2] eqn:E2.
    pose proof (validate_spec _ _ _ _ _ _ E1) as ([b1 ->] & -> & _).
    pose proof (validate_spec _ _ _ _ _ _ E2) as ([b2 ->] & -> & _).
    eapply bind_agree_state; eauto.
Qed.

(** C9. The orchestrator ignores what the integrity validator finds. Two
    runs that differ only in what the validator sees of the two stores
    (so in whether each validation reports a match, a mismatch or an
    error) return the same value and end in the same service state: the
    same statistics, error counter included, and the same checkpoint
    directory. *)
Theorem validation_result_ignored env v v' cfg tables s :
  result (run_backfill env v cfg tables s)
  = result (run_backfill env v' cfg tables s) /\
  final (run_backfill env v cfg tables s)
  = final (run_backfill env v' cfg tables s).
Proof.
  assert (H : (run_backfill env v cfg tables s).1
              = (run_backfill env v' cfg tables s).1).
  { unfold run_backfill.
    apply bind_agree; [reflexivity|]. intros _ s1.
    apply bind_agree; [|reflexivity].
    apply try_except_agree.
    apply bind_agree; [reflexivity|]. intros ok s2.
    destruct (negb ok); [reflexivity|].
    apply bind_agree; [reflexivity|]. intros _ s3.
    apply bind_agree; [|reflexivity].
    apply table_loop_ignores_validator. }
  unfold result, final.
  destruct (run_backfill env v cfg tables s) as [[r1 sx] e1].
  destruct (run_backfill env v' cfg tables s) as [[r2 sy] e2].
  simpl in *. split; congruence.
Qed.

(** ** Fault-free copies *)

Lemma insert_rows_fault_free env columns q batch :
  forall s r s' evs,
  target_accepts_all env ->
  Forall (has_columns columns) batch ->
  insert_rows env columns q batch s = (r, s', evs) ->
  r = Ok tt /\ inserted evs = map (values_of columns) batch /\
  flushes evs = [].
Proof.
  induction batch as [|row rest IH]; simpl; intros s r s' evs Hacc Hcols H.
  - inv_prim H. auto.
  - apply Forall_cons in Hcols as [[vals Hv] Hrest].
    unfold values_of at 1. rewrite Hv in *. cbn [answer] in H.
    step_prim H. inv_bind H.
    + apply tgt_execute_inv in Hm as (-> & [(_ & _ & ->)|(Hno & _)]);
        [|rewrite Hacc in Hno; discriminate].
      apply IH in H as (-> & Hi & Hf); auto.
      autorewrite with trace. simpl. rewrite Hi, Hf. auto.
    + apply tgt_execute_inv in H as (_ & [(_ & [=] & _)|(Hno & _)]).
      rewrite Hacc in Hno. discriminate.
Qed.

Lemma when_save_flushes (c : bool) env t p total b s r s' evs :
  when c (save_checkpoint env t p total b) s = (r, s', evs) ->
  r = Ok tt /\ inserted evs = [] /\ flushes evs = [].
Proof.
  intros H. apply when_save_spec in H as (-> & _ & Hi & _ & _ & _ & Hf & _).
  auto.
Qed.

(** The loop under fault-free conditions: the rows seen split into those
    flushed, in order, and the current batch; with a positive batch size
    every flush holds [bsize] rows and the current batch stays below it. *)
Lemma stream_batches_fault_free env cfg t bsize total columns q all_rows :
  forall current_batch processed batch_num s r s' evs,
  target_accepts_all env ->
  Forall (has_columns columns) current_batch ->
  Forall (has_columns columns) all_rows ->
  stream_batches env cfg t bsize total columns q all_rows current_batch
                 processed batch_num s = (r, s', evs) ->
  exists current_batch' processed' batch_num' flushed,
    r = Ok (current_batch', processed', batch_num') /\
    current_batch ++ all_rows = flushed ++ current_batch' /\
    inserted evs = map (values_of columns) flushed /\
    Z.of_nat (length (flushes evs)) = batch_num' - batch_num /\
    Forall (has_columns columns) current_batch' /\
    (0 < bsize -> Z.of_nat (length current_batch) < bsize ->
     Z.of_nat (length current_batch') < bsize /\
     Z.of_nat (length flushed) = bsize * (batch_num' - batch_num)).
Proof.
  induction all_rows as [|row rest IH]; simpl;
    intros cb pc bn s r s' evs Hacc Hcb Hrows H.
  - inv_prim H. exists cb, pc, bn, []. simpl.
    rewrite app_nil_r. repeat split; auto; lia.
  - apply Forall_cons in Hrows as [Hrow Hrest].
    assert (Hcb' : Forall (has_columns columns) (cb ++ [row]))
      by (apply Forall_app; auto).
    assert (Hlen : Z.of_nat (length (cb ++ [row])) = Z.of_nat (length cb) + 1)
      by (rewrite length_app; simpl; lia).
    destruct (Z.leb_spec bsize (Z.of_nat (length (cb ++ [row])))) as [Hfull|Hnot].
    + inv_bind_as H as u sa eva evb Hins.
      2:{ eapply insert_rows_fault_free in H as ([=] & _); eauto. }
      eapply insert_rows_fault_free in Hins as (_ & Hi1 & Hf1); eauto.
      inv_bind_as H as u2 sb evc evd Hsave.
      2:{ apply when_save_flushes in H as ([=] & _). }
      apply when_save_flushes in Hsave as (_ & Hi2 & Hf2).
      step_prim H.
      eapply IH in H
        as (cb2 & pc2 & bn2 & fl2 & -> & Happ & Hi3 & Hf3 & Hc3 & Hb3); eauto.
      exists cb2, pc2, bn2, ((cb ++ [row]) ++ fl2).
      split; [reflexivity|]. split.
      { simpl in Happ. rewrite <- !app_assoc. simpl. rewrite Happ.
        reflexivity. }
      autorewrite with trace. simpl. rewrite Hi1, Hi2, Hi3, Hf1, Hf2.
      simpl. split; [rewrite !map_app; reflexivity|].
      split; [simpl in *; lia|]. split; [exact Hc3|].
      intros Hpos Hlt. destruct Hb3 as [Hb3 Hb4]; [lia|simpl; lia|].
      split; [exact Hb3|]. rewrite length_app. lia.
    + eapply IH in H
        as (cb2 & pc2 & bn2 & fl2 & -> & Happ & Hi3 & Hf3 & Hc3 & Hb3); eauto.
      exists cb2, pc2, bn2, fl2. split; [reflexivity|].
      split; [rewrite <- Happ, <- app_assoc; reflexivity|].
      repeat (split; [assumption|]). intros Hpos Hlt. apply Hb3; lia.
Qed.

Lemma flush_remaining_fault_free env cfg t bsize total columns q
    current_batch processed batch_num s r s' evs :
  target_accepts_all env ->
  Forall (has_columns columns) current_batch ->
  flush_remaining env cfg t bsize total columns q current_batch
                  processed batch_num s = (r, s', evs) ->
  (exists counts, r = Ok counts) /\
  inserted evs = map (values_of columns) current_batch /\
  Z.of_nat (length (flushes evs))
    = match current_batch with [] => 0 | _ :: _ => 1 end /\
  (current_batch <> [] -> enable_resume cfg = true ->
   (forall n, fs_write env n = WriteOk) ->
   exists ins c,
     evs = ins ++ [EvSave (checkpoint_file t) c;
                   EvLog Debug (MsgCheckpointSaved t
                     (processed + Z.of_nat (length current_batch)) total);
                   EvLog Info (MsgProgress t
                     (processed + Z.of_nat (length current_batch)) total)]
     /\ statements_only ins
     /\ within t total (processed + Z.of_nat (length current_batch))
                       (processed + Z.of_nat (length current_batch)) c
     /\ is_Some (files s' !! checkpoint_file t)).
Proof.
  intros Hacc Hcols. unfold flush_remaining.
  destruct current_batch as [|row0 cb0].
  - intros H. inv_prim H. split; [eauto|]. repeat split. congruence.
  - intros H.
    inv_bind_as H as u sa eva evb Hins.
    2:{ eapply insert_rows_fault_free in H as ([=] & _); eauto. }
    pose proof (insert_rows_spec _ _ _ _ _ _ _ _ Hins) as (_ & Hst & _).
    eapply insert_rows_fault_free in Hins as (_ & Hi1 & Hf1); eauto.
    inv_bind_as H as u2 sb evc evd Hsave.
    2:{ apply when_save_flushes in H as ([=] & _). }
    pose proof (when_save_flushes _ _ _ _ _ _ _ _ _ _ Hsave) as (_ & Hi2 & Hf2).
    step_prim H. inv_prim H. split; [eauto|].
    autorewrite with trace. simpl. rewrite Hi1, Hi2, Hf1, Hf2.
    rewrite !app_nil_r. split; [reflexivity|].
    split; [reflexivity|].
    intros _ Hres Hfs. rewrite Hres in Hsave. simpl in Hsave.
    unfold save_checkpoint in Hsave. rewrite Hfs in Hsave.
    injection Hsave as _ <- <-.
    eexists eva, _. split; [reflexivity|]. split; [exact Hst|]. split.
    + eexists. repeat split; lia.
    + simpl. rewrite lookup_insert_eq. eauto.
Qed.

Lemma report_resume_ok cfg t s r s' evs :
  resume_report_ok cfg s t ->
  report_resume cfg t s = (r, s', evs) -> r = Ok tt.
Proof.
  unfold report_resume, resume_report_ok. intros Hok.
  destruct (enable_resume cfg); [|intros [= <- _ _]; reflexivity].
  unfold bind. rewrite load_checkpoint_run.
  destruct (read_checkpoint (files s) t) as [[c|]|e]; simpl.
  - destruct (Hok eq_refl c eq_refl) as [Hp Ht].
    destruct (processed_count c); try discriminate;
      destruct (total_count c); try discriminate;
      simpl; intros [= <- _ _]; reflexivity.
  - intros [= <- _ _]. reflexivity.
  - intros [= <- _ _]. reflexivity.
Qed.

Lemma ceil_div_split b k m :
  0 < b -> 0 <= m < b ->
  ceil_div (b * k + m) b = k + (if decide (m = 0) then 0 else 1).
Proof.
  intros Hb Hm. unfold ceil_div. symmetry. destruct (decide (m = 0)).
  - apply Z.div_unique with (r := b - 1); lia.
  - apply Z.div_unique with (r := m - 1); lia.
Qed.

Lemma tenth_step b :
  (b + 1) / 10 - b / 10 = if (b + 1) mod 10 =? 0 then 1 else 0.
Proof.
  destruct (Z.eqb_spec ((b + 1) mod 10) 0) as [H|H];
    Z.div_mod_to_equations; lia.
Qed.

(** With full batches of [bsize] rows and checkpoint writes that succeed, the
    loop writes one checkpoint with every 10th batch and no other. *)
Lemma stream_batches_checkpoints env cfg t bsize total columns q all_rows :
  forall current_batch processed batch_num s
         current_batch' processed' batch_num' s' evs,
  0 < bsize -> Z.of_nat (length current_batch) < bsize ->
  processed = bsize * batch_num ->
  enable_resume cfg = true -> (forall n, fs_write env n = WriteOk) ->
  stream_batches env cfg t bsize total columns q all_rows current_batch
                 processed batch_num s
    = (Ok (current_batch', processed', batch_num'), s', evs) ->
  processed' = bsize * batch_num' /\ batch_num <= batch_num' /\
  Forall (fun c => exists b, batch_num < b <= batch_num' /\ b mod 10 = 0 /\
                             processed_count c = JInt (bsize * b))
         (saved evs) /\
  Z.of_nat (length (saved evs)) = batch_num' / 10 - batch_num / 10.
Proof.
  induction all_rows as [|row rest IH];
    intros cb pc bn s cb' pc' bn' s' evs Hpos Hlt Hpc Hres Hfs H.
  - inv_prim H. subst. simpl. repeat split; try lia. constructor.
  - cbn [stream_batches] in H.
    assert (Hlen : Z.of_nat (length (cb ++ [row])) = Z.of_nat (length cb) + 1)
      by (rewrite length_app; simpl; lia).
    destruct (Z.leb_spec bsize (Z.of_nat (length (cb ++ [row]))))
      as [Hfull|Hnot].
    + inv_bind_as H as u sa eva evb Hins.
      apply insert_rows_spec in Hins as (_ & Hq & _).
      apply statements_only_quiet in Hq as (Q1 & _).
      inv_bind_as H as u2 sb evc evd Hsave.
      step_prim H.
      eapply IH in H as (-> & Hle & Hall & Hcount); eauto;
        try (simpl; lia).
      assert (Hsv : saved evc
                    = if (bn + 1) mod 10 =? 0
                      then [mkCheckpoint (JStr t) (JInt (bsize * (bn + 1)))
                              (JInt total) (JStr (clock env (fs_ops sa)))
                              (JInt bsize)]
                      else []).
      { rewrite Hres in Hsave. cbn [andb] in Hsave.
        destruct ((bn + 1) mod 10 =? 0); cbn [when] in Hsave.
        - unfold save_checkpoint in Hsave. rewrite Hfs in Hsave.
          injection Hsave as _ _ <-. simpl. do 3 f_equal. lia.
        - inv_prim Hsave. reflexivity. }
      split; [reflexivity|]. split; [lia|].
      autorewrite with trace. simpl. rewrite Q1, Hsv. simpl. split.
      * apply Forall_app. split.
        -- destruct (Z.eqb_spec ((bn + 1) mod 10) 0) as [Hm|Hm];
             [|constructor].
           repeat constructor. exists (bn + 1). simpl.
           repeat split; [lia|lia|exact Hm].
        -- eapply Forall_impl; [exact Hall|].
           intros c (b & Hb & Hm & Hp). exists b. repeat split; auto; lia.
      * rewrite length_app, Nat2Z.inj_add, Hcount.
        pose proof (tenth_step bn) as Hstep.
        destruct ((bn + 1) mod 10 =? 0); simpl; lia.
    + eapply IH in H as (-> & Hle & Hall & Hcount); eauto; lia.
Qed.

(** The [try] block under fault-free conditions. *)
Lemma copy_body_fault_free env cfg t bsize s rows r s' evs :
  fault_free env cfg s t rows -> 0 < bsize ->
  copy_body env cfg t bsize s = (r, s', evs) ->
  r = Ok true /\
  (exists o, src_sample env t = Some o /\
             inserted evs = map (values_of (sampled_columns o)) rows) /\
  Z.of_nat (length (flushes evs)) = ceil_div (Z.of_nat (length rows)) bsize /\
  (enable_resume cfg = true ->
   (forall n, fs_write env n = WriteOk) ->
   (forall n, fs_remove_ok env n = true) ->
   Z.of_nat (length rows) mod bsize <> 0 ->
   exists pre post c total,
     evs = pre ++ EvSave (checkpoint_file t) c :: post /\
     src_count env t = Some total /\
     within t total (Z.of_nat (length rows)) (Z.of_nat (length rows)) c /\
     cleared pre = [] /\ saved post = [] /\
     cleared post = [checkpoint_file t]) /\
  (enable_resume cfg = true ->
   (forall n, fs_write env n = WriteOk) ->
   Z.of_nat (length rows) mod bsize = 0 ->
   Forall (tenth_batch bsize (Z.of_nat (length rows) / bsize)) (saved evs) /\
   Z.of_nat (length (saved evs)) = Z.of_nat (length rows) / bsize / 10).
Proof.
  intros (Hacc & Hstream & (c & Hcount & Hc0) & (o & Hsample & Ho & Hcols)
          & Hrep) Hpos H.
  unfold copy_body in H. step_prim H.
  inv_bind_as H as u sa eva evb Hreport.
  2:{ eapply report_resume_ok in H; [discriminate|exact Hrep]. }
  apply report_resume_spec in Hreport as (-> & HQ). open_quiet.
  rewrite Hcount in H. cbn [answer] in H. step_prim H. step_prim H.
  assert (Hzero : ceil_div 0 bsize = 0).
  { unfold ceil_div. apply Z.div_small. lia. }
  destruct (Z.eqb_spec c 0) as [->|Hnz].
  { step_prim H. inv_prim H. rewrite (Hc0 eq_refl). simpl.
    split; [reflexivity|]. trace_simpl.
    split; [eauto|]. split; [auto|]. split.
    { intros _ _ _ Hmod. rewrite Z.mod_0_l in Hmod; lia. }
    intros _ _ _. split; [constructor|]. rewrite Z.div_0_l by lia.
    reflexivity. }
  step_prim H. rewrite Hsample in H. cbn [answer] in H. step_prim H.
  destruct (no_sample o) eqn:Hns.
  { step_prim H. inv_prim H. rewrite (Ho eq_refl). simpl.
    split; [reflexivity|]. trace_simpl.
    split; [eauto|]. split; [auto|]. split.
    { intros _ _ _ Hmod. rewrite Z.mod_0_l in Hmod; lia. }
    intros _ _ _. split; [constructor|]. rewrite Z.div_0_l by lia.
    reflexivity. }
  step_prim H. rewrite Hstream in H. cbn [answer] in H.
  step_prim H. cbn [fst snd] in H.
  inv_bind_as H as [[cb pc] bn] sb evc evd Hloop.
  2:{ eapply stream_batches_fault_free in H as (? & ? & ? & ? & [=] & _);
        eauto. }
  pose proof (stream_batches_spec _ _ _ _ _ _ _ _ _ _ _ _ _ _ _ Hloop)
    as (_ & L1 & _ & _ & _ & _ & _ & _ & Lpc & _).
  assert (Hck : enable_resume cfg = true ->
                (forall n, fs_write env n = WriteOk) ->
                pc = bsize * bn /\ 0 <= bn /\
                Forall (fun c => exists b, 0 < b <= bn /\ b mod 10 = 0 /\
                                  processed_count c = JInt (bsize * b))
                       (saved evc) /\
                Z.of_nat (length (saved evc)) = bn / 10 - 0 / 10).
  { intros Hres Hfs.
    assert (Hcb0 : Z.of_nat (length (@nil Row)) < bsize) by (simpl; lia).
    assert (Hpc0 : 0 = bsize * 0) by lia.
    pose proof (stream_batches_checkpoints _ _ _ _ _ _ _ _ _ _ _ _ _ _ _ _ _
                  Hpos Hcb0 Hpc0 Hres Hfs Hloop) as (Hpc & Hle & Hall & Hcnt).
    auto. }
  eapply stream_batches_fault_free in Hloop
    as (cb' & pc' & bn' & flushed & [= <- <- <-] & Happ & Hi1 & Hf1 & Hc1 & Hb1);
    eauto.
  destruct Hb1 as [Hlt Hfl]; [assumption|simpl; lia|].
  cbn [when] in H. step_prim H. cbn [fst snd] in H.
  inv_bind_as H as [pc2 bn2] sc eve evf Hflush.
  2:{ eapply flush_remaining_fault_free in H as ([? [=]] & _); eauto. }
  pose proof Hflush as Hflush0.
  eapply flush_remaining_fault_free in Hflush
    as (_ & Hi2 & Hf2 & Hlast); eauto.
  cbn [fst] in H.
  inv_bind_as H as m sd evg evh Hmet;
    [|apply get_performance_metrics_spec in H as ([? [=]] & _)].
  apply get_performance_metrics_spec in Hmet as (_ & -> & HQ). open_quiet.
  unfold log_performance_metrics in H.
  step_prim H. step_prim H. step_prim H.
  inv_bind_as H as u2 se evi evj Hclear.
  2:{ apply when_inv in H as [[_ H]|(_ & [=] & _)].
      apply clear_checkpoint_spec in H as ([=] & _). }
  step_prim H. inv_prim H.
  pose proof (when_clear_spec _ _ _ _ _ _ _ Hclear)
    as (_ & _ & _ & C1 & C2 & C3 & C4 & C5 & C6 & C7).
  simpl in Happ. subst rows.
  assert (HN : Z.of_nat (length (flushed ++ cb))
               = bsize * bn + Z.of_nat (length cb))
    by (rewrite length_app; lia).
  split; [reflexivity|]. split.
  { exists o. split; [assumption|]. trace_simpl.
    rewrite !app_nil_r, Hi1, Hi2, map_app. reflexivity. }
  split.
  { trace_simpl. rewrite !app_nil_r, length_app, Nat2Z.inj_add, Hf1, Hf2.
    rewrite HN, ceil_div_split by lia.
    destruct cb as [|x cb];
      [rewrite decide_True by reflexivity
      |rewrite decide_False by (cbn [length]; lia)]; lia. }
  split; [|intros Hres Hfs Hmod].
  2:{ destruct (Hck Hres Hfs) as (_ & Hbn & Hall & Hcnt).
      assert (cb = []) as ->.
      { rewrite HN, Z.add_comm, Z.mul_comm, Z_mod_plus_full in Hmod.
        rewrite Z.mod_small in Hmod by lia. destruct cb; [reflexivity|].
        simpl in Hmod. lia. }
      cbn [flush_remaining] in Hflush0. inv_prim Hflush0.
      assert (Hdiv : Z.of_nat (length (flushed ++ [])) / bsize = bn).
      { rewrite HN. simpl. rewrite Z.add_0_r, Z.mul_comm.
        apply Z.div_mul. lia. }
      rewrite Hdiv. trace_simpl. rewrite ?app_nil_r.
      split; [exact Hall|]. rewrite Hcnt. change (0 / 10) with 0. lia. }
  intros Hres Hfs Hrm Hmod.
  assert (Hne : cb <> []).
  { intros ->. apply Hmod. rewrite HN. simpl. rewrite Z.add_0_r, Z.mul_comm.
    apply Z_mod_mult. }
  destruct (Hlast Hne Hres Hfs) as (ins & c0 & -> & Hins & Hw & [fd Hfd]).
  rewrite Hres in Hclear. cbn [when] in Hclear.
  unfold clear_checkpoint in Hclear. simpl in Hclear.
  rewrite Hfd, Hrm in Hclear. injection Hclear as _ <- <-.
  apply statements_only_quiet in Hins as (I1 & I2 & _).
  exists ([EvLog Info (MsgProcessing t)] ++ eva
          ++ [EvSrcCount t c; EvLog Info (MsgTotal t c);
              EvLog Info (MsgStreaming t bsize)] ++ evc ++ ins),
         ([EvLog Debug (MsgCheckpointSaved t (pc + Z.of_nat (length cb)) c);
           EvLog Info (MsgProgress t (pc + Z.of_nat (length cb)) c)]
          ++ evg
          ++ [EvLog Info (MsgMetrics t m); EvLog Info (MsgCopied t pc2);
              EvClear (checkpoint_file t);
              EvLog Debug (MsgCheckpointCleared t)]),
         c0, c.
  split.
  { rewrite ?app_nil_r.
    repeat (rewrite <- app_assoc || rewrite <- app_comm_cons).
    reflexivity. }
  split; [assumption|]. split.
  { cbn [length] in Lpc. eapply within_weaken; [| |exact Hw]; lia. }
  trace_simpl. rewrite ?app_nil_r. auto.
Qed.

Lemma ceil_div_bounds n b :
  0 < b -> b * ceil_div n b - b < n <= b * ceil_div n b.
Proof.
  intros Hb. unfold ceil_div.
  pose proof (Z.mul_div_le (n + b - 1) b Hb).
  pose proof (Z.mul_succ_div_gt (n + b - 1) b Hb). lia.
Qed.

Lemma copy_table_data_fault_free env cfg t bsize s rows r s' evs :
  fault_free env cfg s t rows -> 0 < bsize ->
  copy_table_data env cfg t bsize s = (r, s', evs) ->
  copy_body env cfg t bsize s = (Ok true, s', evs).
Proof.
  intros Hff Hpos H. unfold copy_table_data in H. inv_try H.
  - pose proof (copy_body_fault_free _ _ _ _ _ _ _ _ _ Hff Hpos H) as ([= ->] & _).
    exact H.
  - pose proof (copy_body_fault_free _ _ _ _ _ _ _ _ _ Hff Hpos Hm) as ([=] & _).
Qed.

(** C1. Under fault-free conditions, for a table whose stream yields the
    rows [rows] and a batch size [bsize > 0], [copy_table_data] succeeds,
    logs exactly [ceil(N / bsize)] flushes for [N = length rows], and the
    statements the target executes are exactly the rows of the stream, each
    once and in order: no row is written twice and none is left out. *)
Theorem fault_free_copy_flushes_every_row env cfg t bsize s rows :
  fault_free env cfg s t rows -> 0 < bsize ->
  let out := copy_table_data env cfg t bsize s in
  result out = Ok true /\
  Z.of_nat (length (flushes (events out)))
    = ceil_div (Z.of_nat (length rows)) bsize /\
  (exists o, src_sample env t = Some o /\
     inserted (events out) = map (values_of (sampled_columns o)) rows) /\
  length (inserted (events out)) = length rows /\
  failed (events out) = [].
Proof.
  intros Hff Hpos. simpl.
  destruct (copy_table_data env cfg t bsize s) as [[r s'] evs] eqn:E.
  pose proof (copy_table_data_fault_free _ _ _ _ _ _ _ _ _ Hff Hpos E) as Hb.
  assert (r = Ok true) as ->.
  { unfold copy_table_data, try_except in E. rewrite Hb in E. congruence. }
  unfold result, events; simpl.
  pose proof (copy_body_spec _ _ _ _ _ _ _ _ Hb) as (_ & _ & _ & _ & Hf & _).
  pose proof (copy_body_fault_free _ _ _ _ _ _ _ _ _ Hff Hpos Hb)
    as (_ & (o & Ho & Hi) & Hfl & _).
  split; [reflexivity|]. split; [exact Hfl|]. split; [eauto|].
  split; [rewrite Hi, length_map; reflexivity|exact Hf].
Qed.

(** C4 (amended). Under fault-free conditions, with resume enabled and
    checkpoint writes and removals that succeed: when the number of streamed
    rows is not a multiple of the batch size (a partial trailing batch
    remains), a checkpoint carrying the full processed count is written
    after the stream is exhausted, it is the last checkpoint written, and the
    success-path clear comes after it and only after it; when the number of
    rows is a multiple of the batch size, the only checkpoints written are
    those of every 10th batch, so that none carries the full processed count
    unless the number of batches is itself a multiple of 10. *)
Theorem checkpoints_of_fault_free_copy env cfg t bsize s rows :
  fault_free env cfg s t rows -> 0 < bsize ->
  enable_resume cfg = true ->
  (forall n, fs_write env n = WriteOk) ->
  (forall n, fs_remove_ok env n = true) ->
  let evs := events (copy_table_data env cfg t bsize s) in
  let N := Z.of_nat (length rows) in
  (N mod bsize <> 0 ->
   exists pre post c total,
     evs = pre ++ EvSave (checkpoint_file t) c :: post /\
     src_count env t = Some total /\
     table_name c = JStr t /\
     processed_count c = JInt N /\
     total_count c = JInt total /\
     cleared pre = [] /\ saved post = [] /\
     cleared post = [checkpoint_file t]) /\
  (N mod bsize = 0 ->
   Forall (tenth_batch bsize (N / bsize)) (saved evs) /\
   Z.of_nat (length (saved evs)) = N / bsize / 10 /\
   ((N / bsize) mod 10 <> 0 ->
    Forall (fun c => processed_count c <> JInt N) (saved evs))).
Proof.
  intros Hff Hpos Hres Hfs Hrm. cbv zeta.
  destruct (copy_table_data env cfg t bsize s) as [[r s'] evs] eqn:E.
  pose proof (copy_table_data_fault_free _ _ _ _ _ _ _ _ _ Hff Hpos E) as Hb.
  pose proof (copy_body_fault_free _ _ _ _ _ _ _ _ _ Hff Hpos Hb)
    as (_ & _ & _ & Hlast & Htenth).
  unfold events; simpl. split.
  - intros Hmod.
    destruct (Hlast Hres Hfs Hrm Hmod)
      as (pre & post & c & total & -> & Hc & (p & Ht & Hp & Htot & Hle)
          & Hrest).
    exists pre, post, c, total.
    split; [reflexivity|]. split; [exact Hc|]. split; [exact Ht|].
    split; [rewrite Hp; f_equal; lia|]. split; [exact Htot|exact Hrest].
  - intros Hmod. destruct (Htenth Hres Hfs Hmod) as [Hall Hlen].
    split; [exact Hall|]. split; [exact Hlen|]. intros Hten.
    eapply Forall_impl; [exact Hall|].
    intros c (b & Hb1 & Hb2 & Hp) Hfull. rewrite Hp in Hfull.
    injection Hfull as Hfull. apply Hten.
    assert (HN : Z.of_nat (length rows)
                 = bsize * (Z.of_nat (length rows) / bsize))
      by (apply Z_div_exact_full_2; lia).
    rewrite HN in Hfull at 1. apply Z.mul_reg_l in Hfull; [|lia].
    rewrite <- Hfull. exact Hb2.
Qed.

(** ** The copier and the parallel flag *)

Lemma bind_ext {A B} (m : M A) (k k' : A -> M B) s :
  (forall a s1, k a s1 = k' a s1) -> bind m k s = bind m k' s.
Proof.
  intros H. unfold bind. destruct (m s) as [[[a|e] s1] e1]; [|reflexivity].
  rewrite H. reflexivity.
Qed.

Lemma bind_ext_both {A B} (m m' : M A) (k k' : A -> M B) s :
  m s = m' s -> (forall a s1, k a s1 = k' a s1) -> bind m k s = bind m' k' s.
Proof.
  intros Hm H. unfold bind. rewrite Hm.
  destruct (m' s) as [[[a|e] s1] e1]; [|reflexivity].
  rewrite H. reflexivity.
Qed.

Lemma stream_batches_parallel_flag env cfg b t bsize total columns q all_rows :
  forall current_batch processed batch_num s,
  stream_batches env (set_parallel b cfg) t bsize total columns q all_rows
                 current_batch processed batch_num s
  = stream_batches env cfg t bsize total columns q all_rows
                   current_batch processed batch_num s.
Proof.
  induction all_rows as [|row rest IH]; intros cb pc bn s; [reflexivity|].
  cbn [stream_batches].
  destruct (bsize <=? Z.of_nat (length (cb ++ [row]))); [|apply IH].
  apply bind_ext. intros _ s1. apply bind_ext. intros _ s2.
  apply bind_ext. intros _ s3. apply IH.
Qed.

Lemma copy_table_data_parallel_flag env cfg b t bsize s :
  copy_table_data env (set_parallel b cfg) t bsize s
  = copy_table_data env cfg t bsize s.
Proof.
  unfold copy_table_data, try_except.
  assert (H : copy_body env (set_parallel b cfg) t bsize s
              = copy_body env cfg t bsize s); [|rewrite H; reflexivity].
  unfold copy_body.
  apply bind_ext. intros _ s1. apply bind_ext. intros _ s2.
  apply bind_ext. intros total s3. apply bind_ext. intros _ s4.
  destruct (total =? 0); [reflexivity|].
  apply bind_ext. intros _ s5. apply bind_ext. intros sample_row s6.
  destruct (no_sample sample_row); [reflexivity|].
  apply bind_ext. intros _ s7. apply bind_ext. intros all_rows s8.
  apply bind_ext_both; [apply stream_batches_parallel_flag|].
  reflexivity.
Qed.

(** C3, as the code has it. Whatever [enable_parallel] says, the copier never
    hands a batch to the executor: no batch is started on either path of
    [process_batch_parallel], and flipping the flag changes nothing in what
    [copy_table_data] does. *)
Theorem copier_ignores_enable_parallel env cfg t bsize s :
  executor_events (events (copy_table_data env cfg t bsize s)) = [] /\
  copy_table_data env (set_parallel (negb (enable_parallel cfg)) cfg) t bsize s
  = copy_table_data env cfg t bsize s.
Proof.
  split; [|apply copy_table_data_parallel_flag].
  destruct (copy_table_data env cfg t bsize s) as [[r s'] evs] eqn:E.
  apply copy_table_data_spec in E as (_ & H & _). exact H.
Qed.

(** ** Parallel batch executor *)

Lemma process_single_batch_fault_free env columns q batch :
  forall n s r s' evs,
  target_accepts_all env ->
  Forall (has_columns columns) batch ->
  process_single_batch env columns q batch n s = (r, s', evs) ->
  r = Ok (n + Z.of_nat (length batch)) /\
  inserted evs = map (values_of columns) batch /\
  forall p, started p evs = [].
Proof.
  induction batch as [|row rest IH]; intros n s r s' evs Hacc Hcols H.
  - inv_prim H. simpl. repeat split. f_equal. lia.
  - cbn [process_single_batch] in H.
    apply Forall_cons in Hcols as [[vals Hv] Hrest].
    unfold values_of. cbn [map]. rewrite Hv in *. cbn [answer] in H.
    step_prim H. inv_bind H.
    + apply tgt_execute_inv in Hm as (-> & [(_ & _ & ->)|(Hno & _)]);
        [|rewrite Hacc in Hno; discriminate].
      apply IH in H as (-> & Hi & He); auto.
      autorewrite with trace. simpl. rewrite Hi.
      split; [f_equal; cbn [length]; lia|]. split; [reflexivity|].
      intros p. autorewrite with trace. simpl. apply He.
    + apply tgt_execute_inv in H as (_ & [(_ & [=] & _)|(Hno & _)]).
      rewrite Hacc in Hno. discriminate.
Qed.

Lemma collect_completed_fault_free env columns q batches order :
  forall processed s r s' evs,
  target_accepts_all env ->
  Forall (Forall (has_columns columns)) batches ->
  Forall (fun i => (i < length batches)%nat) order ->
  collect_completed env columns q batches order processed s = (r, s', evs) ->
  r = Ok (processed + rows_in batches order) /\
  started Concurrent evs = order /\ started Sequential evs = [].
Proof.
  induction order as [|i order IH]; intros n s r s' evs Hacc Hcols Hord H.
  - inv_prim H. unfold rows_in. simpl. split; [f_equal; lia|auto].
  - cbn [collect_completed] in H.
    apply Forall_cons in Hord as [Hi Hord].
    destruct (lookup_lt_is_Some_2 batches i Hi) as [batch Hb].
    rewrite Hb in H.
    assert (Hbc : Forall (has_columns columns) batch)
      by (eapply Forall_lookup_1; eauto).
    inv_bind_as H as n' sa eva evb Hfut.
    2:{ inv_try H. step_prim H. inv_prim H. }
    inv_try Hfut.
    + inv_bind_as Hfut as bp sb evc evd Hw.
      step_prim Hfut. inv_prim Hfut.
      unfold worker in Hw. step_prim Hw.
      eapply process_single_batch_fault_free in Hw as ([= ->] & Hi1 & He1);
        eauto.
      apply IH in H as (-> & He2 & He3); auto.
      unfold rows_in. cbn [map sum_list]. rewrite Hb. cbn [default].
      autorewrite with trace. simpl. rewrite !He1, He2, He3. simpl.
      split; [f_equal; unfold rows_in; lia|auto].
    + exfalso. inv_bind Hm; [step_prim Hm; inv_prim Hm|].
      unfold worker in Hm. step_prim Hm.
      eapply process_single_batch_fault_free in Hm as ([=] & _); eauto.
Qed.

Lemma sum_list_perm l l' : Permutation l l' -> sum_list l = sum_list l'.
Proof. induction 1; simpl; lia. Qed.

Lemma rows_in_seq pre batches :
  rows_in (pre ++ batches) (seq (length pre) (length batches))
  = total_rows batches.
Proof.
  revert pre. induction batches as [|b bs IH]; intros pre; [reflexivity|].
  unfold rows_in, total_rows in *. cbn [length seq map sum_list].
  rewrite list_lookup_middle by reflexivity. cbn [default]. f_equal.
  specialize (IH (pre ++ [b])). rewrite <- app_assoc in IH. cbn in IH.
  rewrite length_app in IH. cbn in IH. rewrite Nat.add_1_r in IH. exact IH.
Qed.

(** The executor without failures: with a positive [max_workers], a pool
    that accepts every submission and reports every completion, and a target
    that executes every statement, each batch is applied exactly once, on
    the concurrent path, and the result is the number of rows of all
    batches. *)
Lemma process_batch_parallel_no_failures env cfg order batches t columns q s :
  0 < max_workers cfg ->
  target_accepts_all env ->
  Forall (Forall (has_columns columns)) batches ->
  Permutation order (seq 0 (length batches)) ->
  let out :=
    process_batch_parallel env cfg (PoolCompletes order) batches t columns q s
  in
  result out = Ok (total_rows batches) /\
  started Concurrent (events out) = order /\
  started Sequential (events out) = [].
Proof.
  intros Hw Hacc Hcols Hperm. simpl.
  destruct (process_batch_parallel env cfg (PoolCompletes order) batches
              t columns q s) as [[r s'] evs] eqn:E.
  unfold result, events; simpl. unfold process_batch_parallel in E.
  destruct (Z.leb_spec (max_workers cfg) 0) as [?|_]; [lia|].
  assert (Hord : Forall (fun i => (i < length batches)%nat) order).
  { apply Forall_forall. intros i Hi. apply list_elem_of_In in Hi.
    eapply Permutation_in in Hi; [|exact Hperm].
    apply in_seq in Hi. lia. }
  inv_try E.
  - eapply collect_completed_fault_free in E as (-> & H1 & H2); eauto.
    split; [|auto]. f_equal. rewrite Z.add_0_l.
    unfold rows_in. erewrite sum_list_perm by (apply Permutation_map; eauto).
    apply (rows_in_seq []).
  - eapply collect_completed_fault_free in Hm as ([=] & _); eauto.
Qed.

Lemma fallback_rows_fault_free env columns q batch :
  forall n s r s' evs,
  target_accepts_all env ->
  Forall (has_columns columns) batch ->
  fallback_rows env columns q batch n s = (r, s', evs) ->
  r = Ok (n + Z.of_nat (length batch)) /\
  inserted evs = map (values_of columns) batch /\
  forall p, started p evs = [].
Proof.
  induction batch as [|row rest IH]; intros n s r s' evs Hacc Hcols H.
  - inv_prim H. simpl. repeat split. f_equal. lia.
  - cbn [fallback_rows] in H.
    apply Forall_cons in Hcols as [[vals Hv] Hrest].
    unfold values_of. cbn [map]. rewrite Hv in *. cbn [answer] in H.
    step_prim H. inv_bind H.
    + apply tgt_execute_inv in Hm as (-> & [(_ & _ & ->)|(Hno & _)]);
        [|rewrite Hacc in Hno; discriminate].
      apply IH in H as (-> & Hi & He); auto.
      autorewrite with trace. simpl. rewrite Hi.
      split; [f_equal; cbn [length]; lia|]. split; [reflexivity|].
      intros p. autorewrite with trace. simpl. apply He.
    + apply tgt_execute_inv in H as (_ & [(_ & [=] & _)|(Hno & _)]).
      rewrite Hacc in Hno. discriminate.
Qed.

Lemma fallback_batches_fault_free env columns q batches :
  forall i n s r s' evs,
  target_accepts_all env ->
  Forall (Forall (has_columns columns)) batches ->
  fallback_batches env columns q i batches n s = (r, s', evs) ->
  r = Ok (n + total_rows batches) /\
  started Sequential evs = seq i (length batches) /\
  started Concurrent evs = [].
Proof.
  induction batches as [|batch rest IH]; intros i n s r s' evs Hacc Hcols H.
  - inv_prim H. unfold total_rows. simpl. split; [f_equal; lia|auto].
  - cbn [fallback_batches] in H.
    apply Forall_cons in Hcols as [Hb Hrest].
    step_prim H. inv_bind_as H as n' sa eva evb Hrows.
    2:{ eapply fallback_rows_fault_free in H as ([=] & _); eauto. }
    eapply fallback_rows_fault_free in Hrows as ([= ->] & _ & Hst); eauto.
    apply IH in H as (-> & Hs & Hc); auto.
    autorewrite with trace. simpl. rewrite !Hst, Hs, Hc.
    unfold total_rows. cbn [map sum_list length seq].
    split; [f_equal; lia|auto].
Qed.

(** The executor without a pool: when [max_workers] is not positive the
    constructor raises before any batch is submitted, and the fallback
    applies each batch exactly once, in order; with a target that executes
    every statement the result is the number of rows of all batches. *)
Lemma process_batch_parallel_without_pool env cfg pool batches t columns q s :
  max_workers cfg <= 0 ->
  target_accepts_all env ->
  Forall (Forall (has_columns columns)) batches ->
  let out := process_batch_parallel env cfg pool batches t columns q s in
  result out = Ok (total_rows batches) /\
  started Concurrent (events out) = [] /\
  started Sequential (events out) = seq 0 (length batches).
Proof.
  intros Hw Hacc Hcols. simpl.
  destruct (process_batch_parallel env cfg pool batches t columns q s)
    as [[r s'] evs] eqn:E.
  unfold result, events; simpl. unfold process_batch_parallel in E.
  destruct (Z.leb_spec (max_workers cfg) 0) as [_|?]; [|lia].
  inv_try E; [inv_prim E|]. inv_prim Hm. step_prim E.
  eapply fallback_batches_fault_free in E as (-> & Hs & Hc); eauto.
Qed.

(** ** Worked inputs: witnesses and counterexamples *)

Lemma world_fault_free count rows :
  (count = 0 -> rows = []) ->
  (no_sample (head rows) = true -> rows = []) ->
  Forall (has_columns (sampled_columns (head rows))) rows ->
  fault_free (world count rows []) default_config fresh "t" rows.
Proof.
  intros Hc Hs Hcols. split; [intros n q vals; reflexivity|].
  split; [reflexivity|]. split; [exists count; auto|]. split.
  - exists (head rows). auto.
  - intros _ c H. vm_compute in H. discriminate.
Qed.

Lemma three_rows_have_columns :
  Forall (has_columns (sampled_columns (head [row_a; row_b; row_c])))
         [row_a; row_b; row_c].
Proof. repeat constructor; eexists; reflexivity. Qed.

(** Three rows in batches of two: two flushes, three statements. *)
Lemma fault_free_copy_flushes_every_row_witness :
  fault_free (world 3 [row_a; row_b; row_c] []) default_config fresh "t"
             [row_a; row_b; row_c] /\
  0 < 2 /\
  let out := copy_table_data (world 3 [row_a; row_b; row_c] [])
                             default_config "t" 2 fresh in
  result out = Ok true /\
  Z.of_nat (length (flushes (events out))) = ceil_div 3 2 /\
  length (inserted (events out)) = 3%nat.
Proof.
  assert (Hff : fault_free (world 3 [row_a; row_b; row_c] []) default_config
                           fresh "t" [row_a; row_b; row_c]).
  { apply world_fault_free;
      [discriminate|discriminate|apply three_rows_have_columns]. }
  assert (Hpos : 0 < 2) by lia.
  split; [exact Hff|]. split; [exact Hpos|].
  destruct (fault_free_copy_flushes_every_row
              (world 3 [row_a; row_b; row_c] []) default_config "t" 2 fresh
              [row_a; row_b; row_c] Hff Hpos) as (Hr & Hf & _ & Hl & _).
  split; [exact Hr|]. split; [exact Hf|exact Hl].
Defined.

(** Three rows in batches of two with resume enabled: the trailing batch of
    one row is followed by the checkpoint with [processed_count = 3]. *)
Lemma checkpoints_of_fault_free_copy_witness :
  fault_free (world 3 [row_a; row_b; row_c] []) default_config fresh "t"
             [row_a; row_b; row_c] /\
  0 < 2 /\ enable_resume default_config = true /\
  (forall n, fs_write (world 3 [row_a; row_b; row_c] []) n = WriteOk) /\
  (forall n, fs_remove_ok (world 3 [row_a; row_b; row_c] []) n = true) /\
  3 mod 2 <> 0 /\
  exists pre post c,
    events (copy_table_data (world 3 [row_a; row_b; row_c] [])
                            default_config "t" 2 fresh)
      = pre ++ EvSave (checkpoint_file "t") c :: post /\
    processed_count c = JInt 3 /\
    saved post = [] /\ cleared post = [checkpoint_file "t"].
Proof.
  assert (Hff : fault_free (world 3 [row_a; row_b; row_c] []) default_config
                           fresh "t" [row_a; row_b; row_c]).
  { apply world_fault_free;
      [discriminate|discriminate|apply three_rows_have_columns]. }
  assert (Hpos : 0 < 2) by lia.
  assert (Hres : enable_resume default_config = true) by reflexivity.
  assert (Hfs : forall n,
             fs_write (world 3 [row_a; row_b; row_c] []) n = WriteOk)
    by (intros n; reflexivity).
  assert (Hrm : forall n,
             fs_remove_ok (world 3 [row_a; row_b; row_c] []) n = true)
    by (intros n; reflexivity).
  assert (Hmod : 3 mod 2 <> 0) by (vm_compute; discriminate).
  repeat (split; [assumption|]).
  destruct (checkpoints_of_fault_free_copy
              (world 3 [row_a; row_b; row_c] []) default_config "t" 2 fresh
              [row_a; row_b; row_c] Hff Hpos Hres Hfs Hrm) as [Hpartial _].
  destruct (Hpartial Hmod)
    as (pre & post & c & total & He & _ & _ & Hp & _ & _ & Hs & Hc).
  exists pre, post, c. auto.
Defined.

(** C4, as stated, fails when the row count is a multiple of the batch
    size: two rows in one batch of two are copied without fault and with
    resume enabled, and no checkpoint is written at all, so none carries the
    full processed count. *)
Lemma exact_multiple_writes_no_final_checkpoint :
  let env := world 2 [row_a; row_b] [] in
  let out := copy_table_data env default_config "t" 2 fresh in
  fault_free env default_config fresh "t" [row_a; row_b] /\
  enable_resume default_config = true /\
  result out = Ok true /\
  inserted (events out) = [[VInt 1; VText "a"]; [VInt 2; VText "b"]] /\
  saved (events out) = [] /\
  ~ (exists pre post c,
        events out = pre ++ EvSave (checkpoint_file "t") c :: post /\
        processed_count c = JInt 2).
Proof.
  cbv zeta.
  assert (Hs : saved (events (copy_table_data (world 2 [row_a; row_b] [])
                                default_config "t" 2 fresh)) = [])
    by (vm_compute; reflexivity).
  split.
  { apply world_fault_free; [discriminate|discriminate|].
    repeat constructor; eexists; reflexivity. }
  split; [reflexivity|]. split; [vm_compute; reflexivity|].
  split; [vm_compute; reflexivity|]. split; [exact Hs|].
  intros (pre & post & c & He & _). rewrite He in Hs.
  rewrite saved_app, saved_cons in Hs.
  destruct (saved pre); discriminate.
Qed.

(** A source that announces three rows and streams three. *)
Lemma persisted_checkpoints_bounded_witness :
  stream_within_count (world 3 [row_a; row_b; row_c] []) "t" /\
  Forall (checkpoint_of_copy (world 3 [row_a; row_b; row_c] []) "t")
         (saved (events (copy_table_data (world 3 [row_a; row_b; row_c] [])
                                         default_config "t" 2 fresh))) /\
  Forall count_bounded
         (saved (events (copy_table_data (world 3 [row_a; row_b; row_c] [])
                                         default_config "t" 2 fresh))).
Proof.
  assert (H : stream_within_count (world 3 [row_a; row_b; row_c] []) "t").
  { intros total rows fl [= <-] [= <- _]. simpl. lia. }
  split; [exact H|].
  destruct (persisted_checkpoints_bounded
              (world 3 [row_a; row_b; row_c] []) default_config "t" 2 fresh)
    as [Hc Hb].
  split; [exact Hc|exact (Hb H)].
Defined.

(** C5, as stated, fails when the count estimate is stale: the source
    announces one row and the cursor then yields two; the checkpoint written
    after the trailing batch has [processed_count = 2 > total_count = 1]. *)
Lemma stale_estimate_checkpoint_exceeds_total :
  let out := copy_table_data (world 1 [row_a; row_b] [])
                             default_config "t" 5 fresh in
  saved (events out)
    = [mkCheckpoint (JStr "t") (JInt 2) (JInt 1)
                    (JStr "2024-05-01T12:00:00") (JInt 5)] /\
  ~ Forall count_bounded (saved (events out)).
Proof.
  cbv zeta.
  assert (Hs : saved (events (copy_table_data (world 1 [row_a; row_b] [])
                                default_config "t" 5 fresh))
               = [mkCheckpoint (JStr "t") (JInt 2) (JInt 1)
                    (JStr "2024-05-01T12:00:00") (JInt 5)])
    by (vm_compute; reflexivity).
  split; [exact Hs|]. rewrite Hs. intros H.
  apply Forall_cons in H as [(p & total & Hp & Ht & Hle) _].
  simpl in Hp, Ht. injection Hp as <-. injection Ht as <-. lia.
Qed.

(** The target refuses the second of three statements. *)
Lemma write_failure_aborts_table_witness :
  let env := world 3 [row_a; row_b; row_c] [1%nat] in
  let q := make_insert_query "t" ["id"; "name"] in
  let out := copy_table_data env default_config "t" 2 fresh in
  In (EvInsertFailed q [VInt 2; VText "b"]) (events out) /\
  result out = Ok false /\
  inserted (events out) = [[VInt 1; VText "a"]] /\
  errors (stats (final out)) = 1 /\
  records_processed (stats (final out)) = 0.
Proof.
  cbv zeta.
  assert (Hin : In (EvInsertFailed (make_insert_query "t" ["id"; "name"])
                                   [VInt 2; VText "b"])
                   (events (copy_table_data
                              (world 3 [row_a; row_b; row_c] [1%nat])
                              default_config "t" 2 fresh))).
  { vm_compute. auto 10. }
  split; [exact Hin|].
  destruct (write_failure_aborts_table
              (world 3 [row_a; row_b; row_c] [1%nat]) blind default_config
              "t" 2 [] 0%nat fresh _ _ Hin)
    as (Hr & _ & _ & _ & _ & He & _ & Hrp & _).
  split; [exact Hr|]. split; [vm_compute; reflexivity|].
  split; [exact He|exact Hrp].
Defined.

(** A source that announces no rows. *)
Lemma empty_table_changes_nothing_witness :
  let out := copy_table_data (world 0 [] []) default_config "t" 2 fresh in
  In (EvSrcCount "t" 0) (events out) /\
  result out = Ok true /\ final out = fresh /\ saved (events out) = [].
Proof.
  cbv zeta.
  assert (Hin : In (EvSrcCount "t" 0)
                   (events (copy_table_data (world 0 [] []) default_config
                                            "t" 2 fresh))).
  { vm_compute. auto. }
  split; [exact Hin|].
  destruct (empty_table_changes_nothing (world 0 [] []) default_config
              "t" 2 fresh Hin) as (Hr & Hs & Hsv & _).
  auto.
Defined.

(** A checkpoint file that is not JSON. *)
Lemma load_checkpoint_none_on_absent_or_malformed_witness :
  let s := mkState (mkStats 0 0 0 ∅)
                   {[checkpoint_file "t" := Text None]} 0 0 true in
  files s !! checkpoint_file "t" = Some (Text None) /\
  malformed (Text None) /\
  result (load_checkpoint "t" s) = Ok None /\
  events (load_checkpoint "t" s) = [EvLog Warning MsgLoadFailed].
Proof.
  cbv zeta.
  assert (Hf : files (mkState (mkStats 0 0 0 ∅)
                        {[checkpoint_file "t" := Text None]} 0 0 true)
               !! checkpoint_file "t" = Some (Text None))
    by (vm_compute; reflexivity).
  assert (Hm : malformed (Text None)) by exact I.
  split; [exact Hf|]. split; [exact Hm|].
  destruct (load_checkpoint_none_on_absent_or_malformed "t"
              (mkState (mkStats 0 0 0 ∅)
                 {[checkpoint_file "t" := Text None]} 0 0 true))
    as (_ & _ & _ & H).
  exact (H _ Hf Hm).
Defined.

(** A record with the five fields and a string where the processed count
    should be. *)
Lemma ill_typed_checkpoint_is_loaded_witness :
  let data := JObj [("table_name", JStr "t");
                    ("processed_count", JStr "twenty");
                    ("total_count", JInt 25);
                    ("timestamp", JStr "2024-05-01T12:00:00");
                    ("batch_size", JInt 2)] in
  let ck := mkCheckpoint (JStr "t") (JStr "twenty") (JInt 25)
                         (JStr "2024-05-01T12:00:00") (JInt 2) in
  let out := copy_table_data (world 3 [row_a; row_b; row_c] [])
                             default_config "t" 2 ill_typed in
  files ill_typed !! checkpoint_file "t" = Some (Text (Some data)) /\
  checkpoint_shaped data /\
  load_checkpoint "t" ill_typed = (Ok (Some ck), ill_typed, []) /\
  result out = Ok false /\
  errors (stats (final out)) = 1 /\
  counted (events out) = [] /\ inserted (events out) = [].
Proof.
  cbv zeta.
  assert (Hf : files ill_typed !! checkpoint_file "t"
               = Some (Text (Some
                   (JObj [("table_name", JStr "t");
                          ("processed_count", JStr "twenty");
                          ("total_count", JInt 25);
                          ("timestamp", JStr "2024-05-01T12:00:00");
                          ("batch_size", JInt 2)]))))
    by (vm_compute; reflexivity).
  assert (Hs : checkpoint_shaped
                 (JObj [("table_name", JStr "t");
                        ("processed_count", JStr "twenty");
                        ("total_count", JInt 25);
                        ("timestamp", JStr "2024-05-01T12:00:00");
                        ("batch_size", JInt 2)])).
  { eexists. split; [reflexivity|]. simpl. unfold checkpoint_fields.
    apply Permutation_refl. }
  split; [exact Hf|]. split; [exact Hs|].
  destruct (ill_typed_checkpoint_is_loaded "t" ill_typed _ Hf Hs)
    as (kvs & ck & Hkvs & Hload & Ha & Hb & Hc & Hd & He & Hcopy).
  injection Hkvs as <-.
  simpl in Ha, Hb, Hc, Hd, He.
  destruct ck as [a b c d e]; simpl in *.
  injection Ha as <-. injection Hb as <-. injection Hc as <-.
  injection Hd as <-. injection He as <-.
  split; [exact Hload|].
  exact (Hcopy (world 3 [row_a; row_b; row_c] []) default_config 2
               eq_refl eq_refl).
Defined.

(** A stored checkpoint loads back as it was saved. *)
Example saved_checkpoint_loads_back :
  let env := world 25 [] [] in
  let s := final (save_checkpoint env "t" 20 25 2 fresh) in
  result (load_checkpoint "t" s)
  = Ok (Some (mkCheckpoint (JStr "t") (JInt 20) (JInt 25)
                           (JStr "2024-05-01T12:00:00") (JInt 2))).
Proof. vm_compute. reflexivity. Qed.

(** C2: the failing input. A submission raises after the workers have run
    both batches; the fallback then applies both batches again. Every row is
    sent to the target twice, and each batch is started once on each path. *)
Theorem fallback_reapplies_attempted_batches :
  let out := process_batch_parallel (world 0 [] []) default_config
               (PoolBreaks [0%nat; 1%nat]) [[row_a]; [row_b]] "t"
               ["id"] "INSERT" fresh in
  result out = Ok 2 /\
  started Concurrent (events out) = [0%nat; 1%nat] /\
  started Sequential (events out) = [0%nat; 1%nat] /\
  inserted (events out) = [[VInt 1]; [VInt 2]; [VInt 1]; [VInt 2]].
Proof. vm_compute. auto. Qed.

(** Three batches of two rows, the target refusing the first statement of
    the second batch: the result leaves out that batch's two rows and one
    failure is logged. *)
Example one_failing_batch_is_left_out :
  let out := process_batch_parallel (world 0 [] [2%nat]) default_config
               (PoolCompletes [0%nat; 1%nat; 2%nat])
               [[row_a; row_b]; [row_c; row_a]; [row_b; row_c]] "t"
               ["id"] "INSERT" fresh in
  result out = Ok 4 /\
  started Concurrent (events out) = [0%nat; 1%nat; 2%nat] /\
  started Sequential (events out) = [] /\
  length (batch_failures (events out)) = 1%nat.
Proof. vm_compute. auto. Qed.

(** C3: the failing input. With [enable_parallel] set, two rows in one full
    batch are written by two sequential statements and the executor is never
    entered. *)
Example parallel_mode_copies_sequentially :
  let out := copy_table_data (world 2 [row_a; row_b] [])
                             default_config "t" 2 fresh in
  enable_parallel default_config = true /\
  inserted (events out) = [[VInt 1; VText "a"]; [VInt 2; VText "b"]] /\
  executor_events (events out) = [].
Proof. vm_compute. auto. Qed.

(** A record with the five field names loads whatever its values are: the
    dataclass does not check them. The report of the earlier progress then
    raises on the string, before the source is asked for its count, and the
    copy of the table fails. *)
Example ill_typed_checkpoint_loads_and_fails_the_copy :
  let out := copy_table_data (world 3 [row_a; row_b; row_c] [])
                             default_config "t" 2 ill_typed in
  result (load_checkpoint "t" ill_typed)
    = Ok (Some (mkCheckpoint (JStr "t") (JStr "twenty") (JInt 25)
                             (JStr "2024-05-01T12:00:00") (JInt 2))) /\
  result out = Ok false /\ counted (events out) = [] /\
  inserted (events out) = [] /\ errors (stats (final out)) = 1.
Proof. vm_compute. auto. Qed.
(** * Further properties *)

(** ** The checkpoint store, operation by operation *)

Lemma length_append a b :
  String.length (a +:+ b) = (String.length a + String.length b)%nat.
Proof. induction a as [|x a IH]; simpl; [reflexivity|]. rewrite IH. reflexivity. Qed.

Lemma append_inj_r a b c : a +:+ c = b +:+ c -> a = b.
Proof.
  revert b. induction a as [|x a IH]; intros [|y b] H.
  - reflexivity.
  - apply (f_equal String.length) in H.
    rewrite !length_append in H. simpl in H. lia.
  - apply (f_equal String.length) in H.
    rewrite !length_append in H. simpl in H. lia.
  - cbn [String.append] in H. injection H as -> H. f_equal. auto.
Qed.

(** Different tables have different checkpoint files. *)
Lemma checkpoint_file_inj t t' : checkpoint_file t = checkpoint_file t' -> t = t'.
Proof.
  unfold checkpoint_file. intros H.
  apply (String.app_inj "checkpoints/") in H.
  eapply append_inj_r. exact H.
Qed.

Lemma save_checkpoint_run env t p total b s :
  save_checkpoint env t p total b s =
  let c := mkCheckpoint (JStr t) (JInt p) (JInt total)
                        (JStr (clock env (fs_ops s))) (JInt b) in
  match fs_write env (fs_ops s) with
  | WriteOk =>
      (Ok tt,
       tick_fs (set_files <[checkpoint_file t := Text (Some (checkpoint_dict c))]> s),
       [EvSave (checkpoint_file t) c;
        EvLog Debug (MsgCheckpointSaved t p total)])
  | WriteRefused =>
      (Ok tt, tick_fs s,
       [EvSaveFailed (checkpoint_file t); EvLog Warning MsgSaveFailed])
  | WriteTorn =>
      (Ok tt, tick_fs (set_files <[checkpoint_file t := Text None]> s),
       [EvSaveFailed (checkpoint_file t); EvLog Warning MsgSaveFailed])
  end.
Proof. reflexivity. Qed.

(** X1. Round trip of the checkpoint store: when the write succeeds,
    [load_checkpoint] returns exactly the record [save_checkpoint] was given
    (table, processed count, count estimate, batch size, and the time of the
    save), without a warning and whatever the file held before. *)
Theorem save_then_load_round_trip env t p total b s :
  fs_write env (fs_ops s) = WriteOk ->
  let s1 := final (save_checkpoint env t p total b s) in
  load_checkpoint t s1
  = (Ok (Some (mkCheckpoint (JStr t) (JInt p) (JInt total)
                            (JStr (clock env (fs_ops s))) (JInt b))),
     s1, []).
Proof.
  intros Hw. cbv zeta. rewrite save_checkpoint_run, Hw. cbv zeta.
  unfold final. cbn [fst snd]. rewrite load_checkpoint_run.
  unfold read_checkpoint. cbn [files tick_fs set_files].
  rewrite lookup_insert_eq. rewrite Checkpoint_of_dict. reflexivity.
Qed.

Lemma save_then_load_round_trip_witness :
  fs_write (world 25 [] []) (fs_ops ill_typed) = WriteOk /\
  result (load_checkpoint "t"
            (final (save_checkpoint (world 25 [] []) "t" 20 25 2 ill_typed)))
  = Ok (Some (mkCheckpoint (JStr "t") (JInt 20) (JInt 25)
                           (JStr "2024-05-01T12:00:00") (JInt 2))).
Proof.
  split; [reflexivity|].
  rewrite (save_then_load_round_trip (world 25 [] []) "t" 20 25 2 ill_typed);
    reflexivity.
Defined.

(** X2. The store works on one file per table. For two different table
    names that are plain file names (no path separator), in a directory
    that keeps different names apart: saving or clearing the checkpoint of
    one table leaves the file of the other as it was, so the other table
    loads the same checkpoint, with the same log lines, before and after.
    Loading changes nothing at all. *)
Theorem checkpoint_operations_are_per_table env t t' p total b s :
  plain t = true -> plain t' = true -> t' <> t ->
  let s1 := final (save_checkpoint env t p total b s) in
  let s2 := final (clear_checkpoint env t s) in
  final (load_checkpoint t s) = s /\
  files s1 !! checkpoint_file t' = files s !! checkpoint_file t' /\
  files s2 !! checkpoint_file t' = files s !! checkpoint_file t' /\
  result (load_checkpoint t' s1) = result (load_checkpoint t' s) /\
  events (load_checkpoint t' s1) = events (load_checkpoint t' s) /\
  result (load_checkpoint t' s2) = result (load_checkpoint t' s) /\
  events (load_checkpoint t' s2) = events (load_checkpoint t' s).
Proof.
  intros _ _ Ht'. cbv zeta.
  assert (Hf : checkpoint_file t' <> checkpoint_file t)
    by (intros H; apply Ht'; apply checkpoint_file_inj; exact H).
  assert (H1 : files (final (save_checkpoint env t p total b s))
                 !! checkpoint_file t' = files s !! checkpoint_file t').
  { rewrite save_checkpoint_run. cbv zeta.
    destruct (fs_write env (fs_ops s)); unfold final; cbn;
      rewrite ?lookup_insert_ne by congruence; reflexivity. }
  assert (H2 : files (final (clear_checkpoint env t s))
                 !! checkpoint_file t' = files s !! checkpoint_file t').
  { unfold clear_checkpoint.
    destruct (files s !! checkpoint_file t); [|reflexivity].
    destruct (fs_remove_ok env (fs_ops s)); unfold final; cbn;
      rewrite ?lookup_delete_ne by congruence; reflexivity. }
  assert (R1 : read_checkpoint
                 (files (final (save_checkpoint env t p total b s))) t'
               = read_checkpoint (files s) t')
    by (unfold read_checkpoint; rewrite H1; reflexivity).
  assert (R2 : read_checkpoint (files (final (clear_checkpoint env t s))) t'
               = read_checkpoint (files s) t')
    by (unfold read_checkpoint; rewrite H2; reflexivity).
  split.
  { rewrite load_checkpoint_run.
    destruct (read_checkpoint (files s) t); reflexivity. }
  split; [exact H1|]. split; [exact H2|].
  rewrite !load_checkpoint_run, R1, R2.
  destruct (read_checkpoint (files s) t'); repeat split; reflexivity.
Qed.

(** X3. Clearing a checkpoint never raises. Without a file for the table it
    does nothing at all; when the file is removed, a later load finds no
    checkpoint and logs no warning; when the removal fails, a warning is
    logged and the directory still holds what it held. *)
Theorem clear_checkpoint_cases env t s :
  let out := clear_checkpoint env t s in
  result out = Ok tt /\
  (files s !! checkpoint_file t = None -> out = (Ok tt, s, [])) /\
  (files s !! checkpoint_file t <> None ->
   fs_remove_ok env (fs_ops s) = true ->
   cleared (events out) = [checkpoint_file t] /\
   load_checkpoint t (final out) = (Ok None, final out, [])) /\
  (files s !! checkpoint_file t <> None ->
   fs_remove_ok env (fs_ops s) = false ->
   files (final out) = files s /\
   events out = [EvLog Warning MsgClearFailed]).
Proof.
  cbv zeta. unfold clear_checkpoint.
  destruct (files s !! checkpoint_file t) as [d|] eqn:Hd.
  - destruct (fs_remove_ok env (fs_ops s)); unfold result, final, events;
      cbn [fst snd].
    + split; [reflexivity|]. split; [discriminate|]. split; [|discriminate].
      intros _ _. split; [reflexivity|].
      rewrite load_checkpoint_run. unfold read_checkpoint.
      cbn [files tick_fs set_files]. rewrite lookup_delete_eq. reflexivity.
    + split; [reflexivity|]. split; [discriminate|]. split; [discriminate|].
      intros _ _. split; reflexivity.
  - unfold result. cbn [fst snd]. split; [reflexivity|].
    split; [reflexivity|]. split; intros H; contradiction.
Qed.

(** X4. Saving a checkpoint never raises, and a failed save is only logged.
    If nothing could be written, the directory holds what it held, so an
    earlier checkpoint still loads. If the file was opened and the dump then
    failed, the file is left without a JSON value: the earlier checkpoint
    of the table is lost and a later load returns [None] with a warning. *)
Theorem failed_save_cases env t p total b s :
  let out := save_checkpoint env t p total b s in
  result out = Ok tt /\
  (fs_write env (fs_ops s) <> WriteOk ->
   saved (events out) = [] /\
   events out = [EvSaveFailed (checkpoint_file t); EvLog Warning MsgSaveFailed]) /\
  (fs_write env (fs_ops s) = WriteRefused -> files (final out) = files s) /\
  (fs_write env (fs_ops s) = WriteTorn ->
   load_checkpoint t (final out)
   = (Ok None, final out, [EvLog Warning MsgLoadFailed])).
Proof.
  cbv zeta. rewrite save_checkpoint_run. cbv zeta.
  destruct (fs_write env (fs_ops s)); unfold result, final, events;
    cbn [fst snd]; (split; [reflexivity|]).
  - split; [congruence|]. split; discriminate.
  - split; [auto|]. split; [reflexivity|discriminate].
  - split; [auto|]. split; [discriminate|]. intros _.
    rewrite load_checkpoint_run. unfold read_checkpoint.
    cbn [files tick_fs set_files]. rewrite lookup_insert_eq. reflexivity.
Qed.
(** ** The integrity validator *)

Lemma cell_eqb_true a b : cell_eqb a b = true <-> same_cell a b.
Proof.
  unfold same_cell.
  destruct a as [|x|x|x], b as [|y|y|y]; simpl;
    try (split; [discriminate|intros [=]]); try tauto.
  - destruct x, y; simpl; split; congruence.
  - rewrite Z.eqb_eq. split; congruence.
  - rewrite Z.eqb_eq. split; congruence.
  - rewrite Z.eqb_eq. split; congruence.
  - rewrite String.eqb_eq. split; congruence.
Qed.

Lemma cells_eqb_true a : forall b,
  cells_eqb a b = true <-> Forall2 same_cell a b.
Proof.
  induction a as [|x a IH]; intros [|y b]; simpl.
  - split; [constructor|reflexivity].
  - split; [discriminate|]. intros H. apply Forall2_length in H.
    discriminate.
  - split; [discriminate|]. intros H. apply Forall2_length in H.
    discriminate.
  - rewrite andb_true_iff, cell_eqb_true, IH. split.
    + intros [H1 H2]. constructor; assumption.
    + intros H. apply Forall2_cons in H. exact H.
Qed.

Lemma row_eqb_true a b : row_eqb a b = true <-> same_row a b.
Proof. unfold row_eqb, same_row. apply cells_eqb_true. Qed.

Lemma first_mismatch_None pairs :
  forall i, first_mismatch i pairs = None <->
            Forall (fun p => same_row p.1 p.2) pairs.
Proof.
  induction pairs as [|[a b] rest IH]; intros i; simpl.
  - split; [constructor|reflexivity].
  - destruct (row_eqb a b) eqn:E.
    + rewrite IH. apply row_eqb_true in E. split.
      * intros H. constructor; assumption.
      * intros H. apply Forall_cons in H as [_ H]. exact H.
    + split; [discriminate|]. intros H. apply Forall_cons in H as [H _].
      apply row_eqb_true in H. simpl in H. congruence.
Qed.

Lemma samples_agree_combine src_s tgt_s :
  samples_agree src_s tgt_s <->
  Forall (fun p => same_row p.1 p.2) (combine src_s tgt_s).
Proof.
  unfold samples_agree. revert tgt_s.
  induction src_s as [|a src_s IH]; intros [|b tgt_s]; simpl.
  - split; [constructor|]. intros _ i a b H. discriminate.
  - split; [constructor|]. intros _ i a b' H. discriminate.
  - split; [constructor|]. intros _ i a' b' _ H. discriminate.
  - split.
    + intros H. constructor.
      * apply (H 0%nat); reflexivity.
      * apply IH. intros i x y Hx Hy. apply (H (S i)); assumption.
    + intros H. apply Forall_cons in H as [H0 H]. intros [|i] x y Hx Hy.
      * simpl in Hx, Hy. injection Hx as <-. injection Hy as <-. exact H0.
      * simpl in Hx, Hy. rewrite <- IH in H. eauto.
Qed.

Lemma lookup_combine {A B} (l : list A) (k : list B) i x y :
  combine l k !! i = Some (x, y) -> l !! i = Some x /\ k !! i = Some y.
Proof.
  revert k i. induction l as [|a l IH]; intros [|b k] [|i]; simpl;
    try discriminate.
  - intros [= -> ->]. auto.
  - apply IH.
Qed.

(** The position reported is the first at which the two samples differ. *)
Lemma first_mismatch_Some pairs :
  forall i j, first_mismatch i pairs = Some j ->
  exists a b, pairs !! (j - i)%nat = Some (a, b) /\ (i <= j)%nat /\
              ~ same_row a b /\
              Forall (fun p => same_row p.1 p.2)
                     (take (j - i) pairs).
Proof.
  induction pairs as [|[a b] rest IH]; intros i j; simpl; [discriminate|].
  destruct (row_eqb a b) eqn:E.
  - intros H. apply IH in H as (x & y & Hl & Hle & Hne & Hall).
    exists x, y. replace (j - i)%nat with (S (j - S i)) by lia.
    simpl. split; [exact Hl|]. split; [lia|]. split; [exact Hne|].
    constructor; [|exact Hall]. apply row_eqb_true in E. exact E.
  - intros [= <-]. exists a, b. rewrite Nat.sub_diag. simpl.
    split; [reflexivity|]. split; [lia|]. split; [|constructor].
    intros H. apply row_eqb_true in H. congruence.
Qed.

(** A validation that passes has obtained two equal counts. *)
Lemma validate_true_counts v t s :
  result (validate_data_integrity_detailed v t s) = Ok true ->
  exists n, val_src_count v t = Some n /\ val_tgt_count v t = Some n.
Proof.
  unfold validate_data_integrity_detailed, try_except, bind, answer, result.
  destruct (val_src_count v t) as [sc|]; simpl; [|discriminate].
  destruct (val_tgt_count v t) as [tc|]; simpl; [|discriminate].
  destruct (Z.eqb_spec sc tc) as [<-|Hne]; simpl; [|discriminate].
  eauto.
Qed.

(** X5. When the validator reports a match. [validate_data_integrity_detailed]
    returns [True] exactly when both counts are obtained and equal and, for a
    positive count, both samples of [min(100, count)] rows are obtained and
    agree position by position as far as both reach. Two rows agree when
    they have as many cells and the cells are equal under [==]: a Boolean
    cell equals the number 1 or 0, field names are not compared. When one
    sample is shorter than the other the surplus rows are not compared. *)
Theorem validation_passes_iff v t s :
  result (validate_data_integrity_detailed v t s) = Ok true <->
  exists n, val_src_count v t = Some n /\ val_tgt_count v t = Some n /\
    (n <= 0 \/
     exists src_s tgt_s,
       val_src_sample v t (Z.min 100 n) = Some src_s /\
       val_tgt_sample v t (Z.min 100 n) = Some tgt_s /\
       samples_agree src_s tgt_s).
Proof.
  unfold validate_data_integrity_detailed, try_except, bind, answer, result.
  destruct (val_src_count v t) as [sc|]; simpl;
    [|split; [discriminate|intros (n & [=] & _)]].
  destruct (val_tgt_count v t) as [tc|]; simpl;
    [|split; [discriminate|intros (n & _ & [=] & _)]].
  destruct (Z.eqb_spec sc tc) as [<-|Hne]; simpl;
    [|split; [discriminate|intros (n & [= ->] & [= ->] & _); congruence]].
  destruct (Z.ltb_spec 0 (Z.min 100 sc)) as [Hpos|Hle]; simpl.
  - destruct (val_src_sample v t (Z.min 100 sc)) as [ss|] eqn:Hss; simpl.
    2:{ split; [discriminate|]. intros (n & [= ->] & _ & [?|H]); [lia|].
        destruct H as (a & b & H & _). congruence. }
    destruct (val_tgt_sample v t (Z.min 100 sc)) as [ts|] eqn:Hts; simpl.
    2:{ split; [discriminate|]. intros (n & [= ->] & _ & [?|H]); [lia|].
        destruct H as (a & b & _ & H & _). congruence. }
    destruct (first_mismatch 0 (combine ss ts)) as [i|] eqn:Hm; simpl.
    + split; [discriminate|]. intros (n & [= ->] & _ & [?|H]); [lia|].
      destruct H as (a & b & Ha & Hb & Hag).
      rewrite Hss in Ha. rewrite Hts in Hb.
      injection Ha as <-. injection Hb as <-.
      apply samples_agree_combine, (first_mismatch_None _ 0%nat) in Hag.
      congruence.
    + split; [|reflexivity]. intros _. exists sc.
      split; [reflexivity|]. split; [reflexivity|]. right.
      exists ss, ts. split; [exact Hss|]. split; [exact Hts|].
      apply samples_agree_combine, (first_mismatch_None _ 0%nat). exact Hm.
  - split; [|reflexivity]. intros _. exists sc.
    split; [reflexivity|]. split; [reflexivity|]. left. lia.
Qed.

(** X6. Counts that differ fail the validation on their own: the validator
    returns [False] and logs the two counts, and no sample is compared,
    whatever the samples would have shown. *)
Theorem count_mismatch_fails_validation v t s a b :
  val_src_count v t = Some a -> val_tgt_count v t = Some b -> a <> b ->
  validate_data_integrity_detailed v t s
  = (Ok false, s, [EvLog Error (MsgCountMismatch a b)]).
Proof.
  intros Ha Hb Hne.
  unfold validate_data_integrity_detailed, try_except, bind, answer.
  rewrite Ha, Hb. simpl.
  destruct (Z.eqb_spec a b) as [?|_]; [contradiction|]. reflexivity.
Qed.

(** X7. The mismatch the validator reports is the first one: when it logs
    a mismatch in sample record [i], the counts were equal, rows [i] of the
    two samples are not equal under [==] (they differ in length or in a
    cell, where a Boolean cell equals the number 1 or 0), and all earlier
    rows are equal under [==]. *)
Theorem validation_reports_first_mismatch v t s i :
  In (EvLog Error (MsgSampleMismatch i))
     (events (validate_data_integrity_detailed v t s)) ->
  result (validate_data_integrity_detailed v t s) = Ok false /\
  exists n src_s tgt_s a b,
    val_src_count v t = Some n /\ val_tgt_count v t = Some n /\
    val_src_sample v t (Z.min 100 n) = Some src_s /\
    val_tgt_sample v t (Z.min 100 n) = Some tgt_s /\
    src_s !! i = Some a /\ tgt_s !! i = Some b /\
    ~ same_row a b /\
    samples_agree (take i src_s) (take i tgt_s).
Proof.
  unfold validate_data_integrity_detailed, try_except, bind, answer,
    result, events.
  destruct (val_src_count v t) as [sc|]; simpl;
    [|intros [[=]|[]]].
  destruct (val_tgt_count v t) as [tc|]; simpl;
    [|intros [[=]|[]]].
  destruct (Z.eqb_spec sc tc) as [<-|Hne]; simpl;
    [|intros [[=]|[]]].
  destruct (0 <? Z.min 100 sc); simpl; [|intros [[=]|[]]].
  destruct (val_src_sample v t (Z.min 100 sc)) as [ss|] eqn:Hss; simpl;
    [|intros [[=]|[]]].
  destruct (val_tgt_sample v t (Z.min 100 sc)) as [ts|] eqn:Hts; simpl;
    [|intros [[=]|[]]].
  destruct (first_mismatch 0 (combine ss ts)) as [j|] eqn:Hm; simpl;
    [|intros [[=]|[]]].
  intros [[= ->]|[]]. split; [reflexivity|].
  apply first_mismatch_Some in Hm as (a & b & Hl & _ & Hne & Hall).
  rewrite Nat.sub_0_r in Hl, Hall.
  apply lookup_combine in Hl as [Ha Hb].
  exists sc, ss, ts, a, b. repeat (split; [first [reflexivity|assumption]|]).
  apply samples_agree_combine. rewrite <- combine_firstn. exact Hall.
Qed.

(** ** Relations kept by every step *)

Section Keeps.
Context (R : State -> State -> list Event -> Prop) `{!Chained R}.

Lemma keeps_ret {A} (a : A) : keeps R (ret a).
Proof. intros s r s' evs [= <- <- <-]. apply chain_nil. Qed.

Lemma keeps_raise {A} (e : Exn) : keeps R (raise (A := A) e).
Proof. intros s r s' evs [= <- <- <-]. apply chain_nil. Qed.

Lemma keeps_get : keeps R get.
Proof. intros s r s' evs [= <- <- <-]. apply chain_nil. Qed.

Lemma keeps_answer {A} (e : Exn) (o : option A) : keeps R (answer e o).
Proof. destruct o; [apply keeps_ret|apply keeps_raise]. Qed.

Lemma keeps_bind {A B} (m : M A) (k : A -> M B) :
  keeps R m -> (forall a, keeps R (k a)) -> keeps R (bind m k).
Proof.
  intros Hm Hk s r s' evs H.
  apply bind_inv in H as [(a & s1 & e1 & e2 & H1 & H2 & ->)|(e & H & _)].
  - eapply chain_app; [eapply Hm|eapply Hk]; eassumption.
  - eapply Hm; eassumption.
Qed.

Lemma keeps_try {A} (m : M A) (h : Exn -> M A) :
  keeps R m -> (forall e, keeps R (h e)) -> keeps R (try_except m h).
Proof.
  intros Hm Hh s r s' evs H.
  apply try_except_inv in H
    as [(a & H & _)|(e & s1 & e1 & e2 & H1 & H2 & ->)].
  - eapply Hm; eassumption.
  - eapply chain_app; [eapply Hm|eapply Hh]; eassumption.
Qed.

Lemma keeps_when (b : bool) (m : M unit) : keeps R m -> keeps R (when b m).
Proof. destruct b; [auto|]. intros _. apply keeps_ret. Qed.

Lemma keeps_emit (e : Event) : (forall s, R s s [e]) -> keeps R (emit e).
Proof. intros H s r s' evs [= <- <- <-]. apply H. Qed.

Lemma keeps_log l m : (forall s, R s s [EvLog l m]) -> keeps R (log l m).
Proof. apply keeps_emit. Qed.

Lemma keeps_modify f : (forall s, R s (f s) []) -> keeps R (modify f).
Proof. intros H s r s' evs [= <- <- <-]. apply H. Qed.

Lemma keeps_tgt_execute env q vals :
  (forall s e, e = EvInsert q vals \/ e = EvInsertFailed q vals ->
               R s (tick_tgt s) [e]) ->
  keeps R (tgt_execute env q vals).
Proof.
  intros H s r s' evs H1.
  apply tgt_execute_inv in H1 as (-> & [(_ & _ & ->)|(_ & _ & ->)]); auto.
Qed.
End Keeps.

(** Walks a computation along its binds and branches; [leaf] closes what is
    left at the primitive steps. *)
Ltac keeps_walk leaf :=
  repeat first
    [ progress intros
    | solve [auto 1]
    | apply keeps_ret; solve [typeclasses eauto]
    | apply keeps_raise; solve [typeclasses eauto]
    | apply keeps_get; solve [typeclasses eauto]
    | apply keeps_answer; solve [typeclasses eauto]
    | apply keeps_bind; [solve [typeclasses eauto]| |]
    | apply keeps_try; [solve [typeclasses eauto]| |]
    | apply keeps_when; [solve [typeclasses eauto]|]
    | match goal with
      | |- keeps _ (if ?b then _ else _) => destruct b
      | |- keeps _ (match ?x with _ => _ end) => destruct x
      end
    | apply keeps_log; solve [leaf]
    | apply keeps_emit; solve [leaf]
    | apply keeps_modify; solve [leaf]
    | apply keeps_tgt_execute; solve [leaf] ].

(** ** Copies without resume *)

#[local] Instance store_untouched_chained : Chained store_untouched.
Proof.
  split.
  - intros s. repeat split. constructor.
  - intros s1 s2 s3 e1 e2 (F1 & O1 & E1) (F2 & O2 & E2).
    split; [congruence|]. split; [congruence|].
    apply Forall_app. auto.
Qed.

Ltac store_leaf :=
  intros; unfold store_untouched; simpl; repeat split;
  match goal with
  | H : _ \/ _ |- _ => destruct H; subst; repeat constructor
  | _ => repeat constructor
  end.

Lemma insert_rows_store env columns q batch :
  keeps store_untouched (insert_rows env columns q batch).
Proof.
  induction batch as [|row rest IH]; simpl; keeps_walk store_leaf.
Qed.

Lemma stream_batches_store env cfg t bsize total columns q all_rows :
  enable_resume cfg = false ->
  forall current_batch processed batch_num,
  keeps store_untouched
    (stream_batches env cfg t bsize total columns q all_rows current_batch
                    processed batch_num).
Proof.
  intros Hres. induction all_rows as [|row rest IH]; intros cb pc bn; simpl.
  - keeps_walk store_leaf.
  - rewrite Hres. cbn [andb when].
    pose proof (insert_rows_store env columns q).
    keeps_walk store_leaf.
Qed.

Lemma copy_table_data_store env cfg t bsize :
  enable_resume cfg = false ->
  keeps store_untouched (copy_table_data env cfg t bsize).
Proof.
  intros Hres.
  pose proof (insert_rows_store env).
  pose proof (fun total columns q all_rows =>
                stream_batches_store env cfg t bsize total columns q
                                     all_rows Hres) as Hloop.
  unfold copy_table_data, copy_body, report_resume, flush_remaining,
    get_performance_metrics, log_performance_metrics.
  rewrite Hres. cbn [when].
  keeps_walk store_leaf.
Qed.

Lemma validate_store v t :
  keeps store_untouched (validate_data_integrity_detailed v t).
Proof.
  unfold validate_data_integrity_detailed. keeps_walk store_leaf.
Qed.

Lemma table_loop_store env v cfg bsize tables :
  enable_resume cfg = false ->
  forall k, keeps store_untouched (table_loop env v cfg bsize k tables).
Proof.
  intros Hres.
  pose proof (fun t b => copy_table_data_store env cfg t b Hres) as Hcopy.
  pose proof (validate_store v) as Hval.
  induction tables as [|t rest IH]; intros k; cbn [table_loop].
  - keeps_walk store_leaf.
  - unfold when, _signal_handler. keeps_walk store_leaf.
Qed.

(** X8. With resume disabled the service never touches the checkpoint
    directory: over a whole run, whatever the sources, the target and the
    signals do, no checkpoint is loaded, written or removed, and nothing
    about checkpoints is logged; a checkpoint left by an earlier run stays
    where it is. *)
Theorem resume_disabled_leaves_store_alone env v cfg tables s :
  enable_resume cfg = false ->
  let out := run_backfill env v cfg tables s in
  files (final out) = files s /\ fs_ops (final out) = fs_ops s /\
  saved (events out) = [] /\ cleared (events out) = [] /\
  Forall (fun e => store_event e = false) (events out).
Proof.
  intros Hres. cbv zeta.
  assert (H : keeps store_untouched (run_backfill env v cfg tables)).
  { pose proof (fun b tables => table_loop_store env v cfg b tables Hres)
      as Hloop.
    unfold run_backfill, initialize_services, cleanup, close_service.
    keeps_walk store_leaf. }
  destruct (run_backfill env v cfg tables s) as [[r s'] evs] eqn:E.
  apply H in E as (Hf & Ho & Hev). unfold final, events. cbn [fst snd].
  split; [exact Hf|]. split; [exact Ho|].
  split; [|split; [|exact Hev]].
  - clear -Hev. induction Hev as [|e evs He _ IH]; [reflexivity|].
    rewrite saved_cons, IH. destruct e; try reflexivity; discriminate.
  - clear -Hev. induction Hev as [|e evs He _ IH]; [reflexivity|].
    rewrite cleared_cons, IH. destruct e; try reflexivity; discriminate.
Qed.

(** ** Accounting of a run *)

Lemma attempted_app a b : attempted (a ++ b) = attempted a ++ attempted b.
Proof. apply omap_app. Qed.
Lemma copy_errors_app a b :
  copy_errors (a ++ b) = copy_errors a ++ copy_errors b.
Proof. apply omap_app. Qed.

#[local] Instance no_copy_lines_chained : Chained no_copy_lines.
Proof.
  split; [repeat split|].
  intros s1 s2 s3 e1 e2 (A1 & B1 & C1) (A2 & B2 & C2).
  unfold no_copy_lines.
  rewrite attempted_app, copy_errors_app, copied_app, A1, A2, B1, B2, C1, C2.
  auto.
Qed.

#[local] Instance inside_copy_chained : Chained inside_copy.
Proof.
  split; [repeat split|].
  intros s1 s2 s3 e1 e2 (A1 & B1) (A2 & B2). unfold inside_copy.
  rewrite attempted_app, copy_errors_app, A1, A2, B1, B2. auto.
Qed.

Ltac lines_leaf :=
  intros; unfold no_copy_lines, inside_copy; simpl;
  repeat split;
  match goal with
  | H : _ \/ _ |- _ => destruct H; subst; reflexivity
  | _ => reflexivity
  end.

Lemma insert_rows_inside env columns q batch :
  keeps inside_copy (insert_rows env columns q batch).
Proof. induction batch as [|row rest IH]; simpl; keeps_walk lines_leaf. Qed.

Lemma save_checkpoint_inside env t p total b :
  keeps inside_copy (save_checkpoint env t p total b).
Proof.
  intros s r s' evs H. rewrite save_checkpoint_run in H. cbv zeta in H.
  destruct (fs_write env (fs_ops s)); injection H as <- <- <-;
    repeat split.
Qed.

Lemma clear_checkpoint_inside env t : keeps inside_copy (clear_checkpoint env t).
Proof.
  intros s r s' evs H. unfold clear_checkpoint in H.
  destruct (files s !! checkpoint_file t);
    [destruct (fs_remove_ok env (fs_ops s))|];
    injection H as <- <- <-; repeat split.
Qed.

Lemma stream_batches_inside env cfg t bsize total columns q all_rows :
  forall current_batch processed batch_num,
  keeps inside_copy
    (stream_batches env cfg t bsize total columns q all_rows current_batch
                    processed batch_num).
Proof.
  pose proof (insert_rows_inside env columns q).
  pose proof (save_checkpoint_inside env t).
  induction all_rows as [|row rest IH]; intros cb pc bn; simpl;
    keeps_walk lines_leaf.
Qed.

(** The lines of one copy: its table is logged as started once; the copy
    logs at most one completion or one error, and the error counter moves
    with the error line. *)
Lemma copy_table_data_lines env cfg t bsize s r s' evs :
  copy_table_data env cfg t bsize s = (r, s', evs) ->
  attempted evs = [t] /\
  errors (stats s') = errors (stats s) + Z.of_nat (length (copy_errors evs)) /\
  (length (copied evs) + length (copy_errors evs) <= 1)%nat /\
  (r = Ok false <-> copy_errors evs = [t]).
Proof.
  intros H.
  assert (Hbody : forall rb sb eb,
             copy_body env cfg t bsize s = (rb, sb, eb) ->
             attempted eb = [t] /\ copy_errors eb = []).
  { intros rb sb eb Hb. unfold copy_body in Hb. step_prim Hb.
    match type of Hb with
    | ?m _ = _ => assert (K : keeps inside_copy m)
    end.
    { pose proof (insert_rows_inside env).
      pose proof (save_checkpoint_inside env t).
      pose proof (clear_checkpoint_inside env t).
      pose proof (stream_batches_inside env cfg t bsize).
      unfold report_resume, load_checkpoint, format_comma, flush_remaining,
        get_performance_metrics, log_performance_metrics.
      keeps_walk lines_leaf. }
    apply K in Hb as [Ha He].
    rewrite attempted_app, copy_errors_app, Ha, He. auto. }
  unfold copy_table_data in H. inv_try H.
  - pose proof (Hbody _ _ _ H) as [Ha He]. rewrite He. simpl.
    split; [exact Ha|].
    apply copy_body_spec in H as (_ & _ & _ & -> & _ & c & _ & _ & Hcase).
    destruct Hcase as [[(-> & _ & _ & _ & Hco & _) _]|[_ [Hco [m Hst]]]];
      rewrite Hco; simpl.
    + split; [lia|]. split; [lia|]. split; discriminate.
    + rewrite Hst. simpl. split; [lia|]. split; [lia|]. split; discriminate.
  - pose proof (Hbody _ _ _ Hm) as [Ha He].
    apply copy_body_spec in Hm as (_ & _ & _ & (Hst & _) & _ & Hco & _).
    step_prim H. step_prim H. inv_prim H.
    rewrite attempted_app, copy_errors_app, copied_app, Ha, He, Hco.
    simpl. rewrite Hst.
    split; [reflexivity|]. split; [lia|]. split; [lia|]. split; auto.
Qed.

Lemma validate_lines v t :
  keeps no_copy_lines (validate_data_integrity_detailed v t).
Proof. unfold validate_data_integrity_detailed. keeps_walk lines_leaf. Qed.

(** The loop over the tables: tables are attempted in list order, each at
    most once; a raised shutdown flag stops the loop before the next table;
    without signals every table is attempted. *)
Lemma table_loop_lines env v cfg bsize tables :
  forall k s r s' evs,
  table_loop env v cfg bsize k tables s = (r, s', evs) ->
  attempted evs `prefix_of` tables /\
  errors (stats s') = errors (stats s) + Z.of_nat (length (copy_errors evs)) /\
  (length (copied evs) + length (copy_errors evs)
   <= length (attempted evs))%nat /\
  (running s = false -> attempted evs = []) /\
  (forall i, signal_before env (k + i) = true ->
             (length (attempted evs) <= i)%nat) /\
  (undisturbed env -> running s = true ->
   attempted evs = tables /\ running s' = true).
Proof.
  induction tables as [|t rest IH]; intros k s r s' evs H.
  - inv_prim H. simpl. split; [reflexivity|]. split; [lia|].
    split; [lia|]. split; [auto|]. split; [intros; lia|auto].
  - cbn [table_loop] in H.
    inv_bind_as H as u sa eva evb Hsig.
    2:{ apply when_inv in H as [[_ H]|(_ & [=] & _)].
        unfold _signal_handler in H. step_prim H; inv_prim H. }
    assert (stats sa = stats s /\ no_copy_lines s sa eva /\
            (signal_before env k = true -> running sa = false) /\
            (running s = false -> running sa = false) /\
            (signal_before env k = false -> running sa = running s))
      as (Hsa & (A0 & E0 & C0) & Hstop & Hoff & Hon).
    { apply when_inv in Hsig as [[Hb Hsig]|(Hb & _ & -> & ->)].
      - unfold _signal_handler in Hsig. step_prim Hsig. inv_prim Hsig.
        repeat split; auto. congruence.
      - repeat split; auto. congruence. }
    clear Hsig. step_prim H.
    match type of H with
    | context [running ?x] => destruct (running x) eqn:Hrun; cbn [negb] in H
    end.
    + inv_bind_as H as b sb evc evd Hcopy.
      2:{ apply copy_table_data_spec in H
            as (_ & _ & _ & [([=] & _)|([=] & _)]). }
      pose proof (copy_table_data_spec _ _ _ _ _ _ _ _ Hcopy) as (Hrb & _).
      apply copy_table_data_lines in Hcopy as (A1 & E1 & C1 & _).
      assert (exists sc eve evf,
                 table_loop env v cfg bsize (S k) rest sc = (r, s', evf)
                 /\ stats sc = stats sb /\ running sc = running sb
                 /\ no_copy_lines sb sc eve
                 /\ evd = eve ++ evf)
        as (sc & eve & evf & Hrest & Hsc & Hrc & (A2 & E2 & C2) & ->).
      { destruct b; cbn [negb] in H.
        - inv_bind_as H as b2 sc eve evf Hval.
          + pose proof (validate_lines _ _ _ _ _ _ Hval) as Hl.
            apply validate_spec in Hval as (_ & ? & _). subst.
            eexists _, eve, evf. split; [eassumption|]. auto.
          + apply validate_spec in H as ([? [=]] & _).
        - step_prim H.
          eexists _, [_], _. split; [eassumption|].
          repeat split; reflexivity. }
      apply IH in Hrest as (P & E & C & _ & Hsigs & Hall).
      rewrite !attempted_app, !copy_errors_app, !copied_app.
      rewrite A0, E0, C0, A1, A2, E2, C2. simpl.
      rewrite !length_app. split; [|split; [|split; [|split; [|split]]]].
      * destruct P as [tl ->]. exists tl. reflexivity.
      * rewrite E, Hsc, E1, Hsa. rewrite Nat2Z.inj_add. lia.
      * lia.
      * intros Hs. apply Hoff in Hs. congruence.
      * intros [|i] Hi.
        -- rewrite Nat.add_0_r in Hi. apply Hstop in Hi. congruence.
        -- apply le_n_S, Hsigs. rewrite <- Hi. f_equal. lia.
      * intros Hund Hs. destruct Hall as [-> Hr]; [assumption|congruence|].
        auto.
    + inv_prim H. rewrite !attempted_app, !copy_errors_app, !copied_app.
      rewrite A0, E0, C0. simpl. rewrite Hsa.
      split; [apply prefix_nil|]. split; [lia|]. split; [lia|].
      split; [auto|]. split; [intros; lia|].
      intros Hund Hs. specialize (Hon (Hund k)). congruence.
Qed.
(** The line [cleanup] logs. *)
Lemma cleanup_line env s :
  exists e, cleanup env s = (Ok tt, s, [e]) /\
            (e = EvLog Info MsgClosed \/ e = EvLog Error MsgCleanupError).
Proof. destruct (cleanup_run env s) as [-> | ->]; eauto. Qed.

Lemma cleanup_lines env s :
  final (cleanup env s) = s /\ no_copy_lines s s (events (cleanup env s)).
Proof.
  destruct (cleanup_run env s) as [-> | ->]; repeat split; reflexivity.
Qed.

(** The run, spelled out: the two connections decide what it returns. *)
Lemma run_backfill_run env v cfg tables s :
  run_backfill env v cfg tables s =
  if connect_src env && connect_tgt env then
    let bsize := default 5000 (cfg_batch_size cfg) in
    let loop := table_loop env v cfg bsize 0 tables s in
    (Ok true, final loop,
     [EvLog Info MsgStart; EvLog Info MsgInitOk; EvLog Info (MsgBatchSize bsize)]
     ++ events loop ++ [EvLog Info MsgCompleted]
     ++ events (cleanup env (final loop)))
  else
    (Ok false, s,
     [EvLog Info MsgStart; EvLog Error MsgInitError;
      EvLog Error MsgInitFailed] ++ events (cleanup env s)).
Proof.
  unfold run_backfill, initialize_services, try_except, bind, log, emit, ret.
  destruct (connect_src env && connect_tgt env).
  - cbv zeta. cbn [negb].
    destruct (table_loop env v cfg (default 5000 (cfg_batch_size cfg)) 0
                tables s) as [[r s'] evs] eqn:E.
    pose proof (table_loop_counts _ _ _ _ _ _ _ _ _ _ E) as (-> & _).
    unfold final at 1 2. cbn [fst snd].
    destruct (cleanup_line env s') as (e & -> & _).
    unfold events. cbn. rewrite <- !app_assoc. reflexivity.
  - cbn [negb]. destruct (cleanup_line env s) as (e & -> & _). reflexivity.
Qed.

(** The run on a value that cannot be iterated. *)
Lemma run_backfill_any_not_iterable env v cfg s :
  run_backfill_any env v cfg None s =
  if connect_src env && connect_tgt env then
    (Ok false, s,
     [EvLog Info MsgStart; EvLog Info MsgInitOk;
      EvLog Info (MsgBatchSize (default 5000 (cfg_batch_size cfg)));
      EvLog Error MsgFatal] ++ events (cleanup env s))
  else
    (Ok false, s,
     [EvLog Info MsgStart; EvLog Error MsgInitError;
      EvLog Error MsgInitFailed] ++ events (cleanup env s)).
Proof.
  unfold run_backfill_any, initialize_services, try_except, bind, log, emit,
    ret, raise.
  destruct (connect_src env && connect_tgt env); cbn [negb];
    destruct (cleanup_line env s) as (e & -> & _); reflexivity.
Qed.

(** X9. What a run returns. [run_backfill] never raises. On a list of table
    names it returns [True] exactly when both connections were initialised:
    failed copies and failed validations do not change the result, so the
    process exits with status 0 even when every table failed. When a
    connection cannot be opened no table is attempted and the service state
    is left as it was. On a value that cannot be iterated, which [main]
    passes on when [tables.json] holds a number under ["tables"], the run
    returns [False] with both connections open: the handler of the fatal
    error runs, no table is attempted, and the process exits with status 1.
    In every case [cleanup] runs last and logs one line: that the
    connections are closed, or the error of a [close()] that raised. *)
Theorem run_result_is_initialization env v cfg s :
  (forall tables,
     run_backfill_any env v cfg (Some tables) = run_backfill env v cfg tables) /\
  (forall tables,
     let out := run_backfill env v cfg tables s in
     result out = Ok (connect_src env && connect_tgt env) /\
     exit_status (result out)
     = (if connect_src env && connect_tgt env then 0 else 1) /\
     (connect_src env && connect_tgt env = false ->
      final out = s /\ attempted (events out) = [] /\
      inserted (events out) = [])) /\
  (let out := run_backfill_any env v cfg None s in
   result out = Ok false /\ exit_status (result out) = 1 /\
   final out = s /\ attempted (events out) = [] /\
   inserted (events out) = [] /\
   (connect_src env && connect_tgt env = true ->
    In (EvLog Error MsgFatal) (events out))) /\
  (forall tables : option (list string),
     let out := run_backfill_any env v cfg tables s in
     exists pre e, events out = pre ++ [e] /\
       (e = EvLog Info MsgClosed \/ e = EvLog Error MsgCleanupError)) /\
  (forall z, z <> 0 ->
     main_tables None (Some (Text (Some (JObj [("tables", JInt z)]))))
     = JInt z /\ iterable (JInt z) = false).
Proof.
  split; [reflexivity|]. split; [|split; [|split]].
  - intros tables. cbv zeta. rewrite run_backfill_run.
    destruct (cleanup_line env s) as (e & Hcl & He).
    destruct (connect_src env && connect_tgt env); cbv zeta;
      unfold result, final; cbn [fst snd exit_status].
    + split; [reflexivity|]. split; [reflexivity|discriminate].
    + split; [reflexivity|]. split; [reflexivity|]. intros _.
      split; [reflexivity|]. rewrite Hcl. unfold events. cbn [fst snd].
      destruct He as [-> | ->]; split; reflexivity.
  - cbv zeta. rewrite run_backfill_any_not_iterable.
    destruct (cleanup_line env s) as (e & Hcl & He). rewrite Hcl.
    destruct (connect_src env && connect_tgt env);
      unfold result, final, events; cbn [fst snd exit_status];
      destruct He as [-> | ->]; repeat split; try reflexivity;
      try discriminate; intros _; simpl; auto.
  - intros [tables|]; cbv zeta.
    + change (run_backfill_any env v cfg (Some tables))
        with (run_backfill env v cfg tables).
      rewrite run_backfill_run.
      destruct (connect_src env && connect_tgt env); cbv zeta;
        unfold events at 1; cbn [fst snd].
      * destruct (cleanup_line env
                    (final (table_loop env v cfg
                              (default 5000 (cfg_batch_size cfg)) 0
                              tables s))) as (e & -> & He).
        unfold events at 2. cbn [fst snd].
        match goal with
        | |- exists pre e0, ?a ++ ?b ++ ?c ++ [?x] = _ /\ _ =>
            exists (a ++ b ++ c), x
        end.
        split; [|exact He]. rewrite <- !app_assoc. reflexivity.
      * destruct (cleanup_line env s) as (e & -> & He).
        unfold events. cbn [fst snd]. eexists [_; _; _], e.
        split; [reflexivity|exact He].
    + rewrite run_backfill_any_not_iterable.
      destruct (cleanup_line env s) as (e & -> & He).
      destruct (connect_src env && connect_tgt env);
        unfold events; cbn [fst snd].
      * eexists [_; _; _; _], e. split; [reflexivity|exact He].
      * eexists [_; _; _], e. split; [reflexivity|exact He].
  - intros z Hz. split; [|reflexivity].
    unfold main_tables, load_tables_from_config. cbn.
    destruct (Z.eqb_spec z 0); [contradiction|]. reflexivity.
Qed.

Lemma run_backfill_lines env v cfg tables s :
  let out := run_backfill env v cfg tables s in
  let loop := table_loop env v cfg (default 5000 (cfg_batch_size cfg)) 0
                         tables s in
  (connect_src env && connect_tgt env = true ->
   stats (final out) = stats (final loop) /\
   attempted (events out) = attempted (events loop) /\
   copy_errors (events out) = copy_errors (events loop) /\
   copied (events out) = copied (events loop)) /\
  (connect_src env && connect_tgt env = false ->
   final out = s /\ attempted (events out) = [] /\
   copy_errors (events out) = [] /\ copied (events out) = []).
Proof.
  cbv zeta. rewrite run_backfill_run.
  destruct (connect_src env && connect_tgt env); cbv zeta.
  - split; [|discriminate]. intros _.
    set (loop := table_loop env v cfg (default 5000 (cfg_batch_size cfg)) 0
                            tables s).
    destruct (cleanup_lines env (final loop)) as (_ & Ha & He & Hc).
    change (final (Ok true, final loop,
              [EvLog Info MsgStart; EvLog Info MsgInitOk;
               EvLog Info (MsgBatchSize (default 5000 (cfg_batch_size cfg)))]
              ++ events loop ++ [EvLog Info MsgCompleted]
              ++ events (cleanup env (final loop))))
      with (final loop).
    change (events (Ok true, final loop,
              [EvLog Info MsgStart; EvLog Info MsgInitOk;
               EvLog Info (MsgBatchSize (default 5000 (cfg_batch_size cfg)))]
              ++ events loop ++ [EvLog Info MsgCompleted]
              ++ events (cleanup env (final loop))))
      with ([EvLog Info MsgStart; EvLog Info MsgInitOk;
             EvLog Info (MsgBatchSize (default 5000 (cfg_batch_size cfg)))]
            ++ events loop ++ [EvLog Info MsgCompleted]
            ++ events (cleanup env (final loop))).
    rewrite !attempted_app, !copy_errors_app, !copied_app, Ha, He, Hc.
    simpl. rewrite !app_nil_r. auto.
  - split; [discriminate|]. intros _.
    destruct (cleanup_lines env s) as (_ & Ha & He & Hc).
    change (final (Ok false, s,
              [EvLog Info MsgStart; EvLog Error MsgInitError;
               EvLog Error MsgInitFailed] ++ events (cleanup env s)))
      with s.
    change (events (Ok false, s,
              [EvLog Info MsgStart; EvLog Error MsgInitError;
               EvLog Error MsgInitFailed] ++ events (cleanup env s)))
      with ([EvLog Info MsgStart; EvLog Error MsgInitError;
             EvLog Error MsgInitFailed] ++ events (cleanup env s)).
    rewrite !attempted_app, !copy_errors_app, !copied_app, Ha, He, Hc.
    auto.
Qed.

(** X10. The books of a run. The tables whose copy is started are a prefix
    of the table list, in list order and each once; every started copy logs
    at most one completion or one error; [errors] grows by the number of
    error lines; so [tables_processed] and [errors] together grow by at most
    the number of tables. *)
Theorem run_accounting env v cfg tables s :
  let out := run_backfill env v cfg tables s in
  attempted (events out) `prefix_of` tables /\
  errors (stats (final out))
    = errors (stats s) + Z.of_nat (length (copy_errors (events out))) /\
  (length (copied (events out)) + length (copy_errors (events out))
   <= length (attempted (events out)))%nat /\
  (tables_processed (stats (final out)) - tables_processed (stats s))
  + (errors (stats (final out)) - errors (stats s))
  <= Z.of_nat (length tables).
Proof.
  cbv zeta.
  assert (H : attempted (events (run_backfill env v cfg tables s))
                `prefix_of` tables /\
              errors (stats (final (run_backfill env v cfg tables s)))
              = errors (stats s)
                + Z.of_nat (length (copy_errors
                     (events (run_backfill env v cfg tables s)))) /\
              (length (copied (events (run_backfill env v cfg tables s)))
               + length (copy_errors
                           (events (run_backfill env v cfg tables s)))
               <= length (attempted
                            (events (run_backfill env v cfg tables s))))%nat).
  { pose proof (run_backfill_lines env v cfg tables s) as [Hok Hno].
    cbv zeta in Hok, Hno.
    destruct (connect_src env && connect_tgt env).
    - destruct Hok as (-> & -> & -> & ->); [reflexivity|].
      destruct (table_loop env v cfg (default 5000 (cfg_batch_size cfg)) 0
                  tables s) as [[r s'] evs] eqn:E.
      apply table_loop_lines in E as (P & E1 & C & _).
      unfold final, events. cbn [fst snd]. auto.
    - destruct Hno as (-> & -> & -> & ->); [reflexivity|].
      simpl. split; [apply prefix_nil|]. split; lia. }
  destruct H as (P & E & C). split; [exact P|]. split; [exact E|].
  split; [exact C|].
  destruct (run_backfill env v cfg tables s) as [[r s'] evs] eqn:Erun.
  apply run_backfill_counts in Erun as (_ & Htp).
  unfold final, events in *. cbn [fst snd] in *.
  apply prefix_length in P. lia.
Qed.

Lemma prefix_of_take {A} (l k : list A) i :
  l `prefix_of` k -> (length l <= i)%nat -> l `prefix_of` take i k.
Proof.
  intros [tl ->] Hi. exists (take (i - length l) tl).
  rewrite take_app_ge by exact Hi. reflexivity.
Qed.

(** X11. Shutdown. When a termination signal is delivered before the
    [i]-th check of the running flag, the run starts no copy beyond the first
    [i] tables of the list: the tables attempted are a prefix of the first
    [i], and no more than [i] copies complete. *)
Theorem signal_stops_the_run env v cfg tables s i :
  signal_before env i = true ->
  let out := run_backfill env v cfg tables s in
  attempted (events out) `prefix_of` take i tables /\
  (length (copied (events out)) <= i)%nat.
Proof.
  intros Hsig. cbv zeta.
  pose proof (run_backfill_lines env v cfg tables s) as [Hok Hno].
  cbv zeta in Hok, Hno.
  destruct (connect_src env && connect_tgt env).
  - destruct Hok as (_ & -> & _ & ->); [reflexivity|].
    destruct (table_loop env v cfg (default 5000 (cfg_batch_size cfg)) 0
                tables s) as [[r s'] evs] eqn:E.
    apply table_loop_lines in E as (P & _ & C & _ & Hs & _).
    unfold events. cbn [snd]. specialize (Hs i Hsig).
    split; [apply prefix_of_take; assumption|lia].
  - destruct Hno as (_ & -> & _ & ->); [reflexivity|].
    split; [apply prefix_nil|simpl; lia].
Qed.

(** X12. A failed table does not stop the run. Without signals, with both
    connections open and the running flag up, every table of the list is
    attempted, once and in list order, whatever happens to the tables
    before it; the run ends with the flag still up. *)
Theorem every_table_is_attempted env v cfg tables s :
  undisturbed env -> running s = true ->
  connect_src env && connect_tgt env = true ->
  let out := run_backfill env v cfg tables s in
  attempted (events out) = tables /\ running (final out) = true /\
  (length (copied (events out)) + length (copy_errors (events out))
   <= length tables)%nat.
Proof.
  intros Hund Hrun Hconn. cbv zeta.
  pose proof (run_backfill_lines env v cfg tables s) as [Hok _].
  cbv zeta in Hok. destruct (Hok Hconn) as (Hst & -> & -> & ->).
  rewrite run_backfill_run, Hconn. cbv zeta. unfold final at 1. cbn [fst snd].
  destruct (table_loop env v cfg (default 5000 (cfg_batch_size cfg)) 0
              tables s) as [[r s'] evs] eqn:E.
  apply table_loop_lines in E as (_ & _ & C & _ & _ & Hall).
  destruct (Hall Hund Hrun) as [Ha Hr].
  unfold final, events. cbn [fst snd]. rewrite Ha in C. auto.
Qed.

(** ** Rows are written in stream order *)

Lemma values_of_Some columns row vals :
  row_values row columns = Some vals -> values_of columns row = vals.
Proof. unfold values_of. intros ->. reflexivity. Qed.

(** A flush executes the rows of the batch in order, up to the first that
    fails. *)
Lemma insert_rows_prefix env columns q batch :
  forall s r s' evs,
  insert_rows env columns q batch s = (r, s', evs) ->
  exists k, (k <= length batch)%nat /\
    inserted evs = map (values_of columns) (take k batch) /\
    (forall u, r = Ok u -> k = length batch).
Proof.
  induction batch as [|row rest IH]; simpl; intros s r s' evs H.
  - inv_prim H. exists 0%nat. auto.
  - inv_bind H.
    + apply answer_inv in Hm as (-> & -> & [(vals & Hv & [= ->])|[_ [=]]]).
      apply values_of_Some in Hv. inv_bind H.
      * apply tgt_execute_inv in Hm as (-> & [(_ & _ & ->)|(_ & [=] & _)]).
        apply IH in H as (k & Hk & Hi & Hr). exists (S k).
        split; [lia|]. autorewrite with trace. simpl.
        rewrite Hi, Hv. split; [reflexivity|].
        intros u Hu. f_equal. eauto.
      * apply tgt_execute_inv in H as (-> & [(_ & [=] & _)|(_ & _ & ->)]).
        exists 0%nat. split; [lia|]. split; [reflexivity|discriminate].
    + apply answer_inv in H as (-> & -> & _).
      exists 0%nat. split; [lia|]. split; [reflexivity|discriminate].
Qed.

Lemma take_app_exact {A} (l k : list A) n :
  take (length l + n) (l ++ k) = l ++ take n k.
Proof. apply take_app_add'. reflexivity. Qed.

(** The loop executes the rows it is given in order: first those of the
    batch in hand, then those of the cursor; when it returns, the rows not
    yet executed are the batch it hands on. *)
Lemma stream_batches_prefix env cfg t bsize total columns q all_rows :
  forall current_batch processed batch_num s r s' evs,
  stream_batches env cfg t bsize total columns q all_rows current_batch
                 processed batch_num s = (r, s', evs) ->
  exists k, (k <= length (current_batch ++ all_rows))%nat /\
    inserted evs
    = map (values_of columns) (take k (current_batch ++ all_rows)) /\
    (forall cb p b, r = Ok (cb, p, b) ->
       take k (current_batch ++ all_rows) ++ cb = current_batch ++ all_rows).
Proof.
  induction all_rows as [|row rest IH]; simpl;
    intros cb pc bn s r s' evs H.
  - inv_prim H. exists 0%nat. split; [lia|]. split; [reflexivity|].
    intros cb' p b [= <- _ _]. rewrite app_nil_r. reflexivity.
  - replace (cb ++ row :: rest) with ((cb ++ [row]) ++ rest)
      by (rewrite <- app_assoc; reflexivity).
    destruct (bsize <=? Z.of_nat (length (cb ++ [row]))).
    + inv_bind H.
      * apply insert_rows_prefix in Hm as (k1 & Hk1 & Hi1 & Hr1).
        specialize (Hr1 _ eq_refl). subst k1. rewrite firstn_all in Hi1.
        inv_bind H.
        -- apply when_save_spec in Hm as (_ & _ & S1 & _).
           step_prim H.
           apply IH in H as (k & Hk & Hi & Hr). simpl in Hk, Hi, Hr.
           exists (length (cb ++ [row]) + k)%nat.
           split; [rewrite (length_app (cb ++ [row])); lia|].
           rewrite take_app_exact. autorewrite with trace. simpl.
           rewrite Hi1, S1, Hi, !map_app. simpl. split; [reflexivity|].
           intros cb' p b Hrb. rewrite <- app_assoc. f_equal. eauto.
        -- apply when_save_spec in H as ([=] & _).
      * apply insert_rows_prefix in H as (k1 & Hk1 & Hi1 & _).
        exists k1. split; [rewrite length_app; lia|].
        rewrite take_app_le by exact Hk1.
        split; [exact Hi1|discriminate].
    + apply IH in H as (k & Hk & Hi & Hr). exists k. auto.
Qed.

Lemma flush_remaining_prefix env cfg t bsize total columns q
    current_batch processed batch_num s r s' evs :
  flush_remaining env cfg t bsize total columns q current_batch
                  processed batch_num s = (r, s', evs) ->
  exists k, (k <= length current_batch)%nat /\
    inserted evs = map (values_of columns) (take k current_batch) /\
    (forall c, r = Ok c -> k = length current_batch).
Proof.
  unfold flush_remaining. destruct current_batch as [|row0 cb0] eqn:Ecb.
  - intros H. inv_prim H. exists 0%nat. auto.
  - rewrite <- Ecb. clear Ecb. intros H. inv_bind H.
    + apply insert_rows_prefix in Hm as (k1 & Hk1 & Hi1 & Hr1).
      specialize (Hr1 _ eq_refl). subst k1.
      inv_bind H.
      * apply when_save_spec in Hm as (_ & _ & S1 & _).
        step_prim H. inv_prim H.
        exists (length current_batch). split; [lia|].
        autorewrite with trace. simpl. rewrite Hi1, S1, app_nil_r. auto.
      * apply when_save_spec in H as ([=] & _).
    + apply insert_rows_prefix in H as (k1 & Hk1 & Hi1 & _).
      exists k1. split; [exact Hk1|]. split; [exact Hi1|discriminate].
Qed.

Lemma copy_body_prefix env cfg t bsize s o rows fl r s' evs :
  src_sample env t = Some o -> src_stream env t = Some (rows, fl) ->
  copy_body env cfg t bsize s = (r, s', evs) ->
  exists k, (k <= length rows)%nat /\
    inserted evs = map (values_of (sampled_columns o)) (take k rows) /\
    (copied evs <> [] -> k = length rows /\ fl = false).
Proof.
  intros Hsample Hstream H.
  assert (Hnone : inserted evs = [] -> copied evs = [] ->
            exists k, (k <= length rows)%nat /\
              inserted evs
              = map (values_of (sampled_columns o)) (take k rows) /\
              (copied evs <> [] -> k = length rows /\ fl = false)).
  { intros -> ->. exists 0%nat. split; [lia|]. split; [reflexivity|].
    congruence. }
  unfold copy_body in H.
  step_prim H. inv_bind H.
  2:{ apply report_resume_spec in H as (-> & HQ). open_quiet.
      apply Hnone; trace_simpl; reflexivity. }
  apply report_resume_spec in Hm as (-> & HQ). open_quiet.
  inv_bind H.
  2:{ apply answer_inv in H as (-> & -> & _).
      apply Hnone; trace_simpl; reflexivity. }
  apply answer_inv in Hm as (-> & -> & [(total & Hcount & [= ->])|[_ [=]]]).
  step_prim H.
  destruct (total =? 0).
  { step_prim H. inv_prim H. apply Hnone; trace_simpl; reflexivity. }
  step_prim H. inv_bind H.
  2:{ apply answer_inv in H as (-> & -> & _).
      apply Hnone; trace_simpl; reflexivity. }
  apply answer_inv in Hm as (-> & -> & [(sample & Hs & [= ->])|[_ [=]]]).
  rewrite Hsample in Hs. injection Hs as <-.
  destruct (no_sample o).
  { step_prim H. inv_prim H. apply Hnone; trace_simpl; reflexivity. }
  step_prim H. inv_bind H.
  2:{ apply answer_inv in H as (-> & -> & _).
      apply Hnone; trace_simpl; reflexivity. }
  apply answer_inv in Hm as (-> & -> & [(st & Hst & [= ->])|[_ [=]]]).
  rewrite Hstream in Hst. injection Hst as <-. simpl in H. clear Hnone.
  inv_bind_as H as [[cb pc] bn] sa eva evb Hloop.
  2:{ pose proof (stream_batches_spec _ _ _ _ _ _ _ _ _ _ _ _ _ _ _ H)
        as (_ & _ & _ & R3 & _).
      apply stream_batches_prefix in H as (k & Hk & Hi & _).
      simpl in Hk, Hi. exists k. split; [exact Hk|].
      trace_simpl. split; [exact Hi|]. congruence. }
  simpl in H.
  pose proof (stream_batches_spec _ _ _ _ _ _ _ _ _ _ _ _ _ _ _ Hloop)
    as (_ & _ & _ & R3 & _).
  apply stream_batches_prefix in Hloop as (k1 & Hk1 & Hi1 & Hr1).
  simpl in Hk1, Hi1, Hr1. specialize (Hr1 _ _ _ eq_refl).
  inv_bind_as H as u sb evc evd Hwhen.
  2:{ apply when_inv in H as [[-> H]|(_ & [=] & _)]. inv_prim H.
      exists k1. split; [exact Hk1|]. trace_simpl. rewrite !app_nil_r.
      split; [exact Hi1|]. congruence. }
  assert (sb = sa /\ evc = [] /\ fl = false) as (-> & -> & ->).
  { apply when_inv in Hwhen as [[_ Hw]|(Hfl & _ & -> & ->)];
      [inv_prim Hw|auto]. }
  clear Hwhen.
  assert (Hsplit : forall k2, (k2 <= length cb)%nat ->
            take k1 rows ++ take k2 cb = take (k1 + k2) rows /\
            (k1 + k2 <= length rows)%nat /\
            (k2 = length cb -> (k1 + k2)%nat = length rows)).
  { intros k2 Hk2.
    assert (Hl : length (take k1 rows) = k1)
      by (rewrite length_take; lia).
    assert (Hlen : length rows = (k1 + length cb)%nat).
    { rewrite <- Hr1 at 1. rewrite length_app, Hl. reflexivity. }
    split; [|lia].
    rewrite <- Hr1 at 2. rewrite <- Hl at 2.
    rewrite take_app_exact. reflexivity. }
  inv_bind_as H as [pc' bn'] sc eve evf Hflush.
  2:{ pose proof (flush_remaining_spec _ _ _ _ _ _ _ _ _ _ _ _ _ _ H)
        as (_ & _ & _ & T3 & _).
      apply flush_remaining_prefix in H as (k2 & Hk2 & Hi2 & _).
      destruct (Hsplit _ Hk2) as (Heq & Hle & _).
      exists (k1 + k2)%nat. split; [exact Hle|]. trace_simpl.
      rewrite Hi1, Hi2, <- map_app, Heq. split; [reflexivity|].
      congruence. }
  apply flush_remaining_prefix in Hflush as (k2 & Hk2 & Hi2 & Hr2).
  specialize (Hr2 _ eq_refl). subst k2.
  destruct (Hsplit _ Hk2) as (Heq & Hle & Hall).
  simpl in H.
  inv_bind_as H as m sd evg evh Hmet;
    [|apply get_performance_metrics_spec in H as ([? [=]] & _)].
  apply get_performance_metrics_spec in Hmet as (_ & -> & HQ). open_quiet.
  unfold log_performance_metrics in H.
  step_prim H. step_prim H. step_prim H.
  inv_bind_as H as u2 se evi evj Hclear.
  2:{ apply when_inv in H as [[_ H]|(_ & [=] & _)].
      apply clear_checkpoint_spec in H as ([=] & _). }
  step_prim H. inv_prim H.
  apply when_clear_spec in Hclear as (_ & _ & _ & C3 & _).
  exists (k1 + length cb)%nat. split; [exact Hle|]. trace_simpl.
  rewrite !app_nil_r, Hi1, Hi2, <- map_app, Heq.
  split; [reflexivity|]. intros _. auto.
Qed.

(** X13. Rows reach the target in stream order, each at most once, whatever
    fails. The statements the target executed during a copy are the cells of
    the first [k] rows of the source stream, in order, for some [k]: the
    copier never skips a row, never repeats one and never reorders. When the
    copy logs its completion, [k] is the whole stream and the cursor ended
    normally. *)
Theorem copy_writes_stream_prefix env cfg t bsize s o rows fl :
  src_sample env t = Some o -> src_stream env t = Some (rows, fl) ->
  let out := copy_table_data env cfg t bsize s in
  exists k, (k <= length rows)%nat /\
    inserted (events out)
    = map (values_of (sampled_columns o)) (take k rows) /\
    (copied (events out) <> [] -> k = length rows /\ fl = false).
Proof.
  intros Hsample Hstream. cbv zeta.
  destruct (copy_table_data env cfg t bsize s) as [[r s'] evs] eqn:E.
  unfold events. cbn [snd]. unfold copy_table_data in E. inv_try E.
  - eapply copy_body_prefix; eauto.
  - eapply copy_body_prefix in Hm as (k & Hk & Hi & Hc); eauto.
    step_prim E. step_prim E. inv_prim E.
    exists k. split; [exact Hk|]. trace_simpl. rewrite !app_nil_r. auto.
Qed.

(** ** Completed copies *)

(** A copy that logs its completion went through every phase: the three
    source queries answered, the loop and the trailing flush returned, the
    metrics were collected and recorded, and the checkpoint was cleared. *)
Lemma copy_body_completed env cfg t bsize s r s' evs :
  copy_body env cfg t bsize s = (r, s', evs) -> copied evs <> [] ->
  exists total o rows cb pc bn sa eva bn' sc eve m evm sd evc evr,
    let columns := sampled_columns o in
    let q := make_insert_query t columns in
    let n := pc + Z.of_nat (length cb) in
    r = Ok true /\
    src_count env t = Some total /\ src_sample env t = Some o /\
    src_stream env t = Some (rows, false) /\
    report_resume cfg t s = (Ok tt, s, evr) /\
    stream_batches env cfg t bsize total columns q rows [] 0 0 s
      = (Ok (cb, pc, bn), sa, eva) /\
    flush_remaining env cfg t bsize total columns q cb pc bn sa
      = (Ok (n, bn'), sc, eve) /\
    get_performance_metrics env t (elapsed env t) n sc = (Ok m, sc, evm) /\
    when (enable_resume cfg) (clear_checkpoint env t)
         (set_stats (record_metrics t m) sc) = (Ok tt, sd, evc) /\
    s' = set_stats (count_table n) sd /\
    evs = (EvLog Info (MsgProcessing t) :: evr)
          ++ [EvSrcCount t total; EvLog Info (MsgTotal t total);
              EvLog Info (MsgStreaming t bsize)]
          ++ eva ++ eve ++ evm
          ++ [EvLog Info (MsgMetrics t m); EvLog Info (MsgCopied t n)]
          ++ evc /\
    copied evs = [n] /\ flushes evs = flushes eva ++ flushes eve.
Proof.
  intros H Hne.
  pose proof (copy_body_spec _ _ _ _ _ _ _ _ H) as (_ & _ & _ & Hspec).
  assert (Hraise : forall e, r = Raise e -> False).
  { intros e ->. destruct Hspec as (_ & _ & Hco & _). contradiction. }
  unfold copy_body in H.
  step_prim H. inv_bind_as H as u s0 evr evx Hrep; [|exfalso; eauto].
  pose proof Hrep as Hrep0.
  apply report_resume_spec in Hrep as (-> & HQ). open_quiet.
  destruct u.
  inv_bind H; [|exfalso; eauto].
  apply answer_inv in Hm as (-> & -> & [(total & Hcount & [= ->])|[_ [=]]]).
  step_prim H.
  destruct (total =? 0).
  { step_prim H. inv_prim H. exfalso. apply Hne. trace_simpl. reflexivity. }
  step_prim H. inv_bind H; [|exfalso; eauto].
  apply answer_inv in Hm as (-> & -> & [(o & Hsample & [= ->])|[_ [=]]]).
  destruct (no_sample o).
  { step_prim H. inv_prim H. exfalso. apply Hne. trace_simpl. reflexivity. }
  step_prim H. inv_bind H; [|exfalso; eauto].
  apply answer_inv in Hm as (-> & -> & [([rows fl] & Hstream & [= ->])|[_ [=]]]).
  cbn [fst snd] in H.
  inv_bind_as H as [[cb pc] bn] sa eva evb Hloop; [|exfalso; eauto].
  cbn [fst snd] in H.
  inv_bind_as H as u sb evc0 evd Hwhen; [|exfalso; eauto].
  assert (sb = sa /\ evc0 = [] /\ fl = false) as (-> & -> & ->).
  { apply when_inv in Hwhen as [[_ Hw]|(Hfl & _ & -> & ->)];
      [inv_prim Hw|auto]. }
  clear Hwhen.
  inv_bind_as H as [pc' bn'] sc eve evf Hflush; [|exfalso; eauto].
  pose proof (stream_batches_spec _ _ _ _ _ _ _ _ _ _ _ _ _ _ _ Hloop)
    as (_ & _ & _ & R3 & _).
  pose proof (flush_remaining_spec _ _ _ _ _ _ _ _ _ _ _ _ _ _ Hflush)
    as (_ & _ & _ & T3 & _ & _ & _ & _ & Hpc & _).
  subst pc'. cbn [fst] in H.
  inv_bind_as H as m sd evm evh Hmet; [|exfalso; eauto].
  pose proof Hmet as Hmet0.
  apply get_performance_metrics_spec in Hmet as (_ & -> & HQ). open_quiet.
  unfold log_performance_metrics in H.
  step_prim H. step_prim H. step_prim H.
  inv_bind_as H as u2 se evi evj Hclear; [|exfalso; eauto].
  destruct u2. step_prim H. inv_prim H.
  pose proof (when_clear_spec _ _ _ _ _ _ _ Hclear)
    as (_ & _ & _ & _ & _ & _ & _ & C5 & C6 & _).
  exists total, o, rows, cb, pc, bn, sa, eva, bn', sc, eve, m, evm, se,
    evi, evr.
  cbv zeta. repeat (split; [first [reflexivity|assumption]|]).
  split; [|split].
  - rewrite app_nil_r.
    repeat (rewrite <- app_assoc || rewrite <- app_comm_cons). reflexivity.
  - trace_simpl. rewrite ?app_nil_r. reflexivity.
  - trace_simpl. rewrite ?app_nil_r. reflexivity.
Qed.

Lemma copy_table_data_completed env cfg t bsize s r s' evs :
  copy_table_data env cfg t bsize s = (r, s', evs) -> copied evs <> [] ->
  copy_body env cfg t bsize s = (r, s', evs).
Proof.
  intros H Hne. unfold copy_table_data in H. inv_try H; [exact H|].
  exfalso. apply copy_body_spec in Hm as (_ & _ & _ & _ & _ & Hco & _).
  step_prim H. step_prim H. inv_prim H. apply Hne.
  trace_simpl. reflexivity.
Qed.

(** X14. The metrics of a completed copy. A copy that logs its completion
    with [n] records stores, under its table, the metrics it logged. When
    psutil answers, they carry [n] records, the measured duration and the
    two psutil readings, with a rate of 0 for a duration that is not
    positive and, for a positive one, the quotient of [n] by the duration
    as the machine rounds it. When psutil raises, the copy still
    completes and counts its [n] records, but the stored metrics are the
    all-zero defaults: the record count and the duration of the table are
    dropped. *)
Theorem completed_copy_records_metrics env cfg t bsize s n :
  let out := copy_table_data env cfg t bsize s in
  copied (events out) = [n] ->
  exists m,
    performance_metrics (stats (final out)) !! t = Some m /\
    In (EvLog Info (MsgMetrics t m)) (events out) /\
    records_processed (stats (final out)) = records_processed (stats s) + n /\
    match psutil_sample env t with
    | None => m = default_metrics
    | Some (mem, cpu) =>
        total_records m = n /\ duration_seconds m = elapsed env t /\
        memory_usage_percent m = mem /\ cpu_usage_percent m = cpu /\
        ((elapsed env t <= 0)%Q -> records_per_second m = 0%Q) /\
        ((0 < elapsed env t)%Q ->
         records_per_second m = float_div env (inject_Z n) (elapsed env t))
    end.
Proof.
  cbv zeta.
  destruct (copy_table_data env cfg t bsize s) as [[r s'] evs] eqn:E.
  unfold final, events. cbn [fst snd]. intros Hco.
  assert (Hne : copied evs <> []) by (rewrite Hco; discriminate).
  apply copy_table_data_completed in E; [|exact Hne].
  pose proof (copy_body_spec _ _ _ _ _ _ _ _ E) as Hspec.
  apply copy_body_completed in E; [|exact Hne].
  destruct E as (total & o & rows & cb & pc & bn & sa & eva & bn' & sc & eve
                 & m & evm & sd & evc & evr & E).
  cbv zeta in E.
  destruct E as (-> & _ & _ & _ & _ & Hloop & Hflush & Hmet & Hclear & ->
                 & -> & Hn & _).
  rewrite Hn in Hco. injection Hco as <-.
  apply when_clear_spec in Hclear as (_ & Hst & _).
  pose proof (stream_batches_spec _ _ _ _ _ _ _ _ _ _ _ _ _ _ _ Hloop)
    as ((S1 & _) & _).
  pose proof (flush_remaining_spec _ _ _ _ _ _ _ _ _ _ _ _ _ _ Hflush)
    as ((S2 & _) & _).
  exists m. split.
  { cbn. rewrite Hst. cbn. apply lookup_insert_eq. }
  split.
  { rewrite !in_app_iff. right. right. right. right. right. left.
    left. reflexivity. }
  split.
  { cbn. rewrite Hst. cbn. rewrite S2, S1. reflexivity. }
  unfold get_performance_metrics in Hmet.
  destruct (psutil_sample env t) as [[mem cpu]|].
  - injection Hmet as <- _. cbn.
    repeat (split; [reflexivity|]).
    destruct (Qlt_le_dec 0 (elapsed env t)) as [Hpos|Hle].
    + split; [|reflexivity].
      intros Hle. exfalso. eapply Qlt_not_le; eauto.
    + split; [reflexivity|]. intros Hpos. exfalso.
      eapply Qlt_not_le; eauto.
  - injection Hmet as <- _. reflexivity.
Qed.

(** X15. A completed copy leaves no checkpoint behind. With resume enabled
    and file removals that succeed, after a copy that logs its completion
    the checkpoint directory holds no file for the table, whether the file
    was written by this copy or was left by an earlier run; a later load
    finds nothing and logs nothing. *)
Theorem completed_copy_leaves_no_checkpoint env cfg t bsize s :
  enable_resume cfg = true ->
  (forall n, fs_remove_ok env n = true) ->
  let out := copy_table_data env cfg t bsize s in
  copied (events out) <> [] ->
  files (final out) !! checkpoint_file t = None /\
  load_checkpoint t (final out) = (Ok None, final out, []).
Proof.
  intros Hres Hrm. cbv zeta.
  destruct (copy_table_data env cfg t bsize s) as [[r s'] evs] eqn:E.
  unfold final, events. cbn [fst snd]. intros Hne.
  apply copy_table_data_completed in E; [|exact Hne].
  apply copy_body_completed in E; [|exact Hne].
  destruct E as (total & o & rows & cb & pc & bn & sa & eva & bn' & sc & eve
                 & m & evm & sd & evc & evr & E).
  cbv zeta in E.
  destruct E as (_ & _ & _ & _ & _ & _ & _ & _ & Hclear & -> & _).
  rewrite Hres in Hclear. cbn [when] in Hclear.
  unfold clear_checkpoint in Hclear. rewrite Hrm in Hclear.
  assert (Hgone : files sd !! checkpoint_file t = None).
  { destruct (files (set_stats (record_metrics t m) sc) !! checkpoint_file t)
      eqn:Hf; injection Hclear as <- _.
    - cbn. apply lookup_delete_eq.
    - exact Hf. }
  split; [exact Hgone|].
  rewrite load_checkpoint_run. unfold read_checkpoint.
  cbn [files set_stats]. rewrite Hgone. reflexivity.
Qed.

(** ** Batch sizes below one *)

(** With a batch size of 1 or less every row fills its batch: the loop
    flushes after each row and hands on an empty batch. *)
Lemma stream_batches_unit env cfg t bsize total columns q all_rows :
  bsize <= 1 ->
  forall processed batch_num s cb pc bn s' evs,
  stream_batches env cfg t bsize total columns q all_rows []
                 processed batch_num s = (Ok (cb, pc, bn), s', evs) ->
  cb = [] /\
  flushes evs = map (fun i => processed + Z.of_nat i)
                    (seq 1 (length all_rows)).
Proof.
  intros Hb. induction all_rows as [|row rest IH];
    intros p0 b0 s cb pc bn s' evs H.
  - inv_prim H. auto.
  - cbn [stream_batches app length] in H.
    destruct (Z.leb_spec bsize (Z.of_nat 1)) as [_|?]; [|lia].
    inv_bind_as H as u sa eva evb Hins.
    apply insert_rows_spec in Hins as (_ & Hq & _).
    apply statements_only_quiet in Hq as (_ & _ & _ & Q4 & _).
    inv_bind_as H as u2 sb evc evd Hsave.
    apply when_save_flushes in Hsave as (_ & _ & F2).
    step_prim H.
    apply IH in H as (-> & Hfl). split; [reflexivity|].
    autorewrite with trace. rewrite Q4, F2, Hfl. cbn [app length].
    change (seq 1 (S (length rest))) with (1%nat :: seq 2 (length rest)).
    rewrite <- (seq_shift (length rest) 1), map_cons, map_map.
    change (flushes []) with (@nil Z). cbn [app]. f_equal.
    apply map_ext. intros i. lia.
Qed.

(** X16. Batch sizes below one. With a batch size of 1, 0 or a negative
    number, the test [len(current_batch) >= batch_size] holds after every
    row: a copy that completes has flushed each row on its own, so it logs
    one progress line per row, counting 1, 2, ..., N. *)
Theorem unit_batches_flush_every_row env cfg t bsize s rows fl :
  bsize <= 1 -> src_stream env t = Some (rows, fl) ->
  let out := copy_table_data env cfg t bsize s in
  copied (events out) <> [] ->
  flushes (events out) = map Z.of_nat (seq 1 (length rows)) /\
  copied (events out) = [Z.of_nat (length rows)].
Proof.
  intros Hb Hstream. cbv zeta.
  destruct (copy_table_data env cfg t bsize s) as [[r s'] evs] eqn:E.
  unfold events. cbn [snd]. intros Hne.
  apply copy_table_data_completed in E; [|exact Hne].
  apply copy_body_completed in E; [|exact Hne].
  destruct E as (total & o & rows' & cb & pc & bn & sa & eva & bn' & sc & eve
                 & m & evm & sd & evc & evr & E).
  cbv zeta in E.
  destruct E as (_ & _ & _ & Hst & _ & Hloop & Hflush & _ & _ & _ & _
                 & Hco & Hfl).
  rewrite Hstream in Hst. injection Hst as <- ->.
  pose proof (stream_batches_spec _ _ _ _ _ _ _ _ _ _ _ _ _ _ _ Hloop)
    as (_ & _ & _ & _ & _ & _ & _ & _ & Hpc & _).
  apply stream_batches_unit in Hloop as (-> & Hfa); [|exact Hb].
  cbn [flush_remaining] in Hflush. inv_prim Hflush.
  rewrite Hfl, Hfa, Hco. cbn [flushes omap app length] in *.
  rewrite app_nil_r. split.
  - apply map_ext. intros i. lia.
  - f_equal. lia.
Qed.

(** ** The executor under failures *)



Lemma statements_only_lines evs :
  statements_only evs ->
  completions evs = [] /\ batch_failures evs = [] /\
  forall p, started p evs = [].
Proof.
  induction 1 as [|e evs He _ IH]; [auto|].
  destruct e; try contradiction; exact IH.
Qed.



(** The fallback has no handler of its own: it stops at the first statement
    that fails. *)
Lemma fallback_rows_spec env columns q batch :
  forall n s r s' evs,
  fallback_rows env columns q batch n s = (r, s', evs) ->
  statements_only evs /\ fails_last evs /\
  match r with
  | Ok x => x = n + Z.of_nat (length batch) /\ failed evs = []
  | Raise e => e = DriverError \/ failed evs = []
  end.
Proof.
  induction batch as [|row rest IH]; intros n s r s' evs H.
  - inv_prim H. split; [constructor|]. split; [left; reflexivity|].
    simpl. split; [lia|reflexivity].
  - cbn [fallback_rows] in H. inv_bind H.
    + apply answer_inv in Hm as (-> & -> & [(vals & Hv & [= ->])|[_ [=]]]).
      inv_bind H.
      * apply tgt_execute_inv in Hm as (-> & [(_ & _ & ->)|(_ & [=] & _)]).
        apply IH in H as (Hst & Hfl & Hr). split; [|split].
        -- constructor; [exact I|exact Hst].
        -- apply (fails_last_app [_]); [reflexivity|exact Hfl].
        -- destruct r as [x|e].
           ++ destruct Hr as [-> Hf]. split; [cbn [length]; lia|].
              autorewrite with trace. simpl. exact Hf.
           ++ destruct Hr as [->|Hf]; [auto|right].
              autorewrite with trace. simpl. exact Hf.
      * apply tgt_execute_inv in H as (-> & [(_ & [=] & _)|(_ & [= ->] & ->)]).
        split; [repeat constructor|]. split; [|auto].
        right. exists [], q, vals. auto.
    + apply answer_inv in H as (-> & -> & _).
      split; [constructor|]. split; [left; reflexivity|]. right. reflexivity.
Qed.

Lemma fallback_batches_spec env columns q batches :
  forall i n s r s' evs,
  fallback_batches env columns q i batches n s = (r, s', evs) ->
  fails_last evs /\ started Concurrent evs = [] /\
  match r with
  | Ok x => x = n + total_rows batches /\ failed evs = [] /\
            started Sequential evs = seq i (length batches)
  | Raise e => e = DriverError \/ failed evs = []
  end.
Proof.
  induction batches as [|batch rest IH]; intros i n s r s' evs H.
  - inv_prim H. split; [left; reflexivity|]. split; [reflexivity|].
    unfold total_rows. simpl. split; [lia|auto].
  - cbn [fallback_batches] in H. step_prim H.
    inv_bind_as H as n' sa eva evb Hrows.
    + apply fallback_rows_spec in Hrows as (Hst & _ & -> & Hf).
      apply statements_only_lines in Hst as (_ & _ & Hs).
      apply IH in H as (Hfl & Hc & Hr).
      split; [|split].
      * apply (fails_last_app [_]); [reflexivity|].
        apply fails_last_app; assumption.
      * autorewrite with trace. simpl. rewrite Hs, Hc. reflexivity.
      * destruct r as [x|e].
        -- destruct Hr as (-> & Hf2 & Hseq). unfold total_rows.
           cbn [map sum_list length seq]. split; [unfold total_rows; lia|].
           autorewrite with trace. simpl. rewrite Hf, Hf2, Hs, Hseq.
           auto.
        -- destruct Hr as [->|Hf2]; [auto|right].
           autorewrite with trace. simpl. rewrite Hf, Hf2. reflexivity.
    + apply fallback_rows_spec in H as (Hst & Hfl & Hr).
      apply statements_only_lines in Hst as (_ & _ & Hs).
      split; [|split].
      * apply (fails_last_app [_]); [reflexivity|exact Hfl].
      * autorewrite with trace. simpl. apply Hs.
      * destruct Hr as [->|Hf]; [auto|right].
        autorewrite with trace. simpl. exact Hf.
Qed.

(** X18. The sequential fallback does not tolerate a failing statement. When
    the pool cannot be created ([max_workers] not positive) and the target
    refuses a statement, the exception leaves [process_batch_parallel]: the
    call raises, the refused statement is the last thing it did, and the
    rows and batches after it are not applied; on the concurrent path the
    same failure is logged and survived. *)
Theorem fallback_write_failure_propagates env cfg pool batches t columns q s
    q' vals :
  max_workers cfg <= 0 ->
  let out := process_batch_parallel env cfg pool batches t columns q s in
  In (EvInsertFailed q' vals) (events out) ->
  result out = Raise DriverError /\
  started Concurrent (events out) = [] /\
  exists pre, events out = pre ++ [EvInsertFailed q' vals] /\ failed pre = [].
Proof.
  intros Hw. cbv zeta.
  destruct (process_batch_parallel env cfg pool batches t columns q s)
    as [[r s'] evs] eqn:E.
  unfold result, events; cbn [fst snd]. unfold process_batch_parallel in E.
  destruct (Z.leb_spec (max_workers cfg) 0) as [_|?]; [|lia].
  inv_try E; [inv_prim E|]. inv_prim Hm. step_prim E.
  apply fallback_batches_spec in E as (Hfl & Hc & Hr).
  intros Hin. cbn [app] in Hin. destruct Hin as [[=]|Hin].
  pose proof (failed_In _ _ _ Hin) as Hne.
  destruct (fails_last_In _ _ _ Hfl Hin) as (pre & -> & Hpre).
  split; [|split].
  - destruct r as [x|e].
    + destruct Hr as (_ & Hf & _). contradiction.
    + destruct Hr as [->|Hf]; [reflexivity|contradiction].
  - autorewrite with trace in Hc. autorewrite with trace. simpl. exact Hc.
  - exists (EvLog Error MsgParallelFailed :: pre). split; [reflexivity|].
    autorewrite with trace. simpl. exact Hpre.
Qed.

(** ** The count check and the detailed check *)

(** X19. The two validators. [verify_data_integrity] reports a match
    exactly when both counts are obtained and equal. Whenever the detailed
    validator passes a table the count check passes it too; the converse
    fails as soon as a sampled row differs. *)
Theorem detailed_validation_implies_count_check v t s :
  ((verify_data_integrity v t).1 = true <->
   exists n, val_src_count v t = Some n /\ val_tgt_count v t = Some n) /\
  (result (validate_data_integrity_detailed v t s) = Ok true ->
   (verify_data_integrity v t).1 = true) /\
  (forall i, In (EvLog Error (MsgSampleMismatch i))
                (events (validate_data_integrity_detailed v t s)) ->
             (verify_data_integrity v t).1 = true).
Proof.
  assert (Hiff : (verify_data_integrity v t).1 = true <->
            exists n, val_src_count v t = Some n /\ val_tgt_count v t = Some n).
  { unfold verify_data_integrity.
    destruct (val_src_count v t) as [a|]; [|split; [discriminate|]].
    2:{ intros (n & [=] & _). }
    destruct (val_tgt_count v t) as [b|]; [|split; [discriminate|]].
    2:{ intros (n & _ & [=]). }
    cbn. split.
    - intros H. apply Z.eqb_eq in H as ->. eauto.
    - intros (n & [= ->] & [= ->]). apply Z.eqb_refl. }
  split; [exact Hiff|]. split.
  - intros H. apply Hiff. eapply validate_true_counts. exact H.
  - intros i Hin. apply Hiff.
    unfold validate_data_integrity_detailed, try_except, bind, answer,
      events in Hin.
    destruct (val_src_count v t) as [sc|]; simpl in Hin;
      [|destruct Hin as [[=]|[]]].
    destruct (val_tgt_count v t) as [tc|]; simpl in Hin;
      [|destruct Hin as [[=]|[]]].
    destruct (Z.eqb_spec sc tc) as [<-|Hne]; simpl in Hin;
      [eauto|destruct Hin as [[=]|[]]].
Qed.

(** ** [write_data] *)

Lemma executed_batches_app a b :
  executed_batches (a ++ b) = executed_batches a ++ executed_batches b.
Proof. apply omap_app. Qed.
Lemma write_errors_app a b : write_errors (a ++ b) = write_errors a ++ write_errors b.
Proof. apply omap_app. Qed.

Lemma executed_batches_prepare q l :
  executed_batches (SePrepare q :: l) = executed_batches l.
Proof. reflexivity. Qed.
Lemma write_errors_prepare q l :
  write_errors (SePrepare q :: l) = write_errors l.
Proof. reflexivity. Qed.

(** The loop of [write_data], whatever the session does: the statements
    executed are, in order, those of the open batch followed by those of the
    rows, up to some point; when the loop ends normally, what is not yet
    executed is the batch it hands on. *)
Lemma write_rows_prefix ses t columns batch_size rows :
  forall i batch executed,
  let run := write_rows ses t columns batch_size rows i batch executed in
  concat (executed_batches run.1)
    `prefix_of` batch ++ map (values_of columns) rows /\
  write_errors run.1 = [] /\
  match run.2 with
  | inr (batch', executed') =>
      concat (executed_batches run.1) ++ batch'
      = batch ++ map (values_of columns) rows /\
      executed' = (executed + length (executed_batches run.1))%nat
  | inl _ => True
  end.
Proof.
  induction rows as [|row rest IH]; intros i batch executed; cbv zeta.
  - cbn. rewrite app_nil_r. split; [apply prefix_nil|]. split; [reflexivity|].
    split; [reflexivity|lia].
  - cbn [write_rows map].
    destruct (row_values row columns) as [values|] eqn:Hv;
      [|cbn; split; [apply prefix_nil|auto]].
    apply values_of_Some in Hv. rewrite Hv.
    destruct (add_ok ses (length batch)); cbn [negb];
      [|cbn; split; [apply prefix_nil|auto]].
    destruct (batch_size =? 0); [cbn; split; [apply prefix_nil|auto]|].
    replace (batch ++ values :: map (values_of columns) rest)
      with ((batch ++ [values]) ++ map (values_of columns) rest)
      by (rewrite <- app_assoc; reflexivity).
    destruct ((Z.of_nat i + 1) mod batch_size =? 0); [|apply IH].
    destruct (execute_ok ses executed (batch ++ [values]));
      [|cbn; split; [apply prefix_nil|auto]].
    specialize (IH (S i) [] (S executed)). cbv zeta in IH.
    destruct (write_rows ses t columns batch_size rest (S i) [] (S executed))
      as [evs r]. cbn [fst snd] in *.
    destruct IH as (Hp & He & Hr).
    change (executed_batches (SeExecute (batch ++ [values])
              :: SeLog Info (NoteInserted t (Z.of_nat i + 1)) :: evs))
      with ((batch ++ [values]) :: executed_batches evs).
    change (write_errors (SeExecute (batch ++ [values])
              :: SeLog Info (NoteInserted t (Z.of_nat i + 1)) :: evs))
      with (write_errors evs).
    cbn [concat]. split; [|split; [exact He|]].
    + apply prefix_app. exact Hp.
    + destruct r as [e|[batch' executed']]; [exact I|].
      destruct Hr as [Hc ->]. rewrite <- app_assoc, Hc.
      split; [reflexivity|]. cbn [length]. lia.
Qed.

(** X20. [write_data] tells its caller nothing. Whatever fails after the
    statement is prepared (a row without a column, a batch the session
    refuses), the call returns normally; it raises only when the prepare
    itself fails, before anything is written. The statements executed are
    the cells of a prefix of the rows, in order: once something fails the
    remaining rows are dropped. Only the log tells: when rows and columns
    are given and no error line is logged, every row was executed. *)
Theorem write_data_swallows_failures ses t rows columns batch_size :
  let out := write_data ses t rows columns batch_size in
  (out.2 = Ok tt \/
   (out.2 = Raise DriverError /\ out.1 = [] /\ rows <> [] /\ columns <> [] /\
    prepare_ok ses (make_insert_query t columns) = false)) /\
  concat (executed_batches out.1) `prefix_of` map (values_of columns) rows /\
  (rows <> [] -> columns <> [] -> out.2 = Ok tt -> write_errors out.1 = [] ->
   concat (executed_batches out.1) = map (values_of columns) rows).
Proof.
  cbv zeta. unfold write_data.
  destruct rows as [|row0 rows0] eqn:Hrows.
  { cbn. split; [auto|]. split; [apply prefix_nil|congruence]. }
  destruct columns as [|col0 cols0] eqn:Hcols.
  { cbn. split; [auto|]. split; [apply prefix_nil|congruence]. }
  rewrite <- Hrows, <- Hcols. cbv zeta.
  destruct (prepare_ok ses (make_insert_query t columns)) eqn:Hprep;
    cbn [negb].
  2:{ cbn. split; [|split; [apply prefix_nil|discriminate]].
      right. rewrite Hrows, Hcols. repeat split; discriminate. }
  pose proof (write_rows_prefix ses t columns batch_size rows 0 [] 0)
    as (Hp & He & Hr).
  cbv zeta in Hp, He, Hr. cbn [app] in Hp, Hr.
  destruct (write_rows ses t columns batch_size rows 0 [] 0) as [evs r].
  cbn [fst snd] in *.
  destruct r as [e|[[|v batch] executed]]; cbn [fst snd];
    try destruct (execute_ok ses executed (v :: batch)); cbn [fst snd];
    rewrite ?executed_batches_prepare, ?write_errors_prepare.
  - split; [auto|]. rewrite executed_batches_app, write_errors_app.
    cbn. rewrite !app_nil_r. split; [exact Hp|].
    intros _ _ _ H. apply app_eq_nil in H as [_ [=]].
  - split; [auto|]. destruct Hr as [Hc _]. rewrite app_nil_r in Hc.
    cbn. split; [exact Hp|]. intros _ _ _ _. exact Hc.
  - destruct Hr as [Hc _].
    split; [auto|]. rewrite executed_batches_app. cbn.
    rewrite concat_app. cbn. rewrite app_nil_r, Hc.
    split; [reflexivity|]. auto.
  - split; [auto|]. rewrite executed_batches_app, write_errors_app. cbn.
    rewrite !app_nil_r. split; [exact Hp|].
    intros _ _ _ H. apply app_eq_nil in H as [_ [=]].
Qed.

(** X21. A batch size of zero writes nothing. With [batch_size = 0] the
    test [(i + 1) % batch_size] raises on the first row, inside the [try]:
    whatever the rows are and whatever the session would do, no batch is
    executed, and a call that got its statement prepared returns normally
    with one error line. *)
Theorem write_data_with_batch_size_zero ses t rows columns :
  let out := write_data ses t rows columns 0 in
  executed_batches out.1 = [] /\
  (rows <> [] -> columns <> [] ->
   prepare_ok ses (make_insert_query t columns) = true ->
   out = ([SePrepare (make_insert_query t columns);
           SeLog Error (NoteWriteError t)], Ok tt)).
Proof.
  cbv zeta. unfold write_data.
  destruct rows as [|row0 rows0]; [cbn; split; [reflexivity|congruence]|].
  destruct columns as [|col0 cols0];
    [cbn; split; [reflexivity|congruence]|].
  cbv zeta.
  destruct (prepare_ok ses (make_insert_query t (col0 :: cols0)));
    cbn [negb]; [|cbn; split; [reflexivity|discriminate]].
  cbn [write_rows].
  destruct (row_values row0 (col0 :: cols0)) as [values|];
    [destruct (add_ok ses (length (@nil (list Value)))); cbn [negb]|];
    cbn; split; reflexivity || (intros _ _ _; reflexivity).
Qed.

Lemma succ_mod i B :
  0 < B -> 0 <= i ->
  ((i + 1) mod B = 0 /\ i mod B + 1 = B) \/
  ((i + 1) mod B = i mod B + 1 /\ i mod B + 1 < B).
Proof.
  intros HB Hi. pose proof (Z.mod_pos_bound i B HB) as Hr.
  pose proof (Z.div_mod i B ltac:(lia)) as Hdm.
  destruct (Z.eq_dec (i mod B + 1) B) as [He|Hne].
  - left. split; [|exact He]. symmetry.
    apply (Z.mod_unique _ _ (i / B + 1)); [lia|]. lia.
  - right. split; [|lia]. symmetry.
    apply (Z.mod_unique _ _ (i / B)); lia.
Qed.

(** Python's [%] by a negative number is zero exactly when [%] by its
    absolute value is. *)
Lemma mod_abs_zero a b : b <> 0 -> (a mod b =? 0) = (a mod Z.abs b =? 0).
Proof.
  intros Hb. apply eq_true_iff_eq. rewrite !Z.eqb_eq.
  rewrite !Z.mod_divide by lia. symmetry. apply Z.divide_abs_l.
Qed.

Lemma concat_length_uniform {A} (l : list (list A)) B :
  Forall (fun x => Z.of_nat (length x) = B) l ->
  Z.of_nat (length (concat l)) = B * Z.of_nat (length l).
Proof.
  induction 1 as [|x l Hx _ IH]; [simpl; lia|].
  cbn [concat length]. rewrite length_app. lia.
Qed.

(** The loop with a session without faults: it executes a batch each time
    the open batch reaches [|batch_size|] statements and never otherwise. *)
Lemma write_rows_chunks ses t columns batch_size rows :
  session_ok ses -> batch_size <> 0 ->
  Forall (has_columns columns) rows ->
  forall i batch executed,
  Z.of_nat (length batch) = Z.of_nat i mod Z.abs batch_size ->
  let run := write_rows ses t columns batch_size rows i batch executed in
  exists batch' executed',
    run.2 = inr (batch', executed') /\
    Forall (fun x => Z.of_nat (length x) = Z.abs batch_size)
           (executed_batches run.1) /\
    Z.of_nat (length batch')
    = Z.of_nat (i + length rows) mod Z.abs batch_size.
Proof.
  intros (_ & Hadd & Hex) Hb Hcols. set (B := Z.abs batch_size).
  assert (HB : 0 < B) by (unfold B; lia).
  induction Hcols as [|row rest [values Hv] _ IH];
    intros i batch executed Hlen; cbv zeta.
  - cbn. exists batch, executed. rewrite Nat.add_0_r. auto.
  - cbn [write_rows]. rewrite Hv, Hadd. cbn [negb].
    destruct (Z.eqb_spec batch_size 0) as [?|_]; [contradiction|].
    rewrite mod_abs_zero by exact Hb. fold B.
    replace (i + length (row :: rest))%nat with (S i + length rest)%nat
      by (cbn [length]; lia).
    destruct (succ_mod (Z.of_nat i) B HB ltac:(lia)) as [[Hz Hfull]|[Hs Hlt]].
    + rewrite Hz. cbn [Z.eqb]. rewrite Hex.
      specialize (IH (S i) [] (S executed)). cbv zeta in IH.
      destruct IH as (batch' & executed' & Hr & Hall & Hl).
      { cbn [length]. rewrite Nat2Z.inj_succ. unfold Z.succ. lia. }
      destruct (write_rows ses t columns batch_size rest (S i) [] (S executed))
        as [evs r]. cbn [fst snd] in *.
      exists batch', executed'. split; [exact Hr|]. split; [|exact Hl].
      change (executed_batches (SeExecute (batch ++ [values])
                :: SeLog Info (NoteInserted t (Z.of_nat i + 1)) :: evs))
        with ((batch ++ [values]) :: executed_batches evs).
      constructor; [|exact Hall]. rewrite length_app. cbn [length]. lia.
    + destruct (Z.eqb_spec ((Z.of_nat i + 1) mod B) 0) as [Hz|_]; [lia|].
      apply IH. rewrite length_app. cbn [length].
      rewrite Nat2Z.inj_succ. unfold Z.succ. lia.
Qed.

(** X22. [write_data] without faults. With a session that accepts
    everything, rows that have the columns, and a batch size other than 0,
    every row is executed, in order, in [ceil(N / |batch_size|)] batches,
    none of them empty and none larger than [|batch_size|]; a negative
    batch size works as its absolute value. *)
Theorem write_data_batches ses t rows columns batch_size :
  session_ok ses -> batch_size <> 0 -> rows <> [] -> columns <> [] ->
  Forall (has_columns columns) rows ->
  let out := write_data ses t rows columns batch_size in
  out.2 = Ok tt /\ write_errors out.1 = [] /\
  concat (executed_batches out.1) = map (values_of columns) rows /\
  Forall (fun x => 0 < Z.of_nat (length x) <= Z.abs batch_size)
         (executed_batches out.1) /\
  Z.of_nat (length (executed_batches out.1))
  = ceil_div (Z.of_nat (length rows)) (Z.abs batch_size).
Proof.
  intros Hses Hb Hrows Hcolumns Hcols. cbv zeta.
  pose proof (write_rows_prefix ses t columns batch_size rows 0 [] 0)
    as (_ & He & Hr).
  pose proof (write_rows_chunks ses t columns batch_size rows Hses Hb Hcols
                0 [] 0) as Hch.
  cbv zeta in He, Hr, Hch.
  destruct Hch as (batch' & executed' & Hrun & Hall & Hlen).
  { cbn. rewrite Z.mod_0_l by lia. reflexivity. }
  set (B := Z.abs batch_size) in *.
  assert (HB : 0 < B) by (unfold B; lia).
  unfold write_data.
  destruct rows as [|row0 rows0] eqn:Erows; [contradiction|].
  destruct columns as [|col0 cols0] eqn:Ecols; [contradiction|].
  rewrite <- Erows, <- Ecols in *. cbv zeta.
  destruct Hses as (Hprep & _ & Hex). rewrite Hprep. cbn [negb].
  destruct (write_rows ses t columns batch_size rows 0 [] 0) as [evs r].
  cbn [fst snd] in *. subst r. destruct Hr as [Hc _]. cbn [app] in Hc.
  cbn [Nat.add] in Hlen.
  pose proof (concat_length_uniform _ _ Hall) as Hcl.
  assert (HN : Z.of_nat (length rows)
               = B * Z.of_nat (length (executed_batches evs))
                 + Z.of_nat (length batch')).
  { rewrite <- (length_map (values_of columns) rows), <- Hc, length_app.
    lia. }
  pose proof (Z.mod_pos_bound (Z.of_nat (length rows)) B HB) as Hm.
  assert (Hsize : Forall (fun x => 0 < Z.of_nat (length x) <= B)
                         (executed_batches evs)).
  { eapply Forall_impl; [exact Hall|]. intros x Hx. simpl in Hx. lia. }
  destruct batch' as [|v batch]; cbn [fst snd].
  - rewrite executed_batches_prepare, write_errors_prepare.
    rewrite app_nil_r in Hc. split; [reflexivity|]. split; [exact He|].
    split; [exact Hc|]. split; [exact Hsize|].
    rewrite HN. cbn [length]. rewrite ceil_div_split by lia.
    rewrite decide_True by reflexivity. lia.
  - rewrite Hex. cbn [fst snd].
    rewrite executed_batches_prepare, write_errors_prepare,
      executed_batches_app, write_errors_app, He.
    cbn. rewrite concat_app. cbn. rewrite app_nil_r.
    split; [reflexivity|]. split; [reflexivity|]. split; [exact Hc|].
    split.
    + apply Forall_app. split; [exact Hsize|].
      constructor; [|constructor]. cbn [length] in Hlen |- *. lia.
    + rewrite length_app. cbn [length] in *. rewrite HN.
      rewrite ceil_div_split by lia.
      rewrite decide_False by lia. lia.
Qed.

(** ** The table list *)

Lemma existsb_is_tables l : existsb is_tables l = true <-> In (JStr "tables") l.
Proof.
  rewrite existsb_exists. split.
  - intros (x & Hin & Hx). destruct x; try discriminate.
    simpl in Hx. apply String.eqb_eq in Hx as ->. exact Hin.
  - intros Hin. exists (JStr "tables"). split; [exact Hin|reflexivity].
Qed.

(** X23. The table list of a run. [load_tables_from_config] returns the
    value under ["tables"] of a JSON object, whatever that value is, and a
    JSON list as it is unless the list itself holds the string ["tables"]:
    then the lookup [config['tables']] raises and the whole list is dropped
    with a warning. Everything else gives [[]]. [main] never runs with an
    empty table list: tables named on the command line win, and a missing,
    broken or empty configuration gives the six default tables. *)
Theorem table_list_of_a_run file :
  (forall l, file = Some (Text (Some (JArr l))) ->
     (In (JStr "tables") l ->
      load_tables_from_config file = (JArr [], [(Warning, NoteTablesFailed)]))
     /\ (~ In (JStr "tables") l ->
         load_tables_from_config file = (JArr l, []))) /\
  (forall kvs v, file = Some (Text (Some (JObj kvs))) ->
     dict_get kvs "tables" = Some v ->
     load_tables_from_config file = (v, [])) /\
  ((load_tables_from_config file).1 <> JArr [] ->
   (load_tables_from_config file).2 = [] /\
   exists config, file = Some (Text (Some config)) /\
     (config = (load_tables_from_config file).1 \/
      exists kvs, config = JObj kvs /\
        dict_get kvs "tables" = Some (load_tables_from_config file).1)) /\
  (forall args_tables,
     truthy (main_tables args_tables file) = true /\
     (forall table more, args_tables = Some (table :: more) ->
        main_tables args_tables file = JArr (map JStr (table :: more))) /\
     (args_tables = None ->
      truthy (load_tables_from_config file).1 = false ->
      main_tables args_tables file = JArr (map JStr default_tables))).
Proof.
  split; [|split; [|split]].
  - intros l ->. cbn. split.
    + intros H. apply existsb_is_tables in H. rewrite H. reflexivity.
    + intros H. destruct (existsb is_tables l) eqn:E; [|reflexivity].
      apply existsb_is_tables in E. contradiction.
  - intros kvs v -> Hv. cbn. rewrite Hv. reflexivity.
  - destruct file as [[|[config|]]|]; cbn; try congruence.
    destruct config as [| | | |s|l|kvs]; cbn; try congruence.
    + destruct (has_substring "tables" s); cbn; congruence.
    + destruct (existsb is_tables l); cbn; [congruence|].
      intros _. split; [reflexivity|]. eauto.
    + destruct (dict_get kvs "tables") as [v|] eqn:Hv; cbn; [|congruence].
      intros _. split; [reflexivity|].
      exists (JObj kvs). split; [reflexivity|]. right. eauto.
  - intros args_tables. unfold main_tables. split; [|split].
    + destruct args_tables as [[|table more]|];
        try reflexivity;
        destruct (truthy (load_tables_from_config file).1) eqn:E;
        auto.
    + intros table more ->. reflexivity.
    + intros -> ->. reflexivity.
Qed.

(** ** Connections *)

(** X24. The connections of a run. The target is contacted only after the
    source is connected. When every shutdown succeeds, the cluster of each
    service that was constructed is shut down once; but a cluster whose
    [connect] failed is never shut down, since its service was never
    assigned. When shutting down the source raises, the target, though
    connected, is never shut down: both closes share one [try]. *)
Theorem connections_of_a_run src_keyspace tgt_keyspace src tgt shutdown_ok :
  let evs :=
    session_lifecycle src_keyspace tgt_keyspace src tgt shutdown_ok in
  ((initialize_sessions src_keyspace tgt_keyspace src tgt).2 = true <->
   src = Connects /\ tgt = Connects) /\
  (created Target evs <> [] -> src = Connects) /\
  (forall side,
     (length (shut_down side evs) <= length (created side evs) <= 1)%nat) /\
  (shutdown_ok Source = true -> shutdown_ok Target = true ->
   (shut_down Source evs = created Source evs <-> src <> NoSession) /\
   (shut_down Target evs = created Target evs <->
    ~ (src = Connects /\ tgt = NoSession))) /\
  (shutdown_ok Source = false -> src = Connects -> tgt = Connects ->
   created Target evs = [tt] /\ shut_down Target evs = []).
Proof.
  cbv zeta. unfold session_lifecycle, initialize_sessions, cleanup_sessions.
  split; [|split; [|split; [|split]]].
  - destruct src, tgt; cbn; split; intros H; try discriminate; auto;
      destruct H; discriminate.
  - destruct src; cbn; try (intros H; reflexivity || contradiction).
    all: try (intros H; exfalso; apply H; reflexivity).
  - intros side.
    destruct src, tgt, (shutdown_ok Source), (shutdown_ok Target), side;
      cbn; lia.
  - intros -> ->. destruct src, tgt; cbn; split; split;
      try discriminate; try reflexivity; try congruence;
      try (intros H; exfalso; apply H; auto; fail);
      try (intros _ [H1 H2]; discriminate).
  - intros -> -> ->. cbn. auto.
Qed.

(** ** The stored checkpoint and the copy *)

Lemma same_work_refl e : same_work e e.
Proof. repeat split. Qed.

Lemma same_work_app a1 a2 b1 b2 :
  same_work a1 a2 -> same_work b1 b2 -> same_work (a1 ++ b1) (a2 ++ b2).
Proof.
  intros (A1 & A2 & A3 & A4 & A5 & A6) (B1 & B2 & B3 & B4 & B5 & B6).
  unfold same_work. autorewrite with trace.
  rewrite A1, A2, A3, A4, A5, A6, B1, B2, B3, B4, B5, B6. repeat split.
Qed.

Lemma same_but_files_service s1 s2 : same_but_files s1 s2 -> same_service s1 s2.
Proof. intros (? & ? & ? & ?). repeat split; assumption. Qed.

Section Alike.
Context {Pre Mid Post : State -> State -> Prop}.
Hypothesis Mid_Post : forall s1 s2, Mid s1 s2 -> Post s1 s2.

Lemma alike_bind {A B} (m : M A) (k : A -> M B) :
  alike Pre Mid m -> (forall a, alike Mid Post (k a)) ->
  alike Pre Post (bind m k).
Proof.
  intros Hm Hk s1 s2 Hs. specialize (Hm s1 s2 Hs). unfold bind.
  destruct (m s1) as [[[a1|x1] t1] e1], (m s2) as [[[a2|x2] t2] e2];
    cbn [fst snd] in *; destruct Hm as (Hr & He & Ht); try discriminate.
  - injection Hr as <-. specialize (Hk a1 t1 t2 Ht).
    destruct (k a1 t1) as [[r1 u1] f1], (k a1 t2) as [[r2 u2] f2].
    cbn [fst snd] in *. destruct Hk as (Hr & Hf & Hu).
    split; [exact Hr|]. split; [|exact Hu].
    apply same_work_app; assumption.
  - injection Hr as <-. split; [reflexivity|]. split; [exact He|].
    apply Mid_Post. exact Ht.
Qed.

Lemma alike_try {A} (m : M A) (h : Exn -> M A) :
  alike Pre Mid m -> (forall e, alike Mid Post (h e)) ->
  alike Pre Post (try_except m h).
Proof.
  intros Hm Hh s1 s2 Hs. specialize (Hm s1 s2 Hs). unfold try_except.
  destruct (m s1) as [[[a1|x1] t1] e1], (m s2) as [[[a2|x2] t2] e2];
    cbn [fst snd] in *; destruct Hm as (Hr & He & Ht); try discriminate.
  - split; [exact Hr|]. split; [exact He|]. apply Mid_Post. exact Ht.
  - injection Hr as <-. specialize (Hh x1 t1 t2 Ht).
    destruct (h x1 t1) as [[r1 u1] f1], (h x1 t2) as [[r2 u2] f2].
    cbn [fst snd] in *. destruct Hh as (Hr & Hf & Hu).
    split; [exact Hr|]. split; [|exact Hu].
    apply same_work_app; assumption.
Qed.
End Alike.

Section AlikeSteps.
Context {P : State -> State -> Prop}.

Lemma alike_ret {A} (a : A) : alike P P (ret a).
Proof. intros s1 s2 Hs. cbn. auto using same_work_refl. Qed.

Lemma alike_raise {A} (e : Exn) : alike P P (raise (A := A) e).
Proof. intros s1 s2 Hs. cbn. auto using same_work_refl. Qed.

Lemma alike_answer {A} (e : Exn) (o : option A) : alike P P (answer e o).
Proof. destruct o; [apply alike_ret|apply alike_raise]. Qed.

Lemma alike_emit (e : Event) : alike P P (emit e).
Proof. intros s1 s2 Hs. cbn. auto using same_work_refl. Qed.

Lemma alike_log l m : alike P P (log l m).
Proof. apply alike_emit. Qed.

Lemma alike_when (b : bool) (m : M unit) :
  alike P P m -> alike P P (when b m).
Proof. destruct b; [auto|]. intros _. apply alike_ret. Qed.
End AlikeSteps.

Lemma alike_weaken {A} (Pre Post Post' : State -> State -> Prop) (m : M A) :
  (forall s1 s2, Post s1 s2 -> Post' s1 s2) ->
  alike Pre Post m -> alike Pre Post' m.
Proof.
  intros Hw Hm s1 s2 Hs. destruct (Hm s1 s2 Hs) as (? & ? & ?). auto.
Qed.

Lemma alike_set_stats f :
  alike same_but_files same_but_files (modify (set_stats f)).
Proof.
  intros s1 s2 (Hst & Ht & Hf & Hr). cbn.
  split; [reflexivity|]. split; [apply same_work_refl|].
  repeat split; cbn; congruence.
Qed.

Lemma alike_set_stats_service f :
  alike same_service same_service (modify (set_stats f)).
Proof.
  intros s1 s2 (Hst & Ht & Hr). cbn.
  split; [reflexivity|]. split; [apply same_work_refl|].
  repeat split; cbn; congruence.
Qed.

Lemma alike_tgt_execute env q vals :
  alike same_but_files same_but_files (tgt_execute env q vals).
Proof.
  intros s1 s2 (Hst & Ht & Hf & Hr). unfold tgt_execute. rewrite Ht.
  destruct (tgt_accepts env (tgt_attempts s2) q vals); cbn;
    (split; [reflexivity|]); (split; [apply same_work_refl|]);
    repeat split; cbn; congruence.
Qed.

Lemma alike_save_checkpoint env t p total b :
  alike same_but_files same_but_files (save_checkpoint env t p total b).
Proof.
  intros s1 s2 (Hst & Ht & Hf & Hr). rewrite !save_checkpoint_run.
  cbv zeta. rewrite Hf.
  destruct (fs_write env (fs_ops s2)); cbn;
    (split; [reflexivity|]); (split; [apply same_work_refl|]);
    repeat split; cbn; congruence.
Qed.

Lemma alike_clear_checkpoint env t :
  alike same_but_files same_service (clear_checkpoint env t).
Proof.
  intros s1 s2 (Hst & Ht & Hf & Hr). unfold clear_checkpoint.
  destruct (files s1 !! checkpoint_file t), (files s2 !! checkpoint_file t);
    try destruct (fs_remove_ok env (fs_ops s1));
    try destruct (fs_remove_ok env (fs_ops s2)); cbn;
    (split; [reflexivity|]); (split; [repeat split|]);
    repeat split; cbn; congruence.
Qed.

Lemma alike_get_performance_metrics env t d n :
  alike same_but_files same_but_files (get_performance_metrics env t d n).
Proof.
  unfold get_performance_metrics.
  destruct (psutil_sample env t) as [[mem cpu]|].
  - apply alike_ret.
  - eapply (alike_bind (Mid := same_but_files));
      [auto|apply alike_log|intros; apply alike_ret].
Qed.

(** Walks two runs of the same computation side by side. *)
Ltac alike_walk :=
  repeat first
    [ progress intros
    | solve [auto 1]
    | apply alike_ret | apply alike_raise | apply alike_answer
    | apply alike_log | apply alike_emit
    | apply alike_set_stats | apply alike_tgt_execute
    | apply alike_save_checkpoint | apply alike_get_performance_metrics
    | apply alike_when
    | eapply (alike_bind (Mid := same_but_files) (Post := same_but_files));
        [solve [auto]| |]
    | match goal with
      | |- alike _ _ (if ?b then _ else _) => destruct b
      | |- alike _ _ (match ?x with _ => _ end) => destruct x
      end ].

Lemma alike_insert_rows env columns q batch :
  alike same_but_files same_but_files (insert_rows env columns q batch).
Proof. induction batch as [|row rest IH]; simpl; alike_walk. Qed.

Lemma alike_stream_batches env cfg t bsize total columns q all_rows :
  forall current_batch processed batch_num,
  alike same_but_files same_but_files
    (stream_batches env cfg t bsize total columns q all_rows current_batch
                    processed batch_num).
Proof.
  pose proof (alike_insert_rows env columns q).
  induction all_rows as [|row rest IH]; intros cb pc bn; simpl; alike_walk.
Qed.

Lemma alike_flush_remaining env cfg t bsize total columns q cb pc bn :
  alike same_but_files same_but_files
    (flush_remaining env cfg t bsize total columns q cb pc bn).
Proof.
  pose proof (alike_insert_rows env columns q).
  unfold flush_remaining. alike_walk.
Qed.

Lemma quiet_same_work e1 e2 : quiet e1 -> quiet e2 -> same_work e1 e2.
Proof.
  intros (A1 & A2 & A3 & _ & A5 & A6 & A7 & _)
         (B1 & B2 & B3 & _ & B5 & B6 & B7 & _).
  unfold same_work. rewrite A1, A2, A3, A5, A6, A7, B1, B2, B3, B5, B6, B7.
  repeat split.
Qed.

Lemma alike_when_clear (b : bool) env t :
  alike same_but_files same_service (when b (clear_checkpoint env t)).
Proof.
  destruct b; [apply alike_clear_checkpoint|].
  eapply alike_weaken; [exact same_but_files_service|apply alike_ret].
Qed.

(** Walks the part of a copy that ends with the clearing of the
    checkpoint. *)
Ltac alike_tail :=
  repeat first
    [ progress intros
    | match goal with
      | |- alike _ _ (if ?b then _ else _) => destruct b
      | |- alike _ _ (match ?x with _ => _ end) => destruct x
      | |- alike same_but_files same_service
             (bind (when _ (clear_checkpoint _ _)) _) =>
          eapply (alike_bind (Mid := same_service));
            [auto
            |apply alike_when_clear
            |intros;
             eapply (alike_bind (Mid := same_service));
               [auto|apply alike_set_stats_service|intros; apply alike_ret]]
      end
    | eapply (alike_bind (Mid := same_but_files) (Post := same_service));
        [exact same_but_files_service|solve [alike_walk]|]
    | eapply alike_weaken; [exact same_but_files_service|];
        solve [alike_walk] ].

Lemma bind_ok_run {A B} (m : M A) (k : A -> M B) s a s1 e1 :
  m s = (Ok a, s1, e1) ->
  bind m k s = ((k a s1).1.1, (k a s1).1.2, e1 ++ (k a s1).2).
Proof.
  intros H. unfold bind. rewrite H.
  destruct (k a s1) as [[r s2] e2]. reflexivity.
Qed.

(** A copy after the report of the earlier checkpoint. *)
Lemma report_then_alike {A} cfg t (rest : M A) l msg s1 s2 :
  same_but_files s1 s2 ->
  resume_report_ok cfg s1 t -> resume_report_ok cfg s2 t ->
  alike same_but_files same_service rest ->
  let m := (log l msg ;;; report_resume cfg t ;;; rest) in
  (m s1).1.1 = (m s2).1.1 /\ same_work (m s1).2 (m s2).2 /\
  same_service (m s1).1.2 (m s2).1.2.
Proof.
  intros Hs H1 H2 Hrest. cbv zeta.
  destruct (report_resume cfg t s1) as [[r1 u1] e1] eqn:E1.
  destruct (report_resume cfg t s2) as [[r2 u2] e2] eqn:E2.
  pose proof (report_resume_ok _ _ _ _ _ _ H1 E1) as ->.
  pose proof (report_resume_ok _ _ _ _ _ _ H2 E2) as ->.
  pose proof (report_resume_spec _ _ _ _ _ _ E1) as (-> & Q1).
  pose proof (report_resume_spec _ _ _ _ _ _ E2) as (-> & Q2).
  rewrite (bind_ok_run (log l msg) _ s1 tt s1 [EvLog l msg]) by reflexivity.
  rewrite (bind_ok_run (log l msg) _ s2 tt s2 [EvLog l msg]) by reflexivity.
  rewrite (bind_ok_run _ _ s1 tt s1 e1 E1).
  rewrite (bind_ok_run _ _ s2 tt s2 e2 E2).
  cbn [fst snd].
  destruct (Hrest s1 s2 Hs) as (Hr & Hf & Hu).
  split; [exact Hr|]. split; [|exact Hu].
  apply (same_work_app [_] [_]); [apply same_work_refl|].
  apply same_work_app; [apply quiet_same_work; assumption|exact Hf].
Qed.

(** X25. The stored checkpoint is only reported. Take a copy of a table from
    two service states that differ in nothing but the checkpoint directory
    (one may hold a checkpoint of an earlier, interrupted copy, the other
    none), such that the report of the stored checkpoint does not raise.
    The two copies return the same, send the same statements to the target
    with the same outcome, write the same checkpoints, log the same
    progress and leave the same statistics: the copy does not resume from
    the stored progress, it streams the table from its first row again. *)
Theorem stored_checkpoint_does_not_change_the_copy env cfg t bsize s fs :
  resume_report_ok cfg s t -> resume_report_ok cfg (with_files fs s) t ->
  let out := copy_table_data env cfg t bsize s in
  let out' := copy_table_data env cfg t bsize (with_files fs s) in
  result out = result out' /\
  inserted (events out) = inserted (events out') /\
  failed (events out) = failed (events out') /\
  saved (events out) = saved (events out') /\
  flushes (events out) = flushes (events out') /\
  copied (events out) = copied (events out') /\
  stats (final out) = stats (final out').
Proof.
  intros H1 H2. cbv zeta.
  assert (Hs : same_but_files s (with_files fs s)) by (repeat split).
  assert (Hbody : (copy_body env cfg t bsize s).1.1
                  = (copy_body env cfg t bsize (with_files fs s)).1.1 /\
                  same_work (copy_body env cfg t bsize s).2
                            (copy_body env cfg t bsize (with_files fs s)).2 /\
                  same_service (copy_body env cfg t bsize s).1.2
                    (copy_body env cfg t bsize (with_files fs s)).1.2).
  { unfold copy_body. apply report_then_alike; [assumption..|].
    pose proof (alike_stream_batches env cfg t bsize) as Hloop.
    pose proof (alike_flush_remaining env cfg t bsize) as Hflush.
    unfold log_performance_metrics. alike_tail. }
  unfold copy_table_data, try_except, result, final, events.
  destruct (copy_body env cfg t bsize s) as [[r1 u1] e1].
  destruct (copy_body env cfg t bsize (with_files fs s)) as [[r2 u2] e2].
  cbn [fst snd] in Hbody. destruct Hbody as (<- & Hw & Hst & _).
  destruct r1 as [b|e]; cbn [fst snd].
  - destruct Hw as (W1 & W2 & W3 & _ & W5 & W6). repeat split; assumption.
  - unfold bind, log, emit, modify, ret. cbn [fst snd].
    autorewrite with trace.
    destruct Hw as (W1 & W2 & W3 & _ & W5 & W6).
    rewrite W1, W2, W3, W5, W6. cbn [stats set_stats]. rewrite Hst.
    repeat split.
Qed.

(** ** Worked inputs of the further properties *)

(** Counts 3 and 2: the validation fails on the counts. *)
Lemma count_mismatch_fails_validation_witness :
  val_src_count (counts_only 3 2) "t" = Some 3 /\
  val_tgt_count (counts_only 3 2) "t" = Some 2 /\ 3 <> 2 /\
  validate_data_integrity_detailed (counts_only 3 2) "t" fresh
  = (Ok false, fresh, [EvLog Error (MsgCountMismatch 3 2)]).
Proof.
  split; [reflexivity|]. split; [reflexivity|]. split; [lia|].
  apply (count_mismatch_fails_validation (counts_only 3 2) "t" fresh 3 2);
    [reflexivity|reflexivity|lia].
Defined.

(** Saving the checkpoint of table [u] over a directory that holds the
    checkpoint of table [t]. *)
Lemma checkpoint_operations_are_per_table_witness :
  let s1 := final (save_checkpoint (world 25 [] []) "u" 3 9 2 stored) in
  plain "u" = true /\ plain "t" = true /\ "t" <> "u" /\
  files s1 !! checkpoint_file "t" = files stored !! checkpoint_file "t" /\
  result (load_checkpoint "t" s1) = result (load_checkpoint "t" stored).
Proof.
  cbv zeta.
  assert (Hne : "t" <> "u") by discriminate.
  split; [reflexivity|]. split; [reflexivity|]. split; [exact Hne|].
  destruct (checkpoint_operations_are_per_table (world 25 [] []) "u" "t"
              3 9 2 stored eq_refl eq_refl Hne)
    as (_ & H1 & _ & H2 & _).
  split; [exact H1|exact H2].
Defined.

(** Two samples whose first rows are [(True, 'a')] and [(1, 'a')], equal
    under [==], and whose second rows differ: record 1 is reported. *)
Lemma validation_reports_first_mismatch_witness :
  let v := sampling 2 [[("flag", VBool true); ("name", VText "a")]; row_b]
                      [[("flag", VInt 1); ("name", VText "a")]; row_c] in
  In (EvLog Error (MsgSampleMismatch 1))
     (events (validate_data_integrity_detailed v "t" fresh)) /\
  result (validate_data_integrity_detailed v "t" fresh) = Ok false.
Proof.
  cbv zeta.
  assert (H : In (EvLog Error (MsgSampleMismatch 1))
                 (events (validate_data_integrity_detailed
                            (sampling 2
                               [[("flag", VBool true); ("name", VText "a")];
                                row_b]
                               [[("flag", VInt 1); ("name", VText "a")];
                                row_c])
                            "t" fresh)))
    by (vm_compute; auto).
  split; [exact H|].
  exact (proj1 (validation_reports_first_mismatch _ _ _ _ H)).
Defined.

(** A run without resume over a directory that holds a checkpoint. *)
Lemma resume_disabled_leaves_store_alone_witness :
  let cfg := set_resume false default_config in
  let out := run_backfill (world 3 [row_a; row_b; row_c] []) blind cfg
                          ["t"] stored in
  enable_resume cfg = false /\
  files (final out) = files stored /\ fs_ops (final out) = fs_ops stored /\
  saved (events out) = [] /\ cleared (events out) = [] /\
  Forall (fun e => store_event e = false) (events out).
Proof.
  cbv zeta. split; [reflexivity|].
  apply (resume_disabled_leaves_store_alone
           (world 3 [row_a; row_b; row_c] []) blind
           (set_resume false default_config) ["t"] stored).
  reflexivity.
Defined.

(** A signal before the second check: only the first table is attempted. *)
Lemma signal_stops_the_run_witness :
  let env := interrupted 1 (world 1 [row_a] []) in
  let out := run_backfill env blind default_config ["a"; "b"; "c"] fresh in
  signal_before env 1 = true /\
  attempted (events out) `prefix_of` take 1 ["a"; "b"; "c"] /\
  (length (copied (events out)) <= 1)%nat.
Proof.
  cbv zeta. split; [reflexivity|].
  apply (signal_stops_the_run (interrupted 1 (world 1 [row_a] [])) blind
           default_config ["a"; "b"; "c"] fresh 1).
  reflexivity.
Defined.

(** The first table fails on its only statement; the second is attempted
    all the same. *)
Lemma every_table_is_attempted_witness :
  let env := world 1 [row_a] [0%nat] in
  let out := run_backfill env blind default_config ["a"; "b"] fresh in
  undisturbed env /\ running fresh = true /\
  connect_src env && connect_tgt env = true /\
  attempted (events out) = ["a"; "b"] /\ running (final out) = true /\
  (length (copied (events out)) + length (copy_errors (events out))
   <= length ["a"; "b"])%nat.
Proof.
  cbv zeta.
  assert (Hu : undisturbed (world 1 [row_a] [0%nat]))
    by (intros k; reflexivity).
  split; [exact Hu|]. split; [reflexivity|]. split; [reflexivity|].
  apply (every_table_is_attempted (world 1 [row_a] [0%nat]) blind
           default_config ["a"; "b"] fresh Hu); reflexivity.
Defined.

(** Three rows, the second statement refused: one row is written. *)
Lemma copy_writes_stream_prefix_witness :
  let env := world 3 [row_a; row_b; row_c] [1%nat] in
  let out := copy_table_data env default_config "t" 2 fresh in
  src_sample env "t" = Some (Some row_a) /\
  src_stream env "t" = Some ([row_a; row_b; row_c], false) /\
  exists k, (k <= length [row_a; row_b; row_c])%nat /\
    inserted (events out)
    = map (values_of (sampled_columns (Some row_a)))
          (take k [row_a; row_b; row_c]) /\
    (copied (events out) <> [] ->
     k = length [row_a; row_b; row_c] /\ false = false).
Proof.
  cbv zeta. split; [reflexivity|]. split; [reflexivity|].
  apply (copy_writes_stream_prefix (world 3 [row_a; row_b; row_c] [1%nat])
           default_config "t" 2 fresh (Some row_a) [row_a; row_b; row_c]
           false); reflexivity.
Defined.

(** Three rows copied: the metrics stored carry the three records. *)
Lemma completed_copy_records_metrics_witness :
  let env := world 3 [row_a; row_b; row_c] [] in
  let out := copy_table_data env default_config "t" 2 fresh in
  copied (events out) = [3] /\
  exists m,
    performance_metrics (stats (final out)) !! "t" = Some m /\
    total_records m = 3.
Proof.
  cbv zeta.
  assert (H : copied (events (copy_table_data
                (world 3 [row_a; row_b; row_c] []) default_config "t" 2
                fresh)) = [3]) by (vm_compute; reflexivity).
  split; [exact H|].
  destruct (completed_copy_records_metrics
              (world 3 [row_a; row_b; row_c] []) default_config "t" 2
              fresh 3 H) as (m & Hm & _ & _ & Hp).
  exists m. split; [exact Hm|]. exact (proj1 Hp).
Defined.

(** A completed copy over a directory that holds an earlier checkpoint. *)
Lemma completed_copy_leaves_no_checkpoint_witness :
  let env := world 2 [row_a; row_b] [] in
  let out := copy_table_data env default_config "t" 2 stored in
  enable_resume default_config = true /\
  (forall n, fs_remove_ok env n = true) /\
  is_Some (files stored !! checkpoint_file "t") /\
  copied (events out) <> [] /\
  files (final out) !! checkpoint_file "t" = None.
Proof.
  cbv zeta.
  assert (Hrm : forall n, fs_remove_ok (world 2 [row_a; row_b] []) n = true)
    by (intros n; reflexivity).
  assert (Hco : copied (events (copy_table_data (world 2 [row_a; row_b] [])
                                  default_config "t" 2 stored)) <> [])
    by (vm_compute; discriminate).
  split; [reflexivity|]. split; [exact Hrm|].
  split; [vm_compute; eauto|]. split; [exact Hco|].
  exact (proj1 (completed_copy_leaves_no_checkpoint
                  (world 2 [row_a; row_b] []) default_config "t" 2 stored
                  eq_refl Hrm Hco)).
Defined.

(** Three rows with a batch size of 0: three flushes. *)
Lemma unit_batches_flush_every_row_witness :
  let env := world 3 [row_a; row_b; row_c] [] in
  let out := copy_table_data env default_config "t" 0 fresh in
  0 <= 1 /\ src_stream env "t" = Some ([row_a; row_b; row_c], false) /\
  copied (events out) <> [] /\
  flushes (events out) = [1; 2; 3] /\ copied (events out) = [3].
Proof.
  cbv zeta.
  assert (Hco : copied (events (copy_table_data
                  (world 3 [row_a; row_b; row_c] []) default_config "t" 0
                  fresh)) <> [])
    by (vm_compute; discriminate).
  split; [lia|]. split; [reflexivity|]. split; [exact Hco|].
  apply (unit_batches_flush_every_row (world 3 [row_a; row_b; row_c] [])
           default_config "t" 0 fresh [row_a; row_b; row_c] false);
    [lia|reflexivity|exact Hco].
Defined.


(** Without a pool, the second statement refused: the call raises. *)
Lemma fallback_write_failure_propagates_witness :
  let out := process_batch_parallel (world 0 [] [1%nat]) no_pool
               (PoolCompletes []) [[row_a; row_b]; [row_c]] "t" ["id"]
               "INSERT" fresh in
  max_workers no_pool <= 0 /\
  In (EvInsertFailed "INSERT" [VInt 2]) (events out) /\
  result out = Raise DriverError.
Proof.
  cbv zeta.
  assert (Hin : In (EvInsertFailed "INSERT" [VInt 2])
                   (events (process_batch_parallel (world 0 [] [1%nat])
                              no_pool (PoolCompletes [])
                              [[row_a; row_b]; [row_c]] "t" ["id"] "INSERT"
                              fresh)))
    by (vm_compute; auto 10).
  split; [vm_compute; discriminate|]. split; [exact Hin|].
  exact (proj1 (fallback_write_failure_propagates (world 0 [] [1%nat])
                  no_pool (PoolCompletes []) [[row_a; row_b]; [row_c]] "t"
                  ["id"] "INSERT" fresh "INSERT" [VInt 2]
                  ltac:(vm_compute; discriminate) Hin)).
Defined.

(** Three rows with a batch size of -2: two batches. *)
Lemma write_data_batches_witness :
  let out := write_data willing "t" [row_a; row_b; row_c] ["id"] (-2) in
  session_ok willing /\ -2 <> 0 /\
  Forall (has_columns ["id"]) [row_a; row_b; row_c] /\
  out.2 = Ok tt /\
  executed_batches out.1 = [[[VInt 1]; [VInt 2]]; [[VInt 3]]].
Proof.
  cbv zeta.
  assert (Hs : session_ok willing) by (repeat split).
  assert (Hc : Forall (has_columns ["id"]) [row_a; row_b; row_c])
    by (repeat constructor; eexists; reflexivity).
  split; [exact Hs|]. split; [lia|]. split; [exact Hc|].
  split; [|reflexivity].
  exact (proj1 (write_data_batches willing "t" [row_a; row_b; row_c] ["id"]
                  (-2) Hs ltac:(lia) ltac:(discriminate)
                  ltac:(discriminate) Hc)).
Defined.

(** The copy of three rows is the same with and without the checkpoint of
    an earlier copy in the directory. *)
Lemma stored_checkpoint_does_not_change_the_copy_witness :
  let env := world 3 [row_a; row_b; row_c] [] in
  let out := copy_table_data env default_config "t" 2 fresh in
  let out' := copy_table_data env default_config "t" 2
                (with_files (files stored) fresh) in
  resume_report_ok default_config fresh "t" /\
  resume_report_ok default_config (with_files (files stored) fresh) "t" /\
  result out = result out' /\
  inserted (events out) = inserted (events out').
Proof.
  cbv zeta.
  assert (H1 : resume_report_ok default_config fresh "t").
  { intros _ c H. vm_compute in H. discriminate. }
  assert (H2 : resume_report_ok default_config
                 (with_files (files stored) fresh) "t").
  { intros _ c H. vm_compute in H. injection H as <-.
    split; reflexivity. }
  split; [exact H1|]. split; [exact H2|].
  destruct (stored_checkpoint_does_not_change_the_copy
              (world 3 [row_a; row_b; row_c] []) default_config "t" 2 fresh
              (files stored) H1 H2) as (Hr & Hi & _).
  split; [exact Hr|exact Hi].
Defined.
